(** * Web class obfuscator: a shallow embedding of [obfuscator.py]

    The development follows the module top-down in the order of the source:
    the identifier transform, the mapping builder, the CSS and HTML
    rewriters and the project orchestrator.

    Data model.
    - A Python [str] is a [string]; every [ascii] is read as ONE code point
      in the range U+0000..U+00FF (the Latin-1 block), so [String.length] is
      Python's [len] and [ord]/[chr] are the code-point conversions.  The
      character classes ([str.isalpha], [str.isupper], the [\w] class of
      [re]) are the Unicode ones restricted to that block.
    - [bytes] are lists of [Z] in 0..255; 32-bit words of MD5 are [Z] with
      the wrap-around written out.
    - A Python [set] is a [gset], a [dict] is a [gmap]; a [list] is a [list].
    - A raised exception is the [Raise] case of [result]; the functions that
      touch files run in a monad over the file system and the statistics,
      whose state outlives a raise, with [try_except] for [try/except].
    - The document that [BeautifulSoup] builds is a tree of tags and texts;
      a [find_all] loop visits positions of that tree and changes it in
      place.
    - The libraries are embedded as far as the module relies on them:
      [hashlib.md5], [re.sub] for the one pattern used, [str.replace],
      [pathlib] paths, [sorted].  The parsers of [tinycss2] and [bs4] and
      the serialiser of [bs4] are parameters of the functions that call
      them. *)

From Stdlib Require Import ZArith Lia Ascii String List Sorted Permutation.
From stdpp Require Import base gmap sets list strings pretty.

Local Open Scope string_scope.
Local Open Scope Z_scope.
Local Open Scope list_scope.

(** ** Exceptions *)

Inductive exn : Type :=
| ValueError (msg : string)
| TypeError (msg : string)
| IndexError (msg : string)
| ReError (msg : string)
| OSError (msg : string).

Inductive result (A : Type) : Type :=
| Ok (a : A)
| Raise (e : exn).
Arguments Ok {A} a.
Arguments Raise {A} e.

Definition rbind {A B} (r : result A) (k : A → result B) : result B :=
  match r with
  | Ok a => k a
  | Raise e => Raise e
  end.

(** [str(e)] for the exceptions above: the message. *)
Definition exn_str (e : exn) : string :=
  match e with
  | ValueError m | TypeError m | IndexError m | ReError m | OSError m => m
  end.

(** ** Python string primitives *)

Module Py.

Definition ord (c : ascii) : Z := Z.of_N (N_of_ascii c).

(** [chr n], for [0 <= n < 256]. *)
Definition chr (n : Z) : ascii := ascii_of_N (Z.to_N n).

Definition between (lo hi n : Z) : bool := (lo <=? n) && (n <=? hi).

(** [str.isalpha] on one character: general categories Lu, Ll, Lt, Lm, Lo. *)
Definition isalpha (c : ascii) : bool :=
  let n := ord c in
  between 65 90 n || between 97 122 n
  || (n =? 170) || (n =? 181) || (n =? 186)
  || between 192 214 n || between 216 246 n || between 248 255 n.

(** [str.isupper] on one character. *)
Definition isupper (c : ascii) : bool :=
  let n := ord c in
  between 65 90 n || between 192 214 n || between 216 222 n.

(** The [\w] class of [re] on a [str] pattern: alphanumeric or underscore. *)
Definition is_word (c : ascii) : bool :=
  let n := ord c in
  isalpha c || between 48 57 n || (n =? 95)
  || between 178 179 n || (n =? 185) || between 188 190 n.

Definition is_ascii_upper (c : ascii) : bool := between 65 90 (ord c).
Definition is_ascii_lower (c : ascii) : bool := between 97 122 (ord c).
Definition is_ascii_letter (c : ascii) : bool :=
  is_ascii_upper c || is_ascii_lower c.

Fixpoint str_map (f : ascii → ascii) (s : string) : string :=
  match s with
  | EmptyString => EmptyString
  | String c s' => String (f c) (str_map f s')
  end.

Definition len (s : string) : Z := Z.of_nat (String.length s).

(** [all(P(c) for c in s)] *)
Fixpoint all_chars (P : ascii → bool) (s : string) : bool :=
  match s with
  | EmptyString => true
  | String c s' => P c && all_chars P s'
  end.

(** [s[:n]] *)
Fixpoint take (n : nat) (s : string) : string :=
  match n, s with
  | S n', String c s' => String c (take n' s')
  | _, _ => EmptyString
  end.

(** [s[n:]] *)
Fixpoint drop (n : nat) (s : string) : string :=
  match n, s with
  | S n', String _ s' => drop n' s'
  | _, _ => s
  end.

(** [s.startswith(p)] *)
Fixpoint startswith (p s : string) : bool :=
  match p, s with
  | EmptyString, _ => true
  | String a p', String b s' => if decide (a = b) then startswith p' s' else false
  | String _ _, EmptyString => false
  end.

(** [s.endswith(p)] *)
Definition endswith (p s : string) : bool :=
  bool_decide (drop (String.length s - String.length p) s = p
               ∧ (String.length p ≤ String.length s)%nat).

(** [sep.join(l)] *)
Fixpoint join (sep : string) (l : list string) : string :=
  match l with
  | [] => ""
  | [x] => x
  | x :: l' => x +:+ sep +:+ join sep l'
  end.

(** [f"{n}"] for a non-negative [int]. *)
Definition str_of_nat (n : nat) : string := pretty n.

End Py.

(** ** UTF-8 and hexadecimal encodings *)

Definition byte := Z.

(** [s.encode('utf-8')] on code points below U+0100: one byte below U+0080,
    two bytes otherwise. *)
Definition utf8_char (c : ascii) : list byte :=
  let n := Py.ord c in
  if n <? 128 then [n]
  else [Z.lor 192 (Z.shiftr n 6); Z.lor 128 (Z.land n 63)].

Fixpoint encode_utf8 (s : string) : list byte :=
  match s with
  | EmptyString => []
  | String c s' => utf8_char c ++ encode_utf8 s'
  end.

Definition hex_digit (n : Z) : ascii :=
  if n <? 10 then Py.chr (48 + n) else Py.chr (87 + n).

(** [bytes.hex()] *)
Fixpoint bytes_hex (bs : list byte) : string :=
  match bs with
  | [] => ""
  | b :: bs' =>
      String (hex_digit (Z.shiftr b 4))
        (String (hex_digit (Z.land b 15)) (bytes_hex bs'))
  end.

(** ** MD5 (RFC 1321), as computed by [hashlib.md5] *)

Module Md5.

Definition w32 (x : Z) : Z := x mod 2 ^ 32.

Definition rotl (x : Z) (c : Z) : Z :=
  w32 (Z.lor (Z.shiftl x c) (Z.shiftr (w32 x) (32 - c))).

Definition lnot32 (x : Z) : Z := Z.lxor x 4294967295.

Definition K : list Z :=
  [ 0xd76aa478; 0xe8c7b756; 0x242070db; 0xc1bdceee;
    0xf57c0faf; 0x4787c62a; 0xa8304613; 0xfd469501;
    0x698098d8; 0x8b44f7af; 0xffff5bb1; 0x895cd7be;
    0x6b901122; 0xfd987193; 0xa679438e; 0x49b40821;
    0xf61e2562; 0xc040b340; 0x265e5a51; 0xe9b6c7aa;
    0xd62f105d; 0x02441453; 0xd8a1e681; 0xe7d3fbc8;
    0x21e1cde6; 0xc33707d6; 0xf4d50d87; 0x455a14ed;
    0xa9e3e905; 0xfcefa3f8; 0x676f02d9; 0x8d2a4c8a;
    0xfffa3942; 0x8771f681; 0x6d9d6122; 0xfde5380c;
    0xa4beea44; 0x4bdecfa9; 0xf6bb4b60; 0xbebfbc70;
    0x289b7ec6; 0xeaa127fa; 0xd4ef3085; 0x04881d05;
    0xd9d4d039; 0xe6db99e5; 0x1fa27cf8; 0xc4ac5665;
    0xf4292244; 0x432aff97; 0xab9423a7; 0xfc93a039;
    0x655b59c3; 0x8f0ccc92; 0xffeff47d; 0x85845dd1;
    0x6fa87e4f; 0xfe2ce6e0; 0xa3014314; 0x4e0811a1;
    0xf7537e82; 0xbd3af235; 0x2ad7d2bb; 0xeb86d391 ].

Definition R : list Z :=
  [ 7; 12; 17; 22; 7; 12; 17; 22; 7; 12; 17; 22; 7; 12; 17; 22;
    5; 9; 14; 20; 5; 9; 14; 20; 5; 9; 14; 20; 5; 9; 14; 20;
    4; 11; 16; 23; 4; 11; 16; 23; 4; 11; 16; 23; 4; 11; 16; 23;
    6; 10; 15; 21; 6; 10; 15; 21; 6; 10; 15; 21; 6; 10; 15; 21 ].

Definition nthZ (l : list Z) (i : Z) : Z := nth (Z.to_nat i) l 0.

(** Little-endian 32-bit word from four bytes, and back. *)
Definition word_of_bytes (bs : list byte) : Z :=
  nthZ bs 0 + nthZ bs 1 * 2 ^ 8 + nthZ bs 2 * 2 ^ 16 + nthZ bs 3 * 2 ^ 24.

Definition bytes_of_word (w : Z) : list byte :=
  [ w mod 256; (w / 2 ^ 8) mod 256; (w / 2 ^ 16) mod 256; (w / 2 ^ 24) mod 256 ].

Definition bytes_of_len64 (n : Z) : list byte :=
  map (λ i, (n / 2 ^ (8 * i)) mod 256) [0; 1; 2; 3; 4; 5; 6; 7].

(** Padding: a 1 bit, zeros up to 56 mod 64, the bit length on 64 bits. *)
Definition pad (msg : list byte) : list byte :=
  let n := Z.of_nat (length msg) in
  let zeros := Z.to_nat ((55 - n) mod 64) in
  msg ++ [128] ++ repeat 0 zeros ++ bytes_of_len64 ((8 * n) mod 2 ^ 64).

Fixpoint words_of_block (k : nat) (bs : list byte) : list Z :=
  match k with
  | O => []
  | S k' => word_of_bytes (firstn 4 bs) :: words_of_block k' (skipn 4 bs)
  end.

Record state := State { sa : Z; sb : Z; sc : Z; sd : Z }.

Definition init : state :=
  State 0x67452301 0xefcdab89 0x98badcfe 0x10325476.

(** One of the 64 operations of a block. *)
Definition step (M : list Z) (st : state) (i : Z) : state :=
  let '(State a b c d) := st in
  let '(f, g) :=
    if i <? 16 then (Z.lor (Z.land b c) (Z.land (lnot32 b) d), i)
    else if i <? 32 then
      (Z.lor (Z.land d b) (Z.land (lnot32 d) c), (5 * i + 1) mod 16)
    else if i <? 48 then (Z.lxor (Z.lxor b c) d, (3 * i + 5) mod 16)
    else (Z.lxor c (Z.lor b (lnot32 d)), (7 * i) mod 16) in
  let f' := w32 (f + a + nthZ K i + nthZ M g) in
  State d (w32 (b + rotl f' (nthZ R i))) b c.

Definition compress (st : state) (block : list byte) : state :=
  let M := words_of_block 16 block in
  let '(State a b c d) := fold_left (step M) (map Z.of_nat (seq 0 64)) st in
  State (w32 (sa st + a)) (w32 (sb st + b)) (w32 (sc st + c)) (w32 (sd st + d)).

Fixpoint blocks (n : nat) (st : state) (bs : list byte) : state :=
  match n with
  | O => st
  | S n' => blocks n' (compress st (firstn 64 bs)) (skipn 64 bs)
  end.

(** [hashlib.md5(msg).digest()] *)
Definition digest (msg : list byte) : list byte :=
  let p := pad msg in
  let st := blocks (Nat.div (length p) 64) init p in
  bytes_of_word (sa st) ++ bytes_of_word (sb st)
    ++ bytes_of_word (sc st) ++ bytes_of_word (sd st).

(** [hashlib.md5(msg).hexdigest()] *)
Definition hexdigest (msg : list byte) : string := bytes_hex (digest msg).

End Md5.

(** ** Identifier transform *)

(** The body of the [for] loop of the shift method on one character. *)
Definition shift_char (shift : Z) (char : ascii) : ascii :=
  if Py.isalpha char then
    let base := if Py.isupper char then Py.ord "A" else Py.ord "a" in
    Py.chr (base + (Py.ord char - base + shift) mod 26)
  else char.

Definition obfuscate_identifier (identifier method : string) : result string :=
  if decide (identifier = "") then Ok identifier
  else if decide (method = "shift") then
    let shift := Py.len identifier in
    Ok (Py.str_map (shift_char shift) identifier)
  else if decide (method = "hash") then
    Ok ("c" +:+ Py.take 8 (Md5.hexdigest (encode_utf8 identifier)))
  else if decide (method = "hex") then
    Ok ("c" +:+ bytes_hex (encode_utf8 identifier))
  else Raise (ValueError ("Unknown obfuscation method: '" +:+ method +:+ "'")).

(** ** Mapping builder *)

Record ClassMapping := { original : string; obfuscated : string }.

(** [sorted(l)] and [sorted(l, key=..., reverse=True)] are stable sorts; a
    stable insertion sort computes the same list.  [le x y] says that [x]
    may stand before [y]; a new element is put before the first element it
    may stand before, so elements that compare equal keep their order. *)
Section PySorted.
Context {A : Type} (le : A → A → bool).

Fixpoint insert_sorted (x : A) (l : list A) : list A :=
  match l with
  | [] => [x]
  | y :: l' => if le x y then x :: l else y :: insert_sorted x l'
  end.

Fixpoint py_sorted (l : list A) : list A :=
  match l with
  | [] => []
  | x :: l' => insert_sorted x (py_sorted l')
  end.
End PySorted.

(** [sorted(all_classes)]: the elements of the set by code-point order. *)
Definition sorted_classes (all_classes : gset string) : list string :=
  py_sorted String.leb (elements all_classes).

(** [sorted(mappings, key=lambda x: len(x.original), reverse=True)] *)
Definition by_length_desc (x y : ClassMapping) : bool :=
  (String.length (original y) <=? String.length (original x))%nat.

(** The [while obfuscated in used_names] loop; [fuel] bounds the number of
    iterations. *)
Fixpoint collision_loop (fuel : nat) (used_names : gset string)
    (original_obfuscated obfuscated : string) (counter : nat) : option string :=
  if decide (obfuscated ∈ used_names) then
    match fuel with
    | O => None
    | S fuel' =>
        collision_loop fuel' used_names original_obfuscated
          (original_obfuscated +:+ "_" +:+ Py.str_of_nat counter) (S counter)
    end
  else Some obfuscated.

(** The loop run from [counter = 1]; it leaves within [size used_names]
    iterations (lemma [collision_loop_finishes]), so the default is never
    taken. *)
Definition unique_name (used_names : gset string) (obfuscated : string) : string :=
  default obfuscated
    (collision_loop (size used_names) used_names obfuscated obfuscated 1).

(** The body of the [for class_name in sorted(all_classes)] loop on the
    state [(mappings, used_names)]. *)
Definition build_step (method : string) (exclude : gset string)
    (st : list ClassMapping * gset string) (class_name : string)
  : result (list ClassMapping * gset string) :=
  let '(mappings, used_names) := st in
  if bool_decide (class_name = "") || bool_decide (class_name ∈ exclude) then Ok st
  else
    rbind (obfuscate_identifier class_name method) (λ obfuscated,
      let obfuscated := unique_name used_names obfuscated in
      Ok ((mappings ++ [Build_ClassMapping class_name obfuscated])%list,
          {[obfuscated]} ∪ used_names)).

Fixpoint build_loop (method : string) (exclude : gset string)
    (st : list ClassMapping * gset string) (classes : list string)
  : result (list ClassMapping * gset string) :=
  match classes with
  | [] => Ok st
  | class_name :: rest =>
      rbind (build_step method exclude st class_name)
        (λ st', build_loop method exclude st' rest)
  end.

Definition build_class_mapping (all_classes : gset string) (method : string)
    (exclude : gset string) : result (list ClassMapping) :=
  rbind (build_loop method exclude ([], ∅) (sorted_classes all_classes))
    (λ st, Ok (py_sorted by_length_desc (fst st))).


(** ** CSS rewriter *)

(** The part of [re] that [process_css_content] uses: the pattern is
    [\.] followed by [re.escape(original)] and [\b], that is, the literal
    text ["." ++ original] followed by a word boundary. *)
Module Re.

Definition is_word_opt (c : option ascii) : bool :=
  match c with Some c => Py.is_word c | None => false end.

Definition head (s : string) : option ascii :=
  match s with String c _ => Some c | EmptyString => None end.

Fixpoint last (s : string) : option ascii :=
  match s with
  | EmptyString => None
  | String c EmptyString => Some c
  | String _ s' => last s'
  end.

(** [\b] between the character before and the character after a position;
    the ends of the text count as non-word characters. *)
Definition word_boundary (before after : option ascii) : bool :=
  xorb (is_word_opt before) (is_word_opt after).

(** The pattern [re.escape(lit) + "\b"] matches at the start of [s]. *)
Definition match_here (lit s : string) : bool :=
  Py.startswith lit s
  && word_boundary (last lit) (head (Py.drop (String.length lit) s)).

(** The scan of [re.sub] for that pattern, [lit] being non-empty: leftmost
    matches, not overlapping.  [skip] counts the characters of the text still
    covered by the match that was just replaced. *)
Fixpoint sub_scan (lit repl : string) (skip : nat) (s : string) : string :=
  match s with
  | EmptyString => EmptyString
  | String c s' =>
      match skip with
      | S k => sub_scan lit repl k s'
      | O =>
          if match_here lit s
          then repl +:+ sub_scan lit repl (String.length lit - 1) s'
          else String c (sub_scan lit repl 0 s')
      end
  end.

Definition is_octdigit (c : ascii) : bool := Py.between 48 55 (Py.ord c).
Definition is_digit (c : ascii) : bool := Py.between 48 57 (Py.ord c).
Definition digit_val (c : ascii) : Z := Py.ord c - 48.

Definition id_start (c : ascii) : bool := Py.isalpha c || (Py.ord c =? 95).
Definition id_continue (c : ascii) : bool :=
  id_start c || is_digit c || (Py.ord c =? 183).

(** [str.isidentifier] *)
Definition isidentifier (s : string) : bool :=
  match s with
  | EmptyString => false
  | String c s' => id_start c && Py.all_chars id_continue s'
  end.

(** The escapes of one letter that a replacement template knows. *)
Definition simple_escape (c : ascii) : option ascii :=
  if decide (c = "a"%char) then Some (Py.chr 7)
  else if decide (c = "b"%char) then Some (Py.chr 8)
  else if decide (c = "f"%char) then Some (Py.chr 12)
  else if decide (c = "n"%char) then Some (Py.chr 10)
  else if decide (c = "r"%char) then Some (Py.chr 13)
  else if decide (c = "t"%char) then Some (Py.chr 9)
  else if decide (c = "v"%char) then Some (Py.chr 11)
  else if decide (c = "\"%char) then Some c
  else None.

(** The group named in [\g<name>], for a pattern without groups: only
    group 0, the whole match, exists (names are decimal ASCII numbers, as
    from Python 3.12). *)
Definition group_ref (matched name : string) : result string :=
  if decide (name = "") then Raise (ReError "missing group name")
  else if Py.all_chars is_digit name then
    if Py.all_chars (λ c, bool_decide (c = "0"%char)) name then Ok matched
    else Raise (ReError "invalid group reference")
  else if isidentifier name then Raise (IndexError "unknown group name")
  else Raise (ReError "bad character in group name").

Definition cons_ok (c : ascii) (r : result string) : result string :=
  rbind r (λ s, Ok (String c s)).

(** The replacement text that a template stands for ([parse_template] and
    [expand_template]), for a pattern without groups whose match is
    [matched].  [name] is [Some acc] while the characters of a [\g<...>]
    name are read.  Only the kind of a raised error is kept, its message is
    shortened. *)
Fixpoint expand (matched : string) (name : option string) (s : string)
  : result string :=
  match name, s with
  | Some _, EmptyString => Raise (ReError "missing >, unterminated name")
  | Some acc, String c s' =>
      if decide (c = ">"%char) then
        rbind (group_ref matched acc) (λ g,
          rbind (expand matched None s') (λ r, Ok (g +:+ r)))
      else if decide (c = "\"%char) then Raise (ReError "bad group name")
      else expand matched (Some (acc +:+ String c "")) s'
  | None, EmptyString => Ok ""
  | None, String c s' =>
      if decide (c = "\"%char) then
        match s' with
        | EmptyString => Raise (ReError "bad escape (end of pattern)")
        | String d s2 =>
            if decide (d = "g"%char) then
              match s2 with
              | String "<"%char s3 => expand matched (Some "") s3
              | _ => Raise (ReError "missing <")
              end
            else if decide (d = "0"%char) then
              match s2 with
              | String o1 s3 =>
                  if is_octdigit o1 then
                    match s3 with
                    | String o2 s4 =>
                        if is_octdigit o2 then
                          cons_ok (Py.chr (Z.land (8 * digit_val o1 + digit_val o2) 255))
                            (expand matched None s4)
                        else cons_ok (Py.chr (digit_val o1)) (expand matched None s3)
                    | EmptyString => Ok (String (Py.chr (digit_val o1)) "")
                    end
                  else cons_ok (Py.chr 0) (expand matched None s2)
              | EmptyString => Ok (String (Py.chr 0) "")
              end
            else if is_digit d then
              match s2 with
              | String d2 (String d3 s4) =>
                  if is_octdigit d && is_octdigit d2 && is_octdigit d3 then
                    let v := 64 * digit_val d + 8 * digit_val d2 + digit_val d3 in
                    if 255 <? v then Raise (ReError "octal escape value outside of range")
                    else cons_ok (Py.chr v) (expand matched None s4)
                  else Raise (ReError "invalid group reference")
              | _ => Raise (ReError "invalid group reference")
              end
            else
              match simple_escape d with
              | Some e => cons_ok e (expand matched None s2)
              | None =>
                  if Py.is_ascii_letter d then Raise (ReError "bad escape")
                  else cons_ok c (cons_ok d (expand matched None s2))
              end
        end
      else cons_ok c (expand matched None s')
  end.

(** [re.sub(rf"\.{re.escape(original)}\b", repl, content)]: the template
    is parsed before the text is scanned. *)
Definition sub_class (original repl content : string) : result string :=
  let lit := "." +:+ original in
  rbind (expand lit None repl) (λ r, Ok (sub_scan lit r 0 content)).

End Re.

Fixpoint process_css_content (content : string) (mappings : list ClassMapping)
  : result string :=
  match mappings with
  | [] => Ok content
  | mapping :: rest =>
      let replacement := "." +:+ obfuscated mapping in
      rbind (Re.sub_class (original mapping) replacement content)
        (λ content, process_css_content content rest)
  end.


(** ** Paths ([pathlib], POSIX flavour) *)

Module Path.

(** [s.split(sep)] on one separator character. *)
Fixpoint split (sep : ascii) (s : string) : list string :=
  match s with
  | EmptyString => [""]
  | String c s' =>
      if decide (c = sep) then "" :: split sep s'
      else match split sep s' with
           | w :: ws => String c w :: ws
           | [] => [String c ""]
           end
  end.

Record t := Build { root : string; parts : list string }.

(** The root of a path text: ["//"] for exactly two leading slashes, ["/"]
    for one or for three and more, none otherwise. *)
Definition root_of (s : string) : string :=
  match s with
  | String "/" (String "/" (String "/" _)) => "/"
  | String "/" (String "/" _) => "//"
  | String "/" _ => "/"
  | _ => ""
  end.

(** [Path(s)]: empty components and ["."] components are dropped. *)
Definition parse (s : string) : t :=
  Build (root_of s)
    (filter (λ x, x ≠ "" ∧ x ≠ ".") (split "/" s)).

(** [str(path)] *)
Definition to_string (p : t) : string :=
  match root p, parts p with
  | "", [] => "."
  | r, ps => r +:+ Py.join "/" ps
  end.

(** [path.name] *)
Definition name (p : t) : string := List.last (parts p) "".

(** [s.rfind(".")], [None] for -1. *)
Fixpoint rfind_dot (s : string) : option nat :=
  match s with
  | EmptyString => None
  | String c s' =>
      match rfind_dot s' with
      | Some i => Some (S i)
      | None => if decide (c = "."%char) then Some O else None
      end
  end.

(** [path.suffix] and [path.stem] *)
Definition suffix (p : t) : string :=
  let n := name p in
  match rfind_dot n with
  | Some i => if (0 <? i)%nat && (i <? String.length n - 1)%nat
              then Py.drop i n else ""
  | None => ""
  end.

Definition stem (p : t) : string :=
  let n := name p in
  match rfind_dot n with
  | Some i => if (0 <? i)%nat && (i <? String.length n - 1)%nat
              then Py.take i n else n
  | None => n
  end.

(** [path.parent] *)
Definition parent (p : t) : t := Build (root p) (removelast (parts p)).

(** [path / s] *)
Definition joinpath (p : t) (s : string) : t :=
  let q := parse s in
  if decide (root q = "") then Build (root p) (parts p ++ parts q)%list else q.

End Path.

Definition generate_obfuscated_filename (file_path suffix : string) : string :=
  let path := Path.parse file_path in
  Path.to_string
    (Path.joinpath (Path.parent path)
       (Path.stem path +:+ suffix +:+ Path.suffix path)).

(** [s.replace(old, new)] *)
Fixpoint replace_scan (old new : string) (skip : nat) (s : string) : string :=
  match s with
  | EmptyString => EmptyString
  | String c s' =>
      match skip with
      | S k => replace_scan old new k s'
      | O =>
          if Py.startswith old s
          then new +:+ replace_scan old new (String.length old - 1) s'
          else String c (replace_scan old new 0 s')
      end
  end.

Fixpoint intersperse (new s : string) : string :=
  match s with
  | EmptyString => new
  | String c s' => new +:+ String c (intersperse new s')
  end.

Definition str_replace (old new s : string) : string :=
  if decide (old = "") then intersperse new s else replace_scan old new 0 s.

(** ** HTML documents *)

Local Set Warnings "-register-all".

(** The tree that [BeautifulSoup(content, 'lxml')] builds.  The value of an
    attribute is a string, or a list of strings for the attributes of
    several values ([class], [rel], ...).  The attributes of a tag are a
    [dict] whose order is kept: an association list. *)
Inductive attr_value : Type :=
| AStr (s : string)
| AList (l : list string).

Definition attrs := list (string * attr_value).

Inductive node : Type :=
| Tag (name : string) (attributes : attrs) (contents : list node)
| NavigableString (s : string).

(** [tag.get(key)] and [tag[key] = v] *)
Fixpoint attr_get (key : string) (a : attrs) : option attr_value :=
  match a with
  | [] => None
  | (k, v) :: a' => if decide (k = key) then Some v else attr_get key a'
  end.

Fixpoint attr_set (key : string) (v : attr_value) (a : attrs) : attrs :=
  match a with
  | [] => [(key, v)]
  | (k, w) :: a' =>
      if decide (k = key) then (k, v) :: a' else (k, w) :: attr_set key v a'
  end.

(** A position in the tree: the indices of the children to follow. *)
Definition path := list nat.

Fixpoint get_at (p : path) (t : node) : option node :=
  match p with
  | [] => Some t
  | i :: p' =>
      match t with
      | Tag _ _ contents =>
          match contents !! i with
          | Some c => get_at p' c
          | None => None
          end
      | NavigableString _ => None
      end
  end.

Fixpoint update_at (p : path) (f : node → node) (t : node) : node :=
  match p with
  | [] => f t
  | i :: p' =>
      match t with
      | Tag n a contents => Tag n a (alter (update_at p' f) i contents)
      | NavigableString _ => t
      end
  end.

(** The tags among a node and its descendants that satisfy [P], in
    document order. *)
Fixpoint find_from (P : string → attrs → bool) (t : node) : list path :=
  match t with
  | NavigableString _ => []
  | Tag n a contents =>
      (if P n a then [[]] else [])
      ++ (fix go (i : nat) (cs : list node) : list path :=
            match cs with
            | [] => []
            | c :: cs' => map (cons i) (find_from P c) ++ go (S i) cs'
            end) O contents
  end%list.

Fixpoint find_in (P : string → attrs → bool) (i : nat) (cs : list node)
  : list path :=
  match cs with
  | [] => []
  | c :: cs' => (map (cons i) (find_from P c) ++ find_in P (S i) cs')%list
  end.

(** [soup.find_all(...)]: the descendants of the root that match. *)
Definition find_all (P : string → attrs → bool) (soup : node) : list path :=
  match soup with
  | Tag _ _ contents => find_in P O contents
  | NavigableString _ => []
  end.

(** [tag.string]: the text of the only child, looked for through only
    children. *)
Fixpoint tag_string (t : node) : option string :=
  match t with
  | Tag _ _ [c] =>
      match c with
      | NavigableString s => Some s
      | Tag _ _ _ => tag_string c
      end
  | _ => None
  end.

(** [tag.string.replace_with(new)] *)
Fixpoint replace_string (new : string) (t : node) : node :=
  match t with
  | Tag n a [c] =>
      match c with
      | NavigableString _ => Tag n a [NavigableString new]
      | Tag _ _ _ => Tag n a [replace_string new c]
      end
  | _ => t
  end.

(** ** HTML rewriter *)

(** How [find_all] compares an attribute with a wanted text. *)
Definition attr_matches (v : option attr_value) (wanted : string) : bool :=
  match v with
  | None => false
  | Some (AStr s) => bool_decide (s = wanted)
  | Some (AList l) =>
      bool_decide (wanted ∈ l) || bool_decide (Py.join " " l = wanted)
  end.

(** [find_all('link', rel='stylesheet')], [find_all('style')] and
    [find_all(class_=True)] *)
Definition is_stylesheet_link (n : string) (a : attrs) : bool :=
  bool_decide (n = "link") && attr_matches (attr_get "rel" a) "stylesheet".

Definition is_style (n : string) (a : attrs) : bool := bool_decide (n = "style").

Definition has_class (n : string) (a : attrs) : bool :=
  bool_decide (is_Some (attr_get "class" a)).

(** [{m.original: m.obfuscated for m in mappings}] *)
Definition class_dict_of (mappings : list ClassMapping) : gmap string string :=
  fold_left (λ d m, <[original m := obfuscated m]> d) mappings ∅.

Definition css_file_mapping_of (css_files : list string) (output_suffix : string)
  : gmap string string :=
  fold_left
    (λ d css_file,
       let base := Path.name (Path.parse css_file) in
       <[base := Path.stem (Path.parse base) +:+ output_suffix
                   +:+ Path.suffix (Path.parse base)]> d)
    css_files ∅.

(** The body of the loop over the stylesheet links, on the attributes of
    the link. *)
Definition link_attrs (css_file_mapping : gmap string string) (a : attrs)
  : result attrs :=
  match attr_get "href" a with
  | None | Some (AStr "") | Some (AList []) => Ok a
  | Some (AStr href) =>
      let file_name := Path.name (Path.parse href) in
      match css_file_mapping !! file_name with
      | Some new_name =>
          let new_href := str_replace file_name new_name href in
          Ok (attr_set "href" (AStr new_href) a)
      | None => Ok a
      end
  | Some (AList _) =>
      Raise (TypeError "expected str, bytes or os.PathLike object, not list")
  end.

(** A change of the attributes of a tag alone. *)
Definition on_attrs (h : attrs → result attrs) (t : node) : result node :=
  match t with
  | Tag n a contents => rbind (h a) (λ a', Ok (Tag n a' contents))
  | NavigableString _ => Ok t
  end.

Definition update_link (css_file_mapping : gmap string string) : node → result node :=
  on_attrs (link_attrs css_file_mapping).

(** The body of the loop over the [<style>] tags. *)
Definition update_style (mappings : list ClassMapping) (style_tag : node)
  : result node :=
  match tag_string style_tag with
  | Some s =>
      if decide (s = "") then Ok style_tag
      else rbind (process_css_content s mappings)
             (λ new, Ok (replace_string new style_tag))
  | None => Ok style_tag
  end.

(** The body of the loop over the tags with a [class] attribute, on the
    attributes of the tag. *)
Definition class_attrs (class_dict : gmap string string) (a : attrs) : attrs :=
  let classes :=
    match attr_get "class" a with
    | Some (AStr s) => [s]
    | Some (AList l) => l
    | None => []
    end in
  let updated := map (λ cls, default cls (class_dict !! cls)) classes in
  match updated with
  | [] => a
  | _ => attr_set "class" (AList updated) a
  end.

Definition update_class (class_dict : gmap string string) : node → result node :=
  on_attrs (λ a, Ok (class_attrs class_dict a)).

(** A [for tag in soup.find_all(...)] loop that changes the tree in place:
    the positions are found first, then each one is visited in turn. *)
Fixpoint for_each (f : node → result node) (ps : list path) (soup : node)
  : result node :=
  match ps with
  | [] => Ok soup
  | p :: ps' =>
      match get_at p soup with
      | Some t => rbind (f t) (λ t', for_each f ps' (update_at p (λ _, t') soup))
      | None => for_each f ps' soup
      end
  end.

(** The three loops of [process_html_content] on the parsed tree. *)
Definition rewrite_soup (soup : node) (mappings : list ClassMapping)
    (css_files : list string) (output_suffix : string) : result node :=
  let class_dict := class_dict_of mappings in
  let css_file_mapping := css_file_mapping_of css_files output_suffix in
  rbind (for_each (update_link css_file_mapping)
           (find_all is_stylesheet_link soup) soup) (λ soup,
  rbind (for_each (update_style mappings) (find_all is_style soup) soup) (λ soup,
  for_each (update_class class_dict) (find_all has_class soup) soup)).

(** The parser and the serialiser are those of [bs4] with [lxml]; the
    rewriter is stated for any. *)
Section Html.
Variable parse_html : string → node.
Variable soup_to_string : node → string.

Definition process_html_content (content : string)
    (mappings : list ClassMapping) (css_files : list string)
    (output_suffix : string) : result string :=
  rbind (rewrite_soup (parse_html content) mappings css_files output_suffix)
    (λ soup, Ok (soup_to_string soup)).
End Html.


(** ** Class extractor *)

(** What [tinycss2.parse_stylesheet] returns, as far as the extractor looks
    at it: the type of each rule and the type and value of the tokens of
    its prelude. *)
Record css_token := { tok_type : string; tok_value : string }.
Record css_rule := { rule_type : string; prelude : list css_token }.

(** The loop over [enumerate(prelude[1:], 1)]; [prev] is [prelude[i-1]]. *)
Fixpoint classes_after (prev : css_token) (rest : list css_token) : gset string :=
  match rest with
  | [] => ∅
  | token :: rest' =>
      (if bool_decide (tok_type token = "ident")
          && bool_decide (tok_type prev = "literal")
          && bool_decide (tok_value prev = ".")
       then {[tok_value token]} else ∅)
      ∪ classes_after token rest'
  end.

Definition classes_of_rule (rule : css_rule) : gset string :=
  if decide (rule_type rule = "qualified-rule") then
    match prelude rule with
    | [] => ∅
    | first :: rest => classes_after first rest
    end
  else ∅.

Section Extractor.
Variable parse_stylesheet : string → list css_rule.
Variable parse_html : string → node.

Definition extract_classes_from_css (css_content : string) : gset string :=
  ⋃ (map classes_of_rule (parse_stylesheet css_content)).

Definition classes_of_tag (soup : node) (p : path) : gset string :=
  match get_at p soup with
  | Some (Tag _ a _) =>
      match attr_get "class" a with
      | Some (AStr s) => {[s]}
      | Some (AList l) => list_to_set l
      | None => ∅
      end
  | _ => ∅
  end.

Definition classes_of_style (soup : node) (p : path) : gset string :=
  match get_at p soup with
  | Some style_tag =>
      match tag_string style_tag with
      | Some s => if decide (s = "") then ∅ else extract_classes_from_css s
      | None => ∅
      end
  | None => ∅
  end.

Definition extract_classes_from_html (html_content : string) : gset string :=
  let soup := parse_html html_content in
  ⋃ (map (classes_of_tag soup) (find_all has_class soup))
  ∪ ⋃ (map (classes_of_style soup) (find_all is_style soup)).
End Extractor.

(** ** File system and effects *)

Inductive event : Type :=
| Read (file : string)
| Write (file : string)
| Copy (src dst : string).

(** Text files by path, directories, and the log of the operations tried. *)
Record world := World {
  files : gmap string string;
  dirs : gset string;
  log : list event
}.

Record stats := Stats {
  processed_css_files : list (string * string);
  processed_html_files : list (string * string);
  total_classes : nat;
  class_mappings : list ClassMapping;
  errors : list string;
  backups_created : list string
}.

(** A computation that may raise, over a state that survives the raise. *)
Definition M (S A : Type) : Type := S → result A * S.

Definition ret {S A} (a : A) : M S A := λ s, (Ok a, s).
Definition raise {S A} (e : exn) : M S A := λ s, (Raise e, s).
Definition bind {S A B} (m : M S A) (k : A → M S B) : M S B :=
  λ s, match m s with
       | (Ok a, s') => k a s'
       | (Raise e, s') => (Raise e, s')
       end.
Definition try_except {S A} (m : M S A) (handler : exn → M S A) : M S A :=
  λ s, match m s with
       | (Ok a, s') => (Ok a, s')
       | (Raise e, s') => handler e s'
       end.
Definition lift {S A} (r : result A) : M S A := λ s, (r, s).

Notation "'do' x <- m ; k" := (bind m (λ x, k))
  (at level 10, x name, m at level 100, k at level 200).
Notation "'exec' m ; k" := (bind m (λ _, k))
  (at level 10, m at level 100, k at level 200).

(** [for x in l: body], the value [a] being carried from turn to turn. *)
Fixpoint for_loop {S A X} (l : list X) (body : X → A → M S A) (a : A) : M S A :=
  match l with
  | [] => ret a
  | x :: l' => do a' <- body x a; for_loop l' body a'
  end.

Definition state := (world * stats)%type.

Definition log_event (e : event) : M state () :=
  λ '(w, st), (Ok (), (World (files w) (dirs w) (log w ++ [e])%list, st)).

(** [Path(file).read_text(encoding='utf-8')] *)
Definition read_text (file : string) : M state string :=
  exec log_event (Read file);
  λ '(w, st),
    match files w !! file with
    | Some content => (Ok content, (w, st))
    | None =>
        (Raise (OSError ("[Errno 2] No such file or directory: '" +:+ file +:+ "'")),
         (w, st))
    end.

(** [Path(file).write_text(content, encoding='utf-8')]; in this model a
    write fails on a directory only. *)
Definition write_text (file content : string) : M state () :=
  exec log_event (Write file);
  λ '(w, st),
    if decide (file ∈ dirs w)
    then (Raise (OSError ("[Errno 21] Is a directory: '" +:+ file +:+ "'")), (w, st))
    else (Ok (), (World (<[file := content]> (files w)) (dirs w) (log w), st)).

(** [shutil.copy2(src, dst)]: into [dst] when it is a directory. *)
Definition copy2 (src dst : string) : M state () :=
  exec log_event (Copy src dst);
  λ '(w, st),
    match files w !! src with
    | Some content =>
        let target :=
          if decide (dst ∈ dirs w)
          then Path.to_string (Path.joinpath (Path.parse dst)
                                 (Path.name (Path.parse src)))
          else dst in
        (Ok (), (World (<[target := content]> (files w)) (dirs w) (log w), st))
    | None =>
        (Raise (OSError ("[Errno 2] No such file or directory: '" +:+ src +:+ "'")),
         (w, st))
    end.

Definition update_stats (f : stats → stats) : M state () :=
  λ '(w, st), (Ok (), (w, f st)).

Definition add_error (msg : string) : M state () :=
  update_stats (λ st,
    Stats (processed_css_files st) (processed_html_files st) (total_classes st)
      (class_mappings st) (errors st ++ [msg])%list (backups_created st)).

Definition add_backup (b : string) : M state () :=
  update_stats (λ st,
    Stats (processed_css_files st) (processed_html_files st) (total_classes st)
      (class_mappings st) (errors st) (backups_created st ++ [b])%list).

Definition add_processed_css (f o : string) : M state () :=
  update_stats (λ st,
    Stats (processed_css_files st ++ [(f, o)])%list (processed_html_files st)
      (total_classes st) (class_mappings st) (errors st) (backups_created st)).

Definition add_processed_html (f o : string) : M state () :=
  update_stats (λ st,
    Stats (processed_css_files st) (processed_html_files st ++ [(f, o)])%list
      (total_classes st) (class_mappings st) (errors st) (backups_created st)).

Definition set_mappings (ms : list ClassMapping) : M state () :=
  update_stats (λ st,
    Stats (processed_css_files st) (processed_html_files st) (length ms) ms
      (errors st) (backups_created st)).

(** [path.rglob(f"*{ext}")] as text: the files and directories below
    [folder] whose name ends with [ext] ([ext] without glob characters). *)
Definition below (folder : Path.t) (ext : string) (f : string) : bool :=
  let q := Path.parse f in
  bool_decide (Path.root q = Path.root folder)
  && bool_decide (Path.to_string q = f)
  && bool_decide (Path.parts folder `prefix_of` Path.parts q)
  && bool_decide (length (Path.parts folder) < length (Path.parts q))%nat
  && Py.endswith ext (Path.name q).

Definition rglob (w : world) (folder : Path.t) (ext : string) : list string :=
  filter (λ f, below folder ext f) (elements (dom (files w) ∪ dirs w)).

Definition scan_project_files (folder_path : string)
    (extensions : option (list string)) : M state (list string) :=
  let extensions := default [".html"; ".css"] extensions in
  let path := Path.parse folder_path in
  λ '(w, st),
    if decide (Path.to_string path ∈ dirs w) then
      (Ok (py_sorted String.leb
             (flat_map (λ ext, rglob w path ext) extensions)), (w, st))
    else
      (Raise (ValueError ("'" +:+ folder_path +:+ "' is not a valid directory")),
       (w, st)).

(** The module-level [create_backup]. *)
Definition create_backup (file_path : string) : M state (option string) :=
  let backup_path := file_path +:+ ".backup" in
  try_except (exec copy2 file_path backup_path; ret (Some backup_path))
             (λ _, ret None).

(** Calling a [bool] as a function. *)
Definition call_bool {A} (f : bool) (arg : string) : M state A :=
  raise (TypeError "'bool' object is not callable").

Section Orchestrator.
Variable parse_stylesheet : string → list css_rule.
Variable parse_html : string → node.
Variable soup_to_string : node → string.

Definition scan_css (css_file : string) (all_classes : gset string)
  : M state (gset string) :=
  try_except
    (do content <- read_text css_file;
     ret (all_classes ∪ extract_classes_from_css parse_stylesheet content))
    (λ e, exec add_error ("CSS scan error: " +:+ css_file +:+ " - " +:+ exn_str e);
          ret all_classes).

Definition scan_html (html_file : string) (all_classes : gset string)
  : M state (gset string) :=
  try_except
    (do content <- read_text html_file;
     ret (all_classes
          ∪ extract_classes_from_html parse_stylesheet parse_html content))
    (λ e, exec add_error ("HTML scan error: " +:+ html_file +:+ " - " +:+ exn_str e);
          ret all_classes).

(** In the body of [obfuscate_website] the name [create_backup] is the
    [bool] parameter, which hides the function of the module: the call
    [create_backup(css_file)] calls that [bool]. *)
Definition obfuscate_css (mappings : list ClassMapping) (output_suffix : string)
    (create_backup : bool) (css_file : string) (_ : ()) : M state () :=
  try_except
    (exec (if create_backup then
             do backup <- call_bool create_backup css_file;
             match backup with
             | Some b => add_backup b
             | None => ret ()
             end
           else ret ());
     do content <- read_text css_file;
     do obfuscated <- lift (process_css_content content mappings);
     let output := generate_obfuscated_filename css_file output_suffix in
     exec write_text output obfuscated;
     add_processed_css css_file output)
    (λ e, add_error ("CSS process error: " +:+ css_file +:+ " - " +:+ exn_str e)).

Definition obfuscate_html (mappings : list ClassMapping) (css_files : list string)
    (output_suffix : string) (create_backup : bool) (html_file : string) (_ : ())
  : M state () :=
  try_except
    (exec (if create_backup then
             do backup <- call_bool create_backup html_file;
             match backup with
             | Some b => add_backup b
             | None => ret ()
             end
           else ret ());
     do content <- read_text html_file;
     do obfuscated <- lift (process_html_content parse_html soup_to_string
                              content mappings css_files output_suffix);
     let output := generate_obfuscated_filename html_file output_suffix in
     exec write_text output obfuscated;
     add_processed_html html_file output)
    (λ e, add_error ("HTML process error: " +:+ html_file +:+ " - " +:+ exn_str e)).

Definition empty_stats : stats := Stats [] [] 0 [] [] [].

(** The body of the outer [try]. *)
Definition obfuscate_website_body (folder_path output_suffix : string)
    (extensions : option (list string)) (method : string)
    (exclude_classes : list string) (create_backup : bool) : M state () :=
  do all_files <- scan_project_files folder_path extensions;
  let css_files := filter (λ f, Py.endswith ".css" f) all_files in
  let html_files := filter (λ f, Py.endswith ".html" f) all_files in
  do all_classes <- for_loop css_files scan_css ∅;
  do all_classes <- for_loop html_files scan_html all_classes;
  if decide (all_classes = ∅) then ret ()
  else
    let exclude_set : gset string := list_to_set exclude_classes in
    do mappings <- lift (build_class_mapping all_classes method exclude_set);
    exec set_mappings mappings;
    exec for_loop css_files (obfuscate_css mappings output_suffix create_backup) ();
    for_loop html_files
      (obfuscate_html mappings css_files output_suffix create_backup) ().

(** The statistics are returned in both branches; the world is what the
    run left behind. *)
Definition obfuscate_website (folder_path output_suffix : string)
    (extensions : option (list string)) (method : string)
    (exclude_classes : list string) (create_backup : bool) (w : world)
  : result stats * world :=
  let '(r, (w', st)) :=
    try_except
      (obfuscate_website_body folder_path output_suffix extensions method
         exclude_classes create_backup)
      (λ e, add_error (exn_str e))
      (w, empty_stats) in
  (rbind r (λ _, Ok st), w').
End Orchestrator.

(** * Vocabulary of the statements *)

(** The base that the shift method picks for a character. *)
Definition shift_base (c : ascii) : Z := if Py.isupper c then 65 else 97.

Definition not_alpha (c : ascii) : bool := negb (Py.isalpha c).
Definition not_alpha_or_ascii (c : ascii) : bool :=
  negb (Py.isalpha c) || Py.is_ascii_letter c.

(** A name of 26 characters with one letter outside A-Z and a-z. *)
Definition e_acute : ascii := Py.chr 233.
Definition name26 : string := "aaaaaaaaaaaaaaaaaaaaaaaaa" +:+ String e_acute "".

(** The strict code-point order of strings. *)
Definition lex_lt (a b : string) : Prop := String.compare a b = Lt.

(** The names that the loop tries for a raw name: the name itself, then
    the name with the suffixes [_1], [_2], ... *)
Definition candidate (raw : string) (k : nat) : string :=
  match k with
  | O => raw
  | S _ => raw +:+ "_" +:+ Py.str_of_nat k
  end.

Definition valid_method (method : string) : Prop :=
  method = "shift" ∨ method = "hash" ∨ method = "hex".

(** A class name gets a mapping when it is not empty and not excluded. *)
Definition kept (exclude : gset string) (class_name : string) : bool :=
  negb (bool_decide (class_name = "") || bool_decide (class_name ∈ exclude)).

(** How the obfuscated name of a mapping comes from the transform of its
    original, given all the obfuscated names [names] of the result: it is
    the first candidate that the names given before it had left free. *)
Definition disambiguated (method : string) (names : list string)
    (m : ClassMapping) : Prop :=
  ∃ raw j, obfuscate_identifier (original m) method = Ok raw
         ∧ obfuscated m = candidate raw j
         ∧ ∀ i, (i < j)%nat → candidate raw i ∈ names.

(** The state of the loop: the names used are the obfuscated names of the
    mappings, which differ from one another. *)
Definition build_inv (method : string) (st : list ClassMapping * gset string)
  : Prop :=
  snd st = list_to_set (map obfuscated (fst st))
  ∧ NoDup (map obfuscated (fst st))
  ∧ Forall (disambiguated method (map obfuscated (fst st))) (fst st).

(** The order that the list returned has: longer originals first, and
    originals of one length in code-point order. *)
Definition longest_first (a b : ClassMapping) : Prop :=
  (String.length (original b) < String.length (original a))%nat
  ∨ (String.length (original a) = String.length (original b)
     ∧ lex_lt (original a) (original b)).

(** What a position of the tree holds, text aside: nothing, a text, or a
    tag with its name and attributes. *)
Definition own_of (t : node) : option (string * attrs) :=
  match t with
  | Tag n a _ => Some (n, a)
  | NavigableString _ => None
  end.

Definition own_at (q : path) (s : node) : option (option (string * attrs)) :=
  own_of <$> get_at q s.

(** The number of elements (tags) of a tree. *)
Fixpoint count_elements (t : node) : nat :=
  match t with
  | Tag _ _ contents => S (foldr Nat.add O (map count_elements contents))
  | NavigableString _ => O
  end.

(** What the rewriter may do to the attributes [a] of a tag named [n]: the
    keys stay, in their order, and so does each entry but those of the key
    [class] and, on a stylesheet link, of the key [href]. *)
Definition attrs_frame (n : string) (a a' : attrs) : Prop :=
  map fst a' = map fst a
  ∧ ∀ i k v, a !! i = Some (k, v) → k ≠ "class" →
      (k = "href" → is_stylesheet_link n a = false) →
      a' !! i = Some (k, v).

(** The list of tokens of a [class] attribute, and the name that the
    lookup gives a token. *)
Definition class_tokens (v : attr_value) : list string :=
  match v with
  | AStr s => [s]
  | AList l => l
  end.

Definition translate (mappings : list ClassMapping) (cls : string) : string :=
  default cls (class_dict_of mappings !! cls).

(** A replacement without backslash, and attributes whose [href] is a
    string, as the parser gives them. *)
Definition no_backslash (s : string) : bool :=
  Py.all_chars (λ c, negb (bool_decide (c = "\"%char))) s.

Definition href_is_str (a : attrs) : Prop :=
  ∀ l, attr_get "href" a = Some (AList l) → l = [].

Definition hrefs_are_str (soup : node) : Prop :=
  ∀ q n a, own_at q soup = Some (Some (n, a)) → href_is_str a.

(** What a position holds before and after the rewriter. *)
Definition position_frame (o o' : option (option (string * attrs))) : Prop :=
  match o, o' with
  | Some (Some (n, a)), Some (Some (n', a')) => n' = n ∧ attrs_frame n a a'
  | Some None, Some None => True
  | None, None => True
  | _, _ => False
  end.

(** A small document, for the examples. *)
Module Example.

Definition quote : string := String (Py.chr 34) "".

Definition render_value (v : attr_value) : string :=
  match v with
  | AStr s => s
  | AList l => Py.join " " l
  end.

Fixpoint render_attrs (a : attrs) : string :=
  match a with
  | [] => ""
  | (k, v) :: a' =>
      " " +:+ k +:+ "=" +:+ quote +:+ render_value v +:+ quote +:+ render_attrs a'
  end.

(** A plain way to write a tree as text; the root is not written. *)
Fixpoint render (t : node) : string :=
  match t with
  | NavigableString s => s
  | Tag n a contents =>
      let inner := foldr String.append "" (map render contents) in
      if decide (n = "[document]") then inner
      else "<" +:+ n +:+ render_attrs a +:+ ">" +:+ inner +:+ "</" +:+ n +:+ ">"
  end.

Definition page : node :=
  Tag "[document]" []
    [Tag "html" []
       [Tag "head" []
          [Tag "link" [("rel", AList ["stylesheet"]); ("href", AStr "css/style.css")] [];
           Tag "style" [] [NavigableString ".btn{} .box{}"]];
        Tag "body" [("id", AStr "top"); ("class", AList ["btn"; "wide"])]
          [Tag "a" [("href", AStr "style.css"); ("class", AList ["box"])]
             [NavigableString "style.css"]]]].

Definition page_mappings : list ClassMapping :=
  [Build_ClassMapping "box" "era"; Build_ClassMapping "btn" "ewq"].

Definition page_rewritten : node :=
  Tag "[document]" []
    [Tag "html" []
       [Tag "head" []
          [Tag "link" [("rel", AList ["stylesheet"]);
                       ("href", AStr "css/style_obfuscated.css")] [];
           Tag "style" [] [NavigableString ".ewq{} .era{}"]];
        Tag "body" [("id", AStr "top"); ("class", AList ["ewq"; "wide"])]
          [Tag "a" [("href", AStr "style.css"); ("class", AList ["era"])]
             [NavigableString "style.css"]]]].

(** A parser that knows one page. *)
Definition parse_page (content : string) : node := page.

End Example.

Definition is_read (e : event) : Prop := ∃ f, e = Read f.

(** A step that writes nothing and records no file as done: the files and
    directories are as before, the log grows by reads only, and the lists
    of processed files and of backups are as before. *)
Definition quiet (s s' : state) : Prop :=
  files (fst s') = files (fst s)
  ∧ dirs (fst s') = dirs (fst s)
  ∧ (∃ l, log (fst s') = log (fst s) ++ l ∧ Forall is_read l)
  ∧ processed_css_files (snd s') = processed_css_files (snd s)
  ∧ processed_html_files (snd s') = processed_html_files (snd s)
  ∧ backups_created (snd s') = backups_created (snd s).

Definition quiet_m {A} (m : M state A) : Prop := ∀ s, quiet s (snd (m s)).

(** The files that the scan finds, by kind. *)
Definition project_files (w : world) (folder_path : string)
    (extensions : option (list string)) : list string :=
  py_sorted String.leb
    (flat_map (λ ext, rglob w (Path.parse folder_path) ext)
       (default [".html"; ".css"] extensions)).

Definition css_files_of w folder_path extensions : list string :=
  filter (λ f, Py.endswith ".css" f) (project_files w folder_path extensions).

Definition html_files_of w folder_path extensions : list string :=
  filter (λ f, Py.endswith ".html" f) (project_files w folder_path extensions).

Definition unknown_method (method : string) : string :=
  "Unknown obfuscation method: '" +:+ method +:+ "'".

Definition not_a_directory (folder_path : string) : string :=
  "'" +:+ folder_path +:+ "' is not a valid directory".

(** A small project, for the examples. *)
Module ExampleProject.

(** One stylesheet with the class [box] and one page that uses it. *)
Definition w0 : world :=
  World {[ "site/style.css" := ".box{}";
           "site/index.html" := "<div class=box></div>" ]}
        {[ "site" ]} [].

Definition box_rule : css_rule :=
  {| rule_type := "qualified-rule";
     prelude := [ {| tok_type := "literal"; tok_value := "." |};
                  {| tok_type := "ident"; tok_value := "box" |} ] |}.

(** Parsers that know the two files. *)
Definition parse_stylesheet (css_content : string) : list css_rule := [box_rule].

Definition parse_html (html_content : string) : node :=
  Tag "[document]" [] [Tag "div" [("class", AList ["box"])] []].

Definition run (folder_path method : string) (create_backup : bool)
  : result stats * world :=
  obfuscate_website parse_stylesheet parse_html Example.render
    folder_path "_obfuscated" None method [] create_backup w0.

End ExampleProject.

(** ** Vocabulary of the further properties *)

(** The value of a hexadecimal digit, and the bytes that a text of
    hexadecimal digits stands for, two digits a byte ([bytes.fromhex] on a
    text without spaces); [None] where the text is no such thing. *)
Definition unhex_digit (c : ascii) : option Z :=
  let n := Py.ord c in
  if Py.between 48 57 n then Some (n - 48)
  else if Py.between 97 102 n then Some (n - 87)
  else if Py.between 65 70 n then Some (n - 55)
  else None.

Fixpoint unhex (s : string) : option (list byte) :=
  match s with
  | EmptyString => Some []
  | String a (String b t) =>
      match unhex_digit a, unhex_digit b, unhex t with
      | Some x, Some y, Some bs => Some (16 * x + y :: bs)
      | _, _, _ => None
      end
  | String _ EmptyString => None
  end.

(** [bs.decode('utf-8')] on the one-byte and two-byte forms of the code
    points below U+0100; [None] on anything else. *)
Fixpoint decode_utf8 (bs : list byte) : option string :=
  match bs with
  | [] => Some ""
  | b :: rest =>
      if b <? 128 then option_map (String (Py.chr b)) (decode_utf8 rest)
      else
        match rest with
        | b1 :: rest' =>
            if Py.between 194 195 b && Py.between 128 191 b1
            then option_map
                   (String (Py.chr (Z.lor (Z.shiftl (Z.land b 31) 6) (Z.land b1 63))))
                   (decode_utf8 rest')
            else None
        | [] => None
        end
  end.

(** Names in which every alphabetic character is one of A-Z and a-z. *)
Definition ascii_letters_only (s : string) : Prop :=
  Py.all_chars not_alpha_or_ascii s = true.

(** The characters of the names that the hash and hex methods give: digits,
    the letters a-z and the underscore of a suffix. *)
Definition name_char (c : ascii) : bool :=
  Re.is_digit c || Py.is_ascii_lower c || bool_decide (c = "_"%char).

(** The text [lit] occurs somewhere in [s]. *)
Fixpoint occurs_in (lit s : string) : bool :=
  Py.startswith lit s
  || match s with
     | EmptyString => false
     | String _ s' => occurs_in lit s'
     end.

(** A name whose last character is a word character, so that the [\b] of
    the pattern holds at the end of the text. *)
Definition ends_with_word (s : string) : bool := Re.is_word_opt (Re.last s).

(** The name that the HTML rewriter gives the stylesheet [base]:
    [f"{Path(base).stem}{output_suffix}{Path(base).suffix}"]. *)
Definition obfuscated_name (base output_suffix : string) : string :=
  Path.stem (Path.parse base) +:+ output_suffix +:+ Path.suffix (Path.parse base).

(** The new value of an [href] that names [file_name]. *)
Definition new_href (css_files : list string) (output_suffix href : string) : string :=
  let file_name := Path.name (Path.parse href) in
  if bool_decide (href ≠ ""
                  ∧ file_name ∈ map (λ f, Path.name (Path.parse f)) css_files)
  then str_replace file_name (obfuscated_name file_name output_suffix) href
  else href.

(** A text without [/], and a component that [Path] keeps as it is. *)
Definition no_slash (s : string) : bool :=
  Py.all_chars (λ c, negb (bool_decide (c = "/"%char))) s.

Definition plain_component (x : string) : Prop :=
  x ≠ "" ∧ x ≠ "." ∧ no_slash x = true.

(** The paths that [Path(...)] builds. *)
Definition path_wf (p : Path.t) : Prop :=
  (Path.root p = "" ∨ Path.root p = "/" ∨ Path.root p = "//")
  ∧ Forall plain_component (Path.parts p).

(** What a step of the orchestrator may do, given the files [R] it may
    read and the paths [T] it may write: the directories stay, every file
    outside [T] keeps its content, no file disappears, the log grows by
    reads in [R] and writes in [T] only, no backup is recorded, and the
    count of classes stays the length of the list of mappings. *)
Definition allowed (R T : string → Prop) (e : event) : Prop :=
  (∃ f, e = Read f ∧ R f) ∨ (∃ p, e = Write p ∧ T p).

Definition effect (R T : string → Prop) (s s' : state) : Prop :=
  dirs (fst s') = dirs (fst s)
  ∧ (∀ p, ¬ T p → files (fst s') !! p = files (fst s) !! p)
  ∧ (∀ p, is_Some (files (fst s) !! p) → is_Some (files (fst s') !! p))
  ∧ (∃ l, log (fst s') = log (fst s) ++ l ∧ Forall (allowed R T) l)
  ∧ backups_created (snd s') = backups_created (snd s)
  ∧ (total_classes (snd s) = length (class_mappings (snd s)) →
     total_classes (snd s') = length (class_mappings (snd s'))).

Definition effect_m {A} (R T : string → Prop) (m : M state A) : Prop :=
  ∀ s, effect R T s (snd (m s)).

(** The errors that the scan of the files records. *)
Definition scan_error (msg : string) : Prop :=
  ∃ f e, msg = "CSS scan error: " +:+ f +:+ " - " +:+ e
       ∨ msg = "HTML scan error: " +:+ f +:+ " - " +:+ e.

(** What the scan of the files leaves behind: files and directories as
    before, reads in the log, and statistics that differ by scan errors
    only. *)
Definition scanned (s s' : state) : Prop :=
  files (fst s') = files (fst s)
  ∧ dirs (fst s') = dirs (fst s)
  ∧ (∃ l, log (fst s') = log (fst s) ++ l ∧ Forall is_read l)
  ∧ processed_css_files (snd s') = processed_css_files (snd s)
  ∧ processed_html_files (snd s') = processed_html_files (snd s)
  ∧ total_classes (snd s') = total_classes (snd s)
  ∧ class_mappings (snd s') = class_mappings (snd s)
  ∧ backups_created (snd s') = backups_created (snd s)
  ∧ ∃ l, errors (snd s') = errors (snd s) ++ l ∧ Forall scan_error l.

(** The classes of the readable files of a list. *)
Definition found_in (extract : string → gset string) (w : world)
    (l : list string) (c : string) : Prop :=
  ∃ f content, f ∈ l ∧ files w !! f = Some content ∧ c ∈ extract content.

(** The two rewriting loops have one shape; [css] tells which one. *)
Definition processed_of (css : bool) (st : stats) : list (string * string) :=
  if css then processed_css_files st else processed_html_files st.

Definition process_label (css : bool) : string :=
  if css then "CSS process error: " else "HTML process error: ".

(** What the work on the files [l] leaves behind: the mappings, the backups
    and the directories are as before, no file disappears, the log and the
    lists of the statistics only grow; every file of [l] is recorded as
    processed, with its output path, or has a process error; and every
    file newly recorded is a file of [l] whose output path was written and
    exists. *)
Definition loop_outcome (css : bool) (output_suffix : string) (l : list string)
    (s s' : state) : Prop :=
  class_mappings (snd s') = class_mappings (snd s)
  ∧ total_classes (snd s') = total_classes (snd s)
  ∧ backups_created (snd s') = backups_created (snd s)
  ∧ processed_of (negb css) (snd s') = processed_of (negb css) (snd s)
  ∧ dirs (fst s') = dirs (fst s)
  ∧ (∀ p, is_Some (files (fst s) !! p) → is_Some (files (fst s') !! p))
  ∧ (∀ e, e ∈ log (fst s) → e ∈ log (fst s'))
  ∧ (∀ m, m ∈ errors (snd s) → m ∈ errors (snd s'))
  ∧ (∀ x, x ∈ processed_of css (snd s) → x ∈ processed_of css (snd s'))
  ∧ (∀ f, f ∈ l →
       (f, generate_obfuscated_filename f output_suffix) ∈ processed_of css (snd s')
       ∨ ∃ msg, process_label css +:+ f +:+ " - " +:+ msg ∈ errors (snd s'))
  ∧ (∀ x, x ∈ processed_of css (snd s') →
       x ∈ processed_of css (snd s)
       ∨ ∃ f, f ∈ l ∧ x = (f, generate_obfuscated_filename f output_suffix)
            ∧ is_Some (files (fst s') !! generate_obfuscated_filename f output_suffix)
            ∧ Write (generate_obfuscated_filename f output_suffix) ∈ log (fst s')).

(** The state after the work on one file, without backup: [transform] is
    the rewriter of the kind of file, [css] tells the kind. *)
Definition file_step (css : bool) (transform : string → result string)
    (output_suffix f : string) (s : state) : state :=
  let w := fst s in
  let st := snd s in
  let w1 := World (files w) (dirs w) (log w ++ [Read f]) in
  let o := generate_obfuscated_filename f output_suffix in
  let w2 := World (files w) (dirs w) ((log w ++ [Read f]) ++ [Write o]) in
  let failed e w' :=
    snd (add_error (process_label css +:+ f +:+ " - " +:+ exn_str e) (w', st)) in
  match files w !! f with
  | None =>
      failed (OSError ("[Errno 2] No such file or directory: '" +:+ f +:+ "'")) w1
  | Some content =>
      match transform content with
      | Raise e => failed e w1
      | Ok out =>
          if decide (o ∈ dirs w)
          then failed (OSError ("[Errno 21] Is a directory: '" +:+ o +:+ "'")) w2
          else snd ((if css then add_processed_css else add_processed_html) f o
                      (World (<[o := out]> (files w)) (dirs w)
                         ((log w ++ [Read f]) ++ [Write o]), st))
      end
  end.

(** The file [f] is as it was and its output path is no directory; and,
    once [f] has been worked on, its output path holds the rewritten text
    and [f] is recorded. *)
Definition ready (output_suffix f content : string) (s : state) : Prop :=
  files (fst s) !! f = Some content
  ∧ (generate_obfuscated_filename f output_suffix ∉ dirs (fst s)).

Definition written (css : bool) (output_suffix f content out : string)
    (s : state) : Prop :=
  ready output_suffix f content s
  ∧ files (fst s) !! generate_obfuscated_filename f output_suffix = Some out
  ∧ (f, generate_obfuscated_filename f output_suffix) ∈ processed_of css (snd s).

(** Texts, documents whose [style] tags hold texts only (what an HTML
    parser builds: the content of [style] is raw text), and a tree without
    its attributes. *)
Definition is_text (t : node) : Prop := ∃ s, t = NavigableString s.

Definition styles_hold_text (soup : node) : Prop :=
  ∀ q a cs, get_at q soup = Some (Tag "style" a cs) → Forall is_text cs.

Fixpoint erase (t : node) : node :=
  match t with
  | Tag n _ contents => Tag n [] (map erase contents)
  | NavigableString _ => t
  end.

(** The check that the [style] tags of a tree hold texts only. *)
Definition is_text_b (t : node) : bool :=
  match t with
  | NavigableString _ => true
  | Tag _ _ _ => false
  end.

Fixpoint styles_ok (t : node) : bool :=
  match t with
  | NavigableString _ => true
  | Tag n _ contents =>
      (if decide (n = "style") then forallb is_text_b contents else true)
      && forallb styles_ok contents
  end.

(** * Properties *)

(** ** The identifier transform on concrete names *)

Example obfuscate_shift_btn : obfuscate_identifier "btn" "shift" = Ok "ewq".
Proof. reflexivity. Qed.

Example md5_empty : Md5.hexdigest [] = "d41d8cd98f00b204e9800998ecf8427e".
Proof. vm_compute. reflexivity. Qed.

Example obfuscate_hash_btn : obfuscate_identifier "btn" "hash" = Ok "cd4f5c2c9".
Proof. vm_compute. reflexivity. Qed.

Example obfuscate_hex_btn : obfuscate_identifier "btn" "hex" = Ok "c62746e".
Proof. vm_compute. reflexivity. Qed.

Example md5_two_blocks :
  Py.take 8 (Md5.hexdigest (encode_utf8
    "aaaaaaaaaaaaaaaaaaaaaaaaaaaaaaaaaaaaaaaaaaaaaaaaaaaaaaaaaaaaaaaaaaaaaa"))
  = "0f5c6c4e".
Proof. vm_compute. reflexivity. Qed.

Example md5_latin1 :
  obfuscate_identifier (String (Py.chr 233) "") "hash" = Ok "c66ddcd97".
Proof. vm_compute. reflexivity. Qed.

(** ** The library functions on known values *)

Example sub_class_boundary :
  Re.sub_class "x.y" ".Q" ".x.y.x.yz .xay .x.y" = Ok ".Q.x.yz .xay .Q".
Proof. reflexivity. Qed.

Example sub_class_template :
  Re.sub_class "x" "a\g<0>b" ".x .xy" = Ok "a.xb .xy"
  ∧ Re.sub_class "x" "\101" ".x .xy" = Ok "A .xy"
  ∧ Re.sub_class "x" "\-" ".x .xy" = Ok "\- .xy"
  ∧ Re.sub_class "x" "\477" ".x .xy"
    = Raise (ReError "octal escape value outside of range")
  ∧ Re.sub_class "x" "\18" ".x .xy" = Raise (ReError "invalid group reference")
  ∧ Re.sub_class "x" "\q" "" = Raise (ReError "bad escape").
Proof. repeat split; reflexivity. Qed.

Example str_of_nat_values :
  map Py.str_of_nat [0; 7; 12; 305]%nat = ["0"; "7"; "12"; "305"].
Proof. reflexivity. Qed.

Example str_replace_values :
  str_replace "aa" "b" "aaa" = "ba" ∧ str_replace "" "-" "abab" = "-a-b-a-b-".
Proof. split; reflexivity. Qed.

Example path_values :
  map (λ s, Path.to_string (Path.parse s)) ["a/b/style.css"; "dir/"; "a/."; "//a"; "///a"; ""]
  = ["a/b/style.css"; "dir"; "a"; "//a"; "/a"; "."]
  ∧ map (λ s, (Path.name (Path.parse s), Path.stem (Path.parse s), Path.suffix (Path.parse s)))
      ["a/b/style.css"; ".bashrc"; "a."; "a.b.c"]
    = [("style.css", "style", ".css"); (".bashrc", ".bashrc", "");
       ("a.", "a.", ""); ("a.b.c", "a.b", ".c")]
  ∧ generate_obfuscated_filename "site/css/style.css" "_obfuscated"
    = "site/css/style_obfuscated.css"
  ∧ generate_obfuscated_filename "index.html" "_obfuscated" = "index_obfuscated.html".
Proof. repeat split; reflexivity. Qed.

(** ** Characters *)

Lemma ord_range c : 0 ≤ Py.ord c < 256.
Proof.
  unfold Py.ord. pose proof (N_ascii_bounded c). lia.
Qed.

Lemma ord_chr n : 0 ≤ n < 256 → Py.ord (Py.chr n) = n.
Proof.
  intros Hn. unfold Py.ord, Py.chr.
  rewrite N_ascii_embedding by lia. lia.
Qed.

Lemma ord_inj c c' : Py.ord c = Py.ord c' → c = c'.
Proof.
  unfold Py.ord. intros H.
  rewrite <- (ascii_N_embedding c), <- (ascii_N_embedding c').
  f_equal. lia.
Qed.

Lemma between_spec lo hi n : Py.between lo hi n = true ↔ lo ≤ n ≤ hi.
Proof. unfold Py.between. rewrite andb_true_iff, !Z.leb_le. tauto. Qed.

Lemma between_false lo hi n : Py.between lo hi n = false ↔ n < lo ∨ hi < n.
Proof.
  unfold Py.between. rewrite andb_false_iff, !Z.leb_gt. tauto.
Qed.

(** An upper-case character is alphabetic, and an alphabetic character that
    is not upper case has a code point from 97 on. *)
Lemma isupper_isalpha c : Py.isupper c = true → Py.isalpha c = true.
Proof.
  unfold Py.isupper, Py.isalpha.
  rewrite !orb_true_iff, !between_spec, !Z.eqb_eq. lia.
Qed.

Lemma isalpha_lower_bound c :
  Py.isalpha c = true → Py.isupper c = false → 97 ≤ Py.ord c.
Proof.
  unfold Py.isupper, Py.isalpha.
  rewrite !orb_true_iff, !orb_false_iff, !between_spec, !between_false, !Z.eqb_eq.
  lia.
Qed.

Lemma isalpha_upper_bound c : Py.isupper c = true → 65 ≤ Py.ord c.
Proof.
  unfold Py.isupper. rewrite !orb_true_iff, !between_spec. lia.
Qed.

Lemma ascii_upper_isupper c : Py.is_ascii_upper c = true → Py.isupper c = true.
Proof.
  unfold Py.is_ascii_upper, Py.isupper. intros ->. reflexivity.
Qed.

Lemma ascii_lower_isalpha c :
  Py.is_ascii_lower c = true → Py.isalpha c = true ∧ Py.isupper c = false.
Proof.
  unfold Py.is_ascii_lower, Py.isalpha, Py.isupper.
  rewrite !orb_true_iff, !orb_false_iff, !between_spec, !between_false, !Z.eqb_eq.
  lia.
Qed.

Lemma shift_char_not_alpha k c : Py.isalpha c = false → shift_char k c = c.
Proof. unfold shift_char. intros ->. reflexivity. Qed.

Lemma shift_char_alpha k c :
  Py.isalpha c = true →
  Py.ord (shift_char k c) = shift_base c + (Py.ord c - shift_base c + k) mod 26.
Proof.
  intros Ha. unfold shift_char, shift_base. rewrite Ha.
  change (Py.ord "A") with 65. change (Py.ord "a") with 97.
  destruct (Py.isupper c);
    (rewrite ord_chr; [reflexivity |]);
    match goal with |- context [?x mod 26] =>
      pose proof (Z.mod_pos_bound x 26 ltac:(lia)) end; lia.
Qed.

Lemma shift_char_case k c :
  Py.isalpha c = true →
  if Py.isupper c then Py.is_ascii_upper (shift_char k c) = true
  else Py.is_ascii_lower (shift_char k c) = true.
Proof.
  intros Ha. pose proof (shift_char_alpha k c Ha) as Ho.
  unfold shift_base in Ho.
  unfold Py.is_ascii_upper, Py.is_ascii_lower.
  destruct (Py.isupper c); rewrite between_spec, Ho;
    match goal with |- context [?x mod 26] =>
      pose proof (Z.mod_pos_bound x 26 ltac:(lia)) end; lia.
Qed.

(** A character is left as it is exactly when it is not alphabetic, or it
    is an ASCII letter and the shift is a multiple of 26. *)
Lemma shift_char_fixed k c :
  shift_char k c = c ↔
  Py.isalpha c = false ∨ (Py.is_ascii_letter c = true ∧ k mod 26 = 0).
Proof.
  destruct (Py.isalpha c) eqn:Ha.
  - pose proof (shift_char_alpha k c Ha) as Ho.
    pose proof (Z.mod_pos_bound (Py.ord c - shift_base c + k) 26 ltac:(lia)) as Hb.
    split.
    + intros Hfix. right. rewrite Hfix in Ho.
      assert (0 ≤ Py.ord c - shift_base c < 26) as Hr by lia.
      split.
      * unfold Py.is_ascii_letter, Py.is_ascii_upper, Py.is_ascii_lower.
        rewrite orb_true_iff, !between_spec.
        unfold shift_base in Hr. destruct (Py.isupper c); lia.
      * assert ((Py.ord c - shift_base c + k) mod 26 = Py.ord c - shift_base c)
          as Hm by lia.
        rewrite Z.add_mod in Hm by lia.
        rewrite (Z.mod_small (Py.ord c - shift_base c)) in Hm by lia.
        pose proof (Z.mod_pos_bound k 26 ltac:(lia)) as Hk.
        destruct (decide (k mod 26 = 0)) as [|Hne]; [assumption|].
        exfalso.
        destruct (decide (Py.ord c - shift_base c + k mod 26 < 26)).
        -- rewrite Z.mod_small in Hm by lia. lia.
        -- replace (Py.ord c - shift_base c + k mod 26)
             with ((Py.ord c - shift_base c + k mod 26 - 26) + 1 * 26) in Hm by lia.
           rewrite Z.mod_add in Hm by lia.
           rewrite Z.mod_small in Hm by lia. lia.
    + intros [Hf | [Hl Hk]]; [discriminate|].
      apply ord_inj. rewrite Ho.
      assert (0 ≤ Py.ord c - shift_base c < 26) as Hr.
      { unfold Py.is_ascii_letter in Hl. apply orb_true_iff in Hl as [Hu | Hlo].
        - unfold shift_base. rewrite (ascii_upper_isupper _ Hu).
          apply between_spec in Hu. lia.
        - unfold shift_base. destruct (ascii_lower_isalpha _ Hlo) as [_ ->].
          apply between_spec in Hlo. lia. }
      rewrite Z.add_mod, Hk, Z.add_0_r, Z.mod_mod by lia.
      rewrite Z.mod_small by lia. lia.
  - rewrite shift_char_not_alpha by assumption. tauto.
Qed.

(** ** Strings *)

Lemma length_str_map f s : String.length (Py.str_map f s) = String.length s.
Proof. induction s as [|c s IH]; simpl; congruence. Qed.

Lemma get_str_map f i s :
  String.get i (Py.str_map f s) = option_map f (String.get i s).
Proof.
  revert i. induction s as [|c s IH]; intros [|i]; simpl; auto.
Qed.

Lemma str_map_fixed f s :
  Py.str_map f s = s ↔ Py.all_chars (λ c, bool_decide (f c = c)) s = true.
Proof.
  induction s as [|c s IH]; simpl; [tauto|].
  rewrite andb_true_iff, bool_decide_eq_true, <- IH.
  split; [intros [= -> ->]; auto | intros [-> ->]; reflexivity].
Qed.

Lemma all_chars_spec P s :
  Py.all_chars P s = true ↔ ∀ i c, String.get i s = Some c → P c = true.
Proof.
  induction s as [|c s IH]; simpl.
  - split; [intros _ i c; destruct i; discriminate | reflexivity].
  - rewrite andb_true_iff, IH. split.
    + intros [Hc Hs] [|i] c'; simpl; [intros [= <-]; assumption | apply Hs].
    + intros H. split; [apply (H O); reflexivity | intros i; apply (H (S i))].
Qed.

Lemma length_take n s :
  (n ≤ String.length s)%nat → String.length (Py.take n s) = n.
Proof.
  revert s. induction n as [|n IH]; intros [|c s]; simpl; intros H; try lia.
  rewrite IH; lia.
Qed.

Lemma length_bytes_hex bs : String.length (bytes_hex bs) = (2 * length bs)%nat.
Proof. induction bs as [|b bs IH]; simpl; lia. Qed.

Lemma length_digest msg : length (Md5.digest msg) = 16%nat.
Proof. reflexivity. Qed.

Lemma length_hexdigest msg : String.length (Md5.hexdigest msg) = 32%nat.
Proof. unfold Md5.hexdigest. rewrite length_bytes_hex, length_digest. reflexivity. Qed.

(** ** C8: the shift method *)

(** C8.  For every identifier the shift method returns a name of the same
    length; a character that is not alphabetic is left as it is; an
    alphabetic character becomes the letter [base + (ord - base + len) mod
    26], [base] being ['A'] for an upper-case character and ['a'] otherwise,
    so that upper case stays upper case and lower case stays lower case; on
    the letters A-Z and a-z this is the rotation of the alphabet by the
    length of the identifier.  The empty identifier is returned as it is and
    ["btn"] becomes ["ewq"]. *)
Theorem obfuscate_identifier_shift (identifier : string) :
  ∃ r, obfuscate_identifier identifier "shift" = Ok r
    ∧ String.length r = String.length identifier
    ∧ (identifier = "" → r = "")
    ∧ (∀ i c, String.get i identifier = Some c →
         ∃ c', String.get i r = Some c'
           ∧ (Py.isalpha c = false → c' = c)
           ∧ (Py.isalpha c = true →
                Py.ord c' = shift_base c
                            + (Py.ord c - shift_base c + Py.len identifier) mod 26
                ∧ (Py.isupper c = true → Py.is_ascii_upper c' = true)
                ∧ (Py.isupper c = false → Py.is_ascii_lower c' = true))
           ∧ (Py.is_ascii_upper c = true →
                Py.is_ascii_upper c' = true
                ∧ Py.ord c' - 65 = (Py.ord c - 65 + Py.len identifier) mod 26)
           ∧ (Py.is_ascii_lower c = true →
                Py.is_ascii_lower c' = true
                ∧ Py.ord c' - 97 = (Py.ord c - 97 + Py.len identifier) mod 26))
    ∧ obfuscate_identifier "btn" "shift" = Ok "ewq".
Proof.
  exists (Py.str_map (shift_char (Py.len identifier)) identifier).
  split; [|split; [|split; [|split]]].
  - unfold obfuscate_identifier. destruct (decide (identifier = "")) as [->|]; reflexivity.
  - apply length_str_map.
  - intros ->. reflexivity.
  - intros i c Hc. exists (shift_char (Py.len identifier) c).
    split; [rewrite get_str_map, Hc; reflexivity|].
    split; [apply shift_char_not_alpha|].
    split; [|split].
    + intros Ha. split; [apply shift_char_alpha; assumption|].
      pose proof (shift_char_case (Py.len identifier) c Ha) as Hcase.
      split; intros Hu; rewrite Hu in Hcase; assumption.
    + intros Hu. pose proof (ascii_upper_isupper _ Hu) as Hup.
      pose proof (isupper_isalpha _ Hup) as Ha.
      pose proof (shift_char_case (Py.len identifier) c Ha) as Hcase.
      rewrite Hup in Hcase. split; [assumption|].
      rewrite (shift_char_alpha _ _ Ha). unfold shift_base. rewrite Hup. lia.
    + intros Hl. destruct (ascii_lower_isalpha _ Hl) as [Ha Hup].
      pose proof (shift_char_case (Py.len identifier) c Ha) as Hcase.
      rewrite Hup in Hcase. split; [assumption|].
      rewrite (shift_char_alpha _ _ Ha). unfold shift_base. rewrite Hup. lia.
  - reflexivity.
Qed.

(** ** C9: the hash method *)

(** C9.  For every non-empty identifier the hash method returns the letter
    ["c"] followed by eight characters, nine in all, whatever the length of
    the identifier; the result is a function of the identifier alone: it is
    the letter and the first eight characters of the MD5 digest of its
    UTF-8 bytes, in hexadecimal. *)
Theorem obfuscate_identifier_hash (s : string) :
  s ≠ "" →
  ∃ h, obfuscate_identifier s "hash" = Ok (String "c" h)
    ∧ h = Py.take 8 (Md5.hexdigest (encode_utf8 s))
    ∧ String.length h = 8%nat
    ∧ String.length (String "c" h) = 9%nat
    ∧ Py.is_ascii_letter "c" = true.
Proof.
  intros Hs. exists (Py.take 8 (Md5.hexdigest (encode_utf8 s))).
  assert (String.length (Py.take 8 (Md5.hexdigest (encode_utf8 s))) = 8%nat) as Hl.
  { apply length_take. rewrite length_hexdigest. lia. }
  split; [|split; [reflexivity|split; [assumption|split; [|reflexivity]]]].
  2: { generalize dependent (Py.take 8 (Md5.hexdigest (encode_utf8 s))).
       intros h Hh. simpl. rewrite Hh. reflexivity. }
  unfold obfuscate_identifier.
  destruct (decide (s = "")) as [|_]; [contradiction|].
  reflexivity.
Qed.

Lemma obfuscate_identifier_hash_witness :
  "btn" ≠ "" ∧
  ∃ h, obfuscate_identifier "btn" "hash" = Ok (String "c" h)
    ∧ h = Py.take 8 (Md5.hexdigest (encode_utf8 "btn"))
    ∧ String.length h = 8%nat
    ∧ String.length (String "c" h) = 9%nat
    ∧ Py.is_ascii_letter "c" = true.
Proof.
  split; [discriminate | apply (obfuscate_identifier_hash "btn"); discriminate].
Defined.

(** ** C10: names that the shift method leaves as they are *)

Lemma shift_fixed_chars k s :
  Py.str_map (shift_char k) s = s ↔
  Py.all_chars not_alpha s = true
  ∨ (k mod 26 = 0 ∧ Py.all_chars not_alpha_or_ascii s = true).
Proof.
  rewrite str_map_fixed, !all_chars_spec. split.
  - intros H.
    destruct (decide (k mod 26 = 0)) as [Hk|Hk].
    + right. split; [assumption|]. intros i c Hc.
      specialize (H i c Hc). apply bool_decide_eq_true in H.
      apply shift_char_fixed in H as [Ha | [Hl _]];
        unfold not_alpha_or_ascii; [rewrite Ha | rewrite Hl, orb_true_r]; reflexivity.
    + left. intros i c Hc.
      specialize (H i c Hc). apply bool_decide_eq_true in H.
      apply shift_char_fixed in H as [Ha | [_ Hz]]; [|contradiction].
      unfold not_alpha. rewrite Ha. reflexivity.
  - intros [H | [Hk H]] i c Hc; specialize (H i c Hc);
      apply bool_decide_eq_true, shift_char_fixed.
    + left. unfold not_alpha in H. destruct (Py.isalpha c); [discriminate|reflexivity].
    + unfold not_alpha_or_ascii in H. apply orb_true_iff in H as [H | H].
      * left. destruct (Py.isalpha c); [discriminate|reflexivity].
      * right. split; assumption.
Qed.

(** The length of [name26] is a multiple of 26, yet the shift method
    changes the name. *)
Lemma shift_multiple_of_26_changed :
  Py.len name26 mod 26 = 0
  ∧ obfuscate_identifier name26 "shift" = Ok "aaaaaaaaaaaaaaaaaaaaaaaaag"
  ∧ ¬ (obfuscate_identifier name26 "shift" = Ok name26
       ↔ Py.all_chars not_alpha name26 = true ∨ Py.len name26 mod 26 = 0).
Proof.
  split; [reflexivity|]. split; [reflexivity|].
  intros [_ H]. specialize (H (or_intror eq_refl)). discriminate H.
Qed.

(** C10, amended.  The shift method returns an identifier as it is exactly
    when the identifier has no alphabetic character, or its length is a
    multiple of 26 and each of its alphabetic characters is one of the
    letters A-Z and a-z; such identifiers exist that are not empty, and
    [build_class_mapping] with the shift method then gives a mapping whose
    obfuscated name is its original. *)
Theorem shift_identity_iff (s : string) :
  (obfuscate_identifier s "shift" = Ok s ↔
     Py.all_chars not_alpha s = true
     ∨ (Py.len s mod 26 = 0 ∧ Py.all_chars not_alpha_or_ascii s = true))
  ∧ (∃ s', s' ≠ "" ∧ obfuscate_identifier s' "shift" = Ok s')
  ∧ (∃ all_classes m,
       build_class_mapping all_classes "shift" ∅ = Ok [m]
       ∧ original m ≠ "" ∧ obfuscated m = original m).
Proof.
  split; [|split].
  - unfold obfuscate_identifier.
    destruct (decide (s = "")) as [->|Hs].
    + split; [intros _; left; reflexivity | reflexivity].
    + simpl. rewrite <- shift_fixed_chars. split; [intros [= H]; assumption | intros ->; reflexivity].
  - exists "abcdefghijklmnopqrstuvwxyz". split; [discriminate | reflexivity].
  - exists {["_42"]}, (Build_ClassMapping "_42" "_42").
    split; [vm_compute; reflexivity | split; [discriminate | reflexivity]].
Qed.

(** ** Sorting *)

Section SortingFacts.
Context {A : Type} (le : A → A → bool).

Lemma insert_sorted_perm x l : insert_sorted le x l ≡ₚ x :: l.
Proof.
  induction l as [|y l IH]; simpl; [reflexivity|].
  destruct (le x y); [reflexivity|].
  rewrite IH. apply Permutation_swap.
Qed.

Lemma py_sorted_perm l : py_sorted le l ≡ₚ l.
Proof.
  induction l as [|x l IH]; simpl; [reflexivity|].
  rewrite insert_sorted_perm, IH. reflexivity.
Qed.

Lemma elem_of_py_sorted x l : x ∈ py_sorted le l ↔ x ∈ l.
Proof. rewrite py_sorted_perm. reflexivity. Qed.

Context (R : A → A → Prop) `{!Transitive R}.

Lemma insert_sorted_StronglySorted x l :
  (∀ y, y ∈ l → le x y = true → R x y) →
  (∀ y, y ∈ l → le x y = false → R y x) →
  StronglySorted R l → StronglySorted R (insert_sorted le x l).
Proof.
  intros Hbefore Hafter Hl.
  induction Hl as [|y l Hl IH Hy]; simpl.
  - repeat constructor.
  - destruct (le x y) eqn:Hxy.
    + assert (R x y) as Rxy by (apply Hbefore; [left | assumption]).
      constructor; [constructor; assumption|].
      constructor; [assumption|].
      eapply Forall_impl; [exact Hy|]. intros z Hz. etrans; eassumption.
    + constructor.
      * apply IH; intros z Hz; [apply Hbefore | apply Hafter]; right; assumption.
      * rewrite insert_sorted_perm. constructor; [|assumption].
        apply Hafter; [left | assumption].
Qed.

(** The sort is stable: when [pre] orders the list given, an element put
    before another one either had to be, or was before it already. *)
Lemma py_sorted_StronglySorted (pre : A → A → Prop) l :
  (∀ x y, pre x y → le x y = true → R x y) →
  (∀ x y, le x y = false → R y x) →
  StronglySorted pre l → StronglySorted R (py_sorted le l).
Proof.
  intros Hpre Hnot Hl.
  induction Hl as [|x l Hl IH Hx]; simpl; [constructor|].
  apply insert_sorted_StronglySorted; [| |assumption].
  - intros y Hy. rewrite elem_of_py_sorted in Hy.
    rewrite Forall_forall in Hx. intros Hle. apply Hpre; [apply Hx|]; assumption.
  - intros y _. apply Hnot.
Qed.
End SortingFacts.

Lemma NoDup_StronglySorted_ne {A} (l : list A) :
  NoDup l → StronglySorted (≠) l.
Proof.
  induction 1 as [|x l Hx _ IH]; constructor; [assumption|].
  apply Forall_forall. intros y Hy ->. contradiction.
Qed.

Lemma lex_lt_iff a b : lex_lt a b ↔ (a ≤ b)%string ∧ a ≠ b.
Proof.
  unfold lex_lt, String.le, String.leb.
  destruct (String.compare a b) eqn:E; simpl.
  - split; [discriminate|]. intros [_ H]. exfalso.
    apply H, String.compare_eq_iff, E.
  - split; [|reflexivity]. intros _. split; [exact I|].
    intros ->. pose proof (String.compare_antisym b b) as Ha.
    rewrite E in Ha. discriminate.
  - split; [discriminate|]. intros [[] _].
Qed.

#[local] Instance lex_lt_trans : Transitive lex_lt.
Proof.
  intros a b c. rewrite !lex_lt_iff. intros [Hab Nab] [Hbc Nbc].
  split; [etrans; eassumption|].
  intros ->. apply Nab. apply (anti_symm String.le); assumption.
Qed.

Lemma leb_false_lex_lt a b : String.leb a b = false → lex_lt b a.
Proof.
  intros H. apply lex_lt_iff.
  destruct (String.leb_total a b) as [E|E]; [congruence|].
  split; [unfold String.le; rewrite E; exact I|].
  intros ->. unfold String.leb in H, E. destruct (String.compare a a); discriminate.
Qed.

Lemma sorted_classes_sorted (all_classes : gset string) :
  StronglySorted lex_lt (sorted_classes all_classes).
Proof.
  unfold sorted_classes.
  apply py_sorted_StronglySorted with (pre := (≠)).
  - apply _.
  - intros x y Hne Hle. apply lex_lt_iff. split; [|assumption].
    unfold String.le. rewrite Hle. exact I.
  - intros x y. apply leb_false_lex_lt.
  - apply NoDup_StronglySorted_ne, NoDup_elements.
Qed.

Lemma elem_of_sorted_classes (all_classes : gset string) x :
  x ∈ sorted_classes all_classes ↔ x ∈ all_classes.
Proof.
  unfold sorted_classes. rewrite elem_of_py_sorted, elem_of_elements. reflexivity.
Qed.

(** ** The collision loop *)

Lemma str_length_app (a b : string) :
  String.length (a +:+ b) = (String.length a + String.length b)%nat.
Proof.
  induction a as [|c a IH]; [reflexivity|].
  change (S (String.length (a +:+ b)) = S (String.length a + String.length b)).
  congruence.
Qed.

#[local] Instance candidate_inj raw : Inj (=) (=) (candidate raw).
Proof.
  intros [|i] [|j] H; simpl in H.
  - reflexivity.
  - apply (f_equal String.length) in H. rewrite !str_length_app in H. simpl in H. lia.
  - apply (f_equal String.length) in H. rewrite !str_length_app in H. simpl in H. lia.
  - apply (inj (String.app raw)) in H. apply (inj (String.app "_")) in H.
    unfold Py.str_of_nat in H. apply (inj pretty) in H. assumption.
Qed.

(** No more than [size used] different names lie in [used]. *)
Lemma candidates_bound (used : gset string) raw k :
  (∀ i, (i < k)%nat → candidate raw i ∈ used) → (k ≤ size used)%nat.
Proof.
  intros H.
  assert (list_to_set (candidate raw <$> seq 0 k) ⊆ used) as Hsub.
  { intros x Hx. apply elem_of_list_to_set, list_elem_of_fmap in Hx as (i & -> & Hi).
    apply elem_of_seq in Hi. apply H. lia. }
  apply subseteq_size in Hsub.
  rewrite size_list_to_set in Hsub
    by (apply NoDup_fmap_2; [apply _ | apply NoDup_seq]).
  rewrite length_fmap, length_seq in Hsub. exact Hsub.
Qed.

Lemma collision_loop_result fuel used raw k r :
  collision_loop fuel used raw (candidate raw k) (S k) = Some r →
  ∃ j, (k ≤ j)%nat ∧ r = candidate raw j ∧ (r ∉ used)
       ∧ ∀ i, (k ≤ i < j)%nat → candidate raw i ∈ used.
Proof.
  revert k. induction fuel as [|fuel IH]; intros k; simpl;
    destruct (decide (candidate raw k ∈ used)) as [Hin|Hout]; try discriminate.
  - intros [= <-]. exists k. repeat split; [lia | assumption | intros; lia].
  - intros H. apply (IH (S k)) in H as (j & Hj & -> & Hr & Hbefore).
    exists j. repeat split; [lia | assumption |].
    intros i Hi. destruct (decide (i = k)) as [->|]; [assumption | apply Hbefore; lia].
  - intros [= <-]. exists k. repeat split; [lia | assumption | intros; lia].
Qed.

(** The loop leaves before its fuel is used up. *)
Lemma collision_loop_finishes fuel used raw k :
  (∀ i, (i < k)%nat → candidate raw i ∈ used) →
  (size used ≤ fuel + k)%nat →
  is_Some (collision_loop fuel used raw (candidate raw k) (S k)).
Proof.
  revert k. induction fuel as [|fuel IH]; intros k Hbefore Hfuel; simpl;
    destruct (decide (candidate raw k ∈ used)) as [Hin|Hout]; eauto.
  - exfalso.
    assert (S k ≤ size used)%nat; [|lia].
    apply (candidates_bound used raw). intros i Hi.
    destruct (decide (i = k)) as [->|]; [assumption | apply Hbefore; lia].
  - apply (IH (S k)); [|lia]. intros i Hi.
    destruct (decide (i = k)) as [->|]; [assumption | apply Hbefore; lia].
Qed.

(** The name chosen is new, it is the first candidate that is, and all the
    candidates before it are taken. *)
Lemma unique_name_spec used raw :
  ∃ j, collision_loop (size used) used raw raw 1 = Some (unique_name used raw)
     ∧ unique_name used raw = candidate raw j
     ∧ (unique_name used raw ∉ used)
     ∧ ∀ i, (i < j)%nat → candidate raw i ∈ used.
Proof.
  destruct (collision_loop_finishes (size used) used raw 0) as [r Hr];
    [intros; lia | lia |].
  simpl in Hr.
  pose proof (collision_loop_result _ _ _ 0 _ Hr) as (j & _ & Hj & Hnew & Hbefore).
  unfold unique_name. rewrite Hr. simpl.
  exists j. repeat split; try assumption. intros i Hi. apply Hbefore. lia.
Qed.

(** ** The mapping builder *)

Lemma obfuscate_identifier_valid s method :
  valid_method method → ∃ r, obfuscate_identifier s method = Ok r.
Proof.
  unfold obfuscate_identifier. intros [-> | [-> | ->]];
    destruct (decide (s = "")); simpl; eauto.
Qed.

Lemma obfuscate_identifier_invalid s method :
  ¬ valid_method method → s ≠ "" →
  obfuscate_identifier s method
  = Raise (ValueError ("Unknown obfuscation method: '" +:+ method +:+ "'")).
Proof.
  unfold valid_method, obfuscate_identifier. intros Hm Hs.
  destruct (decide (s = "")); [contradiction|].
  repeat (destruct (decide _) as [->|]; [exfalso; tauto|]).
  reflexivity.
Qed.

Lemma disambiguated_mono method names names' m :
  (∀ x, x ∈ names → x ∈ names') →
  disambiguated method names m → disambiguated method names' m.
Proof.
  intros Hsub (raw & j & Hraw & Hj & Hbefore).
  exists raw, j. repeat split; auto.
Qed.

Lemma build_step_kept method exclude ms used class_name raw :
  kept exclude class_name = true →
  obfuscate_identifier class_name method = Ok raw →
  build_step method exclude (ms, used) class_name
  = Ok ((ms ++ [Build_ClassMapping class_name (unique_name used raw)])%list,
        {[unique_name used raw]} ∪ used).
Proof.
  unfold kept, build_step. intros Hk Hraw.
  apply negb_true_iff in Hk. rewrite Hk, Hraw. reflexivity.
Qed.

Lemma build_step_skipped method exclude st class_name :
  kept exclude class_name = false →
  build_step method exclude st class_name = Ok st.
Proof.
  unfold kept, build_step. intros Hk. destruct st as [ms used].
  apply negb_false_iff in Hk. rewrite Hk. reflexivity.
Qed.

Lemma build_loop_valid method exclude classes st :
  valid_method method →
  build_inv method st →
  ∃ st', build_loop method exclude st classes = Ok st'
       ∧ build_inv method st'
       ∧ map original (fst st')
         = (map original (fst st) ++ filter (λ c, kept exclude c = true) classes)%list.
Proof.
  intros Hm. revert st. induction classes as [|c classes IH]; intros st Hinv; simpl.
  - exists st. rewrite app_nil_r. auto.
  - destruct (kept exclude c) eqn:Hk.
    + destruct (obfuscate_identifier_valid c method Hm) as [raw Hraw].
      destruct st as [ms used].
      rewrite (build_step_kept _ _ _ _ _ _ Hk Hraw). simpl.
      destruct Hinv as (Hused & Hnd & Hdis). simpl in *.
      destruct (unique_name_spec used raw) as (j & _ & Hj & Hnew & Hbefore).
      edestruct IH as (st' & Hloop & Hinv' & Horig); [|exists st'; split; [exact Hloop|split; [exact Hinv'|]]].
      * repeat split; simpl.
        -- rewrite map_app, list_to_set_app_L. simpl. subst used.
           rewrite (right_id_L ∅ (∪)). apply (comm_L (∪)).
        -- rewrite map_app. simpl. apply NoDup_app. split; [assumption|].
           split; [|apply NoDup_singleton].
           intros x Hx Hx'. apply list_elem_of_singleton in Hx'. subst x.
           apply Hnew. subst used. apply elem_of_list_to_set. assumption.
        -- rewrite map_app. apply Forall_app. split.
           ++ eapply Forall_impl; [exact Hdis|]. intros m.
              apply disambiguated_mono. intros x Hx. apply elem_of_app. left. assumption.
           ++ constructor; [|constructor]. exists raw, j. simpl.
              repeat split; try assumption. intros i Hi.
              apply elem_of_app. left.
              specialize (Hbefore i Hi). subst used.
              apply elem_of_list_to_set in Hbefore. assumption.
      * rewrite Horig. simpl. rewrite map_app. simpl.
        rewrite filter_cons_True by assumption. rewrite <- app_assoc. reflexivity.
    + rewrite (build_step_skipped _ _ _ _ Hk). simpl.
      destruct (IH st Hinv) as (st' & Hloop & Hinv' & Horig).
      exists st'. split; [assumption|]. split; [assumption|].
      rewrite Horig. rewrite filter_cons_False by (rewrite Hk; discriminate).
      reflexivity.
Qed.

Lemma build_loop_originals method exclude classes st st' :
  build_loop method exclude st classes = Ok st' →
  map original (fst st')
  = (map original (fst st) ++ filter (λ c, kept exclude c = true) classes)%list.
Proof.
  revert st. induction classes as [|c classes IH]; intros st; simpl.
  - intros [= <-]. rewrite app_nil_r. reflexivity.
  - destruct (kept exclude c) eqn:Hk.
    + destruct st as [ms used].
      destruct (obfuscate_identifier c method) as [raw|e] eqn:Hraw.
      * rewrite (build_step_kept _ _ _ _ _ _ Hk Hraw). simpl.
        intros H. apply IH in H. rewrite H. simpl.
        rewrite map_app. simpl.
        rewrite filter_cons_True by assumption. rewrite <- app_assoc. reflexivity.
      * unfold build_step, kept in *. apply negb_true_iff in Hk.
        rewrite Hk, Hraw. discriminate.
    + rewrite (build_step_skipped _ _ _ _ Hk). simpl.
      intros H. apply IH in H. rewrite H.
      rewrite filter_cons_False by (rewrite Hk; discriminate). reflexivity.
Qed.

Lemma StronglySorted_filter {A} (R : A → A → Prop) (P : A → Prop)
    `{!∀ x, Decision (P x)} l :
  StronglySorted R l → StronglySorted R (filter P l).
Proof.
  induction 1 as [|x l Hl IH Hx]; [constructor|].
  destruct (decide (P x)).
  - rewrite filter_cons_True by assumption. constructor; [assumption|].
    apply Forall_forall. intros y Hy. apply list_elem_of_filter in Hy as [_ Hy].
    rewrite Forall_forall in Hx. auto.
  - rewrite filter_cons_False by assumption. assumption.
Qed.

Lemma StronglySorted_of_map {A B} (f : A → B) (R : B → B → Prop) l :
  StronglySorted R (map f l) → StronglySorted (λ a b, R (f a) (f b)) l.
Proof.
  induction l as [|x l IH]; simpl; [constructor|].
  intros H. apply StronglySorted_inv in H as [Hl Hx].
  constructor; [auto|].
  apply Forall_forall. intros y Hy. rewrite Forall_forall in Hx.
  apply Hx. apply list_elem_of_fmap. exists y. auto.
Qed.

Lemma StronglySorted_lookup {A} (R : A → A → Prop) l i j a b :
  StronglySorted R l → (i < j)%nat →
  l !! i = Some a → l !! j = Some b → R a b.
Proof.
  intros Hl. revert i j. induction Hl as [|x l Hl IH Hx]; intros i j Hij Hi Hj.
  - rewrite lookup_nil in Hi. discriminate.
  - destruct j as [|j]; [lia|]. simpl in Hj. destruct i as [|i]; simpl in Hi.
    + injection Hi as <-. rewrite Forall_forall in Hx.
      apply Hx. eapply list_elem_of_lookup_2. eassumption.
    + apply (IH i j); [lia | assumption..].
Qed.

#[local] Instance longest_first_trans : Transitive longest_first.
Proof.
  intros a b c [Hab | [Hab Lab]] [Hbc | [Hbc Lbc]].
  - left. lia.
  - left. lia.
  - left. lia.
  - right. split; [lia | etrans; eassumption].
Qed.

Lemma build_class_mapping_sorted all_classes method exclude ms :
  build_class_mapping all_classes method exclude = Ok ms →
  StronglySorted longest_first ms.
Proof.
  unfold build_class_mapping.
  destruct (build_loop method exclude ([], ∅) (sorted_classes all_classes))
    as [st|e] eqn:Hloop; simpl; [|discriminate].
  intros [= <-].
  apply build_loop_originals in Hloop. simpl in Hloop.
  apply py_sorted_StronglySorted
    with (pre := λ a b, lex_lt (original a) (original b)).
  - apply _.
  - intros a b Hlt Hle. unfold by_length_desc in Hle. apply Nat.leb_le in Hle.
    unfold longest_first.
    destruct (decide (String.length (original a) = String.length (original b)));
      [right; auto | left; lia].
  - intros a b Hle. unfold by_length_desc in Hle. apply Nat.leb_gt in Hle.
    left. assumption.
  - apply StronglySorted_of_map. rewrite Hloop.
    apply StronglySorted_filter, sorted_classes_sorted.
Qed.

(** With a valid method the builder returns a list. *)
Lemma build_class_mapping_returns (all_classes : gset string)
    (method : string) (exclude : gset string) :
  valid_method method →
  ∃ ms, build_class_mapping all_classes method exclude = Ok ms.
Proof.
  intros Hm. unfold build_class_mapping.
  destruct (build_loop_valid method exclude (sorted_classes all_classes) ([], ∅) Hm)
    as (st & Hloop & _).
  { repeat split; simpl; constructor. }
  rewrite Hloop. simpl. eauto.
Qed.

(** ** C2: the obfuscated names differ from one another *)

(** C2.  For every set of class names, every method among shift, hash and
    hex and every set of excluded names, [build_class_mapping] returns a
    list whose obfuscated names differ from one another.  The obfuscated
    name of a mapping is the transform of its original, or that transform
    with a suffix [_k], [k >= 1], and then the transform itself and the
    names with the suffixes [_1] ... [_(k-1)] are obfuscated names of the
    list too: a name is free only when no mapping at all has been given it.
    The originals are the names of the set that are not empty and not
    excluded, each once. *)
Theorem build_class_mapping_unique (all_classes : gset string)
    (method : string) (exclude : gset string) :
  valid_method method →
  ∃ ms, build_class_mapping all_classes method exclude = Ok ms
    ∧ NoDup (map obfuscated ms)
    ∧ (∀ m, m ∈ ms → disambiguated method (map obfuscated ms) m)
    ∧ NoDup (map original ms)
    ∧ (∀ c, c ∈ map original ms ↔ c ∈ all_classes ∧ c ≠ "" ∧ c ∉ exclude).
Proof.
  intros Hm. unfold build_class_mapping.
  destruct (build_loop_valid method exclude (sorted_classes all_classes) ([], ∅) Hm)
    as ([ms0 used] & Hloop & (Hused & Hnd & Hdis) & Horig).
  { repeat split; simpl; constructor. }
  simpl in *. rewrite Hloop. simpl.
  pose proof (py_sorted_perm by_length_desc ms0) as Hperm.
  exists (py_sorted by_length_desc ms0). split; [reflexivity|].
  assert (map original (py_sorted by_length_desc ms0) ≡ₚ map original ms0) as Hpo
    by (apply Permutation_map; assumption).
  assert (map obfuscated (py_sorted by_length_desc ms0) ≡ₚ map obfuscated ms0) as Hpb
    by (apply Permutation_map; assumption).
  split; [rewrite Hpb; assumption|].
  split; [|split].
  - intros m Hin. rewrite Hperm in Hin. rewrite Forall_forall in Hdis.
    eapply disambiguated_mono; [|apply Hdis; assumption].
    intros x Hx. rewrite Hpb. assumption.
  - rewrite Hpo, Horig. apply NoDup_filter.
    unfold sorted_classes. rewrite py_sorted_perm. apply NoDup_elements.
  - intros c. rewrite Hpo, Horig, list_elem_of_filter, elem_of_sorted_classes.
    unfold kept. rewrite negb_true_iff, orb_false_iff, !bool_decide_eq_false.
    tauto.
Qed.

Lemma build_class_mapping_unique_witness :
  valid_method "shift" ∧
  ∃ ms, build_class_mapping {["g"; String e_acute ""; "h_1"; "h"]} "shift" ∅ = Ok ms
    ∧ NoDup (map obfuscated ms)
    ∧ (∀ m, m ∈ ms → disambiguated "shift" (map obfuscated ms) m)
    ∧ NoDup (map original ms)
    ∧ (∀ c, c ∈ map original ms
          ↔ c ∈ ({["g"; String e_acute ""; "h_1"; "h"]} : gset string)
            ∧ c ≠ "" ∧ c ∉ (∅ : gset string)).
Proof.
  split; [left; reflexivity|].
  apply (build_class_mapping_unique _ "shift" ∅). left. reflexivity.
Defined.

(** Two names of one letter that the shift method sends to the same
    letter: the second one gets the suffix. *)
Example build_class_mapping_collision :
  build_class_mapping {["g"; String e_acute ""]} "shift" ∅
  = Ok [Build_ClassMapping "g" "h"; Build_ClassMapping (String e_acute "") "h_1"].
Proof. vm_compute. reflexivity. Qed.

(** ** C3: the order of the list *)

(** C3.  Whatever the set, the method and the excluded names, a list that
    [build_class_mapping] returns goes from the longest original to the
    shortest, and originals of one length come in their code-point order;
    with a method among shift, hash and hex a list is returned. *)
Theorem build_class_mapping_order (all_classes : gset string)
    (method : string) (exclude : gset string) :
  (valid_method method →
   ∃ ms, build_class_mapping all_classes method exclude = Ok ms)
  ∧ ∀ ms, build_class_mapping all_classes method exclude = Ok ms →
      ∀ i j a b, (i < j)%nat → ms !! i = Some a → ms !! j = Some b →
        (String.length (original b) ≤ String.length (original a))%nat
        ∧ (String.length (original a) = String.length (original b) →
           lex_lt (original a) (original b)).
Proof.
  split.
  - intros Hm.
    apply build_class_mapping_returns. assumption.
  - intros ms Hms i j a b Hij Ha Hb.
    pose proof (build_class_mapping_sorted _ _ _ _ Hms) as Hs.
    destruct (StronglySorted_lookup _ _ _ _ _ _ Hs Hij Ha Hb) as [Hlt | [Heq Hlex]].
    + split; lia.
    + split; [lia | intros _; assumption].
Qed.

Example build_class_mapping_order_example :
  build_class_mapping {["btn"; "active"; "hidden"; "box"; "a"]} "shift" {["active"]}
  = Ok [Build_ClassMapping "hidden" "nojjkt"; Build_ClassMapping "box" "era";
        Build_ClassMapping "btn" "ewq"; Build_ClassMapping "a" "b"].
Proof. vm_compute. reflexivity. Qed.

(** ** C1: whole-token replacement in CSS *)

(** A hyphen after the class name is a word boundary for [\b]: the pattern
    matches in front of it. *)
Lemma match_here_before_hyphen (original rest : string) (c : ascii) :
  Re.last ("." +:+ original) = Some c → Py.is_word c = true →
  Re.match_here ("." +:+ original) ("." +:+ original +:+ "-" +:+ rest) = true.
Proof.
  intros Hlast Hw. unfold Re.match_here.
  assert (∀ a b, Py.startswith a (a +:+ b) = true) as Hsw.
  { induction a as [|x a IH]; intros b; [reflexivity|].
    change (String x a +:+ b) with (String x (a +:+ b)). simpl.
    destruct (decide (x = x)); [apply IH | contradiction]. }
  assert (∀ a b, Py.drop (String.length a) (a +:+ b) = b) as Hdrop.
  { induction a as [|x a IH]; intros b; [destruct b; reflexivity|].
    change (String x a +:+ b) with (String x (a +:+ b)). simpl. apply IH. }
  replace ("." +:+ original +:+ "-" +:+ rest)
    with (("." +:+ original) +:+ "-" +:+ rest) by reflexivity.
  rewrite Hsw, Hdrop, Hlast. simpl. unfold Re.word_boundary. simpl.
  rewrite Hw. reflexivity.
Qed.

(** C1 (the code departs from it).  The claim wants [.btn] replaced only as
    a whole token, so that [.btn-primary] stays as it is in
    [.btn{color:red}.btn-primary{color:blue}] under the mapping btn to ewq.
    The word boundary of the pattern holds in front of the hyphen, and
    [process_css_content] rewrites [.btn-primary] to [.ewq-primary]. *)
Theorem process_css_content_hyphen :
  process_css_content ".btn{color:red}.btn-primary{color:blue}"
    [Build_ClassMapping "btn" "ewq"]
  = Ok ".ewq{color:red}.ewq-primary{color:blue}"
  ∧ process_css_content ".btn{color:red}.btn-primary{color:blue}"
      [Build_ClassMapping "btn" "ewq"]
    ≠ Ok ".ewq{color:red}.btn-primary{color:blue}".
Proof.
  split; [reflexivity | discriminate].
Qed.

(** With both names in the list, longest first, the longer one is replaced
    before the shorter one can match inside it. *)
Example process_css_content_longest_first :
  process_css_content ".btn{color:red}.btn-primary{color:blue}"
    [Build_ClassMapping "btn-primary" "x1"; Build_ClassMapping "btn" "ewq"]
  = Ok ".ewq{color:red}.x1{color:blue}".
Proof. reflexivity. Qed.

(** ** Trees *)

Lemma node_ind2 (Q : node → Prop) :
  (∀ s, Q (NavigableString s)) →
  (∀ n a contents, Forall Q contents → Q (Tag n a contents)) →
  ∀ t, Q t.
Proof.
  intros Htext Htag. fix IH 1. intros [n a contents | s]; [|apply Htext].
  apply Htag. induction contents as [|c contents IHc]; constructor.
  - apply IH.
  - exact IHc.
Qed.

Lemma get_at_app p r s : get_at (p ++ r) s = get_at p s ≫= get_at r.
Proof.
  revert s. induction p as [|i p IH]; intros s; simpl; [reflexivity|].
  destruct s as [n a contents|]; [|reflexivity].
  destruct (contents !! i); [apply IH | reflexivity].
Qed.

Lemma get_at_update_at_prefix p r g s :
  get_at (p ++ r) (update_at p g s) = get_at p s ≫= (λ t, get_at r (g t)).
Proof.
  revert s. induction p as [|i p IH]; intros s; simpl; [reflexivity|].
  destruct s as [n a contents|]; [|reflexivity].
  rewrite list_lookup_alter_eq.
  destruct (contents !! i); simpl; [apply IH | reflexivity].
Qed.

Lemma own_at_update_at_other p q g s :
  ¬ p `prefix_of` q → own_at q (update_at p g s) = own_at q s.
Proof.
  unfold own_at. revert q s. induction p as [|i p IH]; intros q s Hpre.
  - exfalso. apply Hpre. apply prefix_nil.
  - destruct s as [n a contents|]; [|reflexivity].
    destruct q as [|j q]; [reflexivity|]. simpl.
    destruct (decide (i = j)) as [->|Hij].
    + rewrite list_lookup_alter_eq.
      destruct (contents !! j); simpl; [|reflexivity].
      apply IH. intros H. apply Hpre. apply prefix_cons. assumption.
    + rewrite list_lookup_alter_ne by assumption. reflexivity.
Qed.

(** A position is below [p], or it is not. *)
Lemma prefix_split (p q : path) :
  (∃ r, q = p ++ r) ∨ ¬ p `prefix_of` q.
Proof.
  destruct (decide (p `prefix_of` q)) as [[r ->]|]; [left; eauto | right; assumption].
Qed.

(** Putting at [p] a tree with the same names and attributes changes none
    of them anywhere. *)
Lemma own_at_update_at_same p t t' s :
  get_at p s = Some t →
  (∀ r, own_at r t' = own_at r t) →
  ∀ q, own_at q (update_at p (λ _, t') s) = own_at q s.
Proof.
  intros Hp Hsame q.
  destruct (prefix_split p q) as [[r ->]|Hn].
  - unfold own_at. rewrite get_at_update_at_prefix, get_at_app, Hp. simpl.
    apply Hsame.
  - apply own_at_update_at_other. assumption.
Qed.

(** Putting at [p] a tree that differs at its root only changes position
    [p] only. *)
Lemma own_at_update_at_root p t t' s :
  get_at p s = Some t →
  (∀ r, r ≠ [] → own_at r t' = own_at r t) →
  ∀ q, own_at q (update_at p (λ _, t') s)
       = if decide (q = p) then Some (own_of t') else own_at q s.
Proof.
  intros Hp Hsame q.
  destruct (prefix_split p q) as [[r ->]|Hn].
  - unfold own_at at 1. rewrite get_at_update_at_prefix, Hp. simpl.
    destruct r as [|i r].
    + rewrite app_nil_r. case_decide; [reflexivity | contradiction].
    + case_decide as E.
      { exfalso. apply (f_equal length) in E. rewrite length_app in E. simpl in E. lia. }
      fold (own_at (i :: r) t'). rewrite Hsame by discriminate.
      unfold own_at. rewrite get_at_app, Hp. reflexivity.
  - rewrite own_at_update_at_other by assumption.
    case_decide as E; [|reflexivity].
    exfalso. apply Hn. rewrite E. reflexivity.
Qed.

(** *** [find_all] *)

Lemma find_from_Tag P n a contents :
  find_from P (Tag n a contents)
  = ((if P n a then [[]] else []) ++ find_in P O contents)%list.
Proof.
  simpl. f_equal. generalize O.
  induction contents as [|c contents IH]; intros i; simpl; [reflexivity|].
  rewrite IH. reflexivity.
Qed.

Lemma elem_of_find_in P i contents q :
  q ∈ find_in P i contents ↔
  ∃ k r c, q = (i + k)%nat :: r ∧ contents !! k = Some c ∧ r ∈ find_from P c.
Proof.
  revert i. induction contents as [|c contents IH]; intros i; simpl.
  - split; [intros H; inversion H | intros (k & r & c & _ & H & _); discriminate].
  - rewrite elem_of_app, list_elem_of_fmap, IH. split.
    + intros [(r & -> & Hr) | (k & r & c' & -> & Hk & Hr)].
      * exists O, r, c. rewrite Nat.add_0_r. auto.
      * exists (S k), r, c'. rewrite Nat.add_succ_r. auto.
    + intros (k & r & c' & -> & Hk & Hr). destruct k as [|k]; simpl in Hk.
      * injection Hk as <-. left. exists r. rewrite Nat.add_0_r. auto.
      * right. exists k, r, c'. rewrite Nat.add_succ_r. auto.
Qed.

Lemma elem_of_find_from P q t :
  q ∈ find_from P t ↔
  ∃ n a, own_at q t = Some (Some (n, a)) ∧ P n a = true.
Proof.
  unfold own_at. revert t. induction q as [|k q IH]; intros t.
  - destruct t as [n a contents | s].
    + rewrite find_from_Tag, elem_of_app, elem_of_find_in. simpl. split.
      * intros [H | (k & r & c & E & _)]; [|discriminate].
        destruct (P n a) eqn:HP; [eauto | inversion H].
      * intros (n' & a' & [= <- <-] & HP). left. rewrite HP. left.
    + simpl. split; [intros H; inversion H | intros (n & a & E & _); discriminate].
  - destruct t as [n a contents | s].
    + rewrite find_from_Tag, elem_of_app, elem_of_find_in. simpl. split.
      * intros [H | (k' & r & c & [= -> ->] & Hk & Hr)].
        { destruct (P n a); inversion H; subst.
          match goal with H' : _ ∈ [] |- _ => inversion H' end. }
        rewrite Hk. apply IH. assumption.
      * intros (n' & a' & E & HP). right.
        destruct (contents !! k) as [c|] eqn:Hk; [|discriminate].
        exists k, q, c. repeat split; [assumption|]. apply IH. eauto.
    + simpl. split; [intros H; inversion H | intros (n & a & E & _); discriminate].
Qed.

(** The positions that [find_all] gives: the tags below the root that
    match. *)
Lemma elem_of_find_all P q s :
  q ∈ find_all P s ↔
  q ≠ [] ∧ ∃ n a, own_at q s = Some (Some (n, a)) ∧ P n a = true.
Proof.
  destruct s as [n0 a0 contents | s0]; simpl.
  - rewrite elem_of_find_in. unfold own_at. split.
    + intros (k & r & c & -> & Hk & Hr). split; [discriminate|].
      simpl. rewrite Hk. apply elem_of_find_from. assumption.
    + intros [Hq (n & a & E & HP)]. destruct q as [|k q]; [contradiction|].
      simpl in E. destruct (contents !! k) as [c|] eqn:Hk; [|discriminate].
      exists k, q, c. repeat split; [assumption|].
      apply elem_of_find_from. eauto.
  - split; [intros H; inversion H|].
    intros [Hq (n & a & E & _)]. destruct q; [contradiction | discriminate].
Qed.

Lemma NoDup_find_in P i contents :
  Forall (λ c, NoDup (find_from P c)) contents → NoDup (find_in P i contents).
Proof.
  intros H. revert i. induction H as [|c contents Hc _ IH]; intros i; simpl.
  - constructor.
  - apply NoDup_app. split; [|split].
    + apply NoDup_fmap_2; [|assumption]. intros x y [= ->]. reflexivity.
    + intros x Hx Hx'. apply list_elem_of_fmap in Hx as (r & -> & _).
      apply elem_of_find_in in Hx' as (k & r' & c' & [= E _] & _). lia.
    + apply IH.
Qed.

Lemma NoDup_find_from P t : NoDup (find_from P t).
Proof.
  induction t as [s | n a contents IH] using node_ind2; [constructor|].
  rewrite find_from_Tag. apply NoDup_app. split; [|split].
  - destruct (P n a); [apply NoDup_singleton | constructor].
  - intros x Hx Hx'. apply elem_of_find_in in Hx' as (k & r & c & -> & _).
    destruct (P n a); [apply list_elem_of_singleton in Hx; discriminate | inversion Hx].
  - apply NoDup_find_in. assumption.
Qed.

Lemma NoDup_find_all P s : NoDup (find_all P s).
Proof.
  destruct s as [n a contents|]; simpl; [|constructor].
  apply NoDup_find_in. apply Forall_forall. intros c _. apply NoDup_find_from.
Qed.

(** *** Attributes *)

Lemma attr_get_set_eq key v a : attr_get key (attr_set key v a) = Some v.
Proof.
  induction a as [|[k w] a IH]; simpl.
  - destruct (decide (key = key)); [reflexivity | contradiction].
  - destruct (decide (k = key)) as [->|Hk]; simpl.
    + destruct (decide (key = key)); [reflexivity | contradiction].
    + destruct (decide (k = key)); [contradiction | assumption].
Qed.

Lemma attr_get_set_ne key key' v a :
  key ≠ key' → attr_get key' (attr_set key v a) = attr_get key' a.
Proof.
  intros Hne. induction a as [|[k w] a IH]; simpl.
  - destruct (decide (key = key')); [contradiction | reflexivity].
  - destruct (decide (k = key)) as [->|Hk]; simpl.
    + destruct (decide (key = key')); [contradiction | reflexivity].
    + destruct (decide (k = key')); [reflexivity | assumption].
Qed.

(** Setting a key that is there keeps the keys and their order. *)
Lemma attr_set_keys key v a :
  is_Some (attr_get key a) → map fst (attr_set key v a) = map fst a.
Proof.
  induction a as [|[k w] a IH]; simpl; intros [x Hx]; [discriminate|].
  destruct (decide (k = key)); simpl; [reflexivity|].
  rewrite IH by eauto. reflexivity.
Qed.

(** It leaves the entries of the other keys where they are. *)
Lemma attr_set_other key v a i k w :
  k ≠ key → a !! i = Some (k, w) → attr_set key v a !! i = Some (k, w).
Proof.
  intros Hk. revert i. induction a as [|[k' w'] a IH]; intros i Hi; simpl.
  - destruct i; discriminate Hi.
  - destruct (decide (k' = key)) as [->|Hk'].
    + destruct i as [|i]; simpl in *; [injection Hi as -> ->; contradiction | assumption].
    + destruct i as [|i]; simpl in *; [assumption | apply IH; assumption].
Qed.

Lemma link_attrs_frame m n a a' :
  link_attrs m a = Ok a' → is_stylesheet_link n a = true →
  attrs_frame n a a' ∧ attr_get "class" a' = attr_get "class" a
  ∧ attr_get "rel" a' = attr_get "rel" a.
Proof.
  unfold link_attrs. intros H Hlink.
  assert (attrs_frame n a a ∧ attr_get "class" a = attr_get "class" a
          ∧ attr_get "rel" a = attr_get "rel" a) as Hrefl.
  { split; [split; [reflexivity | auto] | split; reflexivity]. }
  destruct (attr_get "href" a) as [[href|l]|] eqn:Hhref.
  - destruct href as [|c href]; [injection H as <-; exact Hrefl|].
    destruct (m !! _) as [new_name|]; injection H as <-; [|exact Hrefl].
    split; [split|split].
    + apply attr_set_keys. rewrite Hhref. eauto.
    + intros i k v Hi _ Hk. apply attr_set_other; [|assumption].
      intros ->. specialize (Hk eq_refl). congruence.
    + apply attr_get_set_ne. discriminate.
    + apply attr_get_set_ne. discriminate.
  - destruct l; [injection H as <-; exact Hrefl | discriminate].
  - injection H as <-. exact Hrefl.
Qed.

Lemma class_attrs_frame d n a :
  attrs_frame n a (class_attrs d a)
  ∧ attr_get "rel" (class_attrs d a) = attr_get "rel" a.
Proof.
  unfold class_attrs.
  set (updated := map _ _).
  destruct updated eqn:Hu; [split; [split; [reflexivity | auto] | reflexivity]|].
  rewrite <- Hu. split; [split|].
  - apply attr_set_keys.
    destruct (attr_get "class" a); [eauto|]. subst updated. discriminate.
  - intros i k v Hi Hk _. apply attr_set_other; assumption.
  - apply attr_get_set_ne. discriminate.
Qed.

Lemma class_attrs_class mappings a v :
  attr_get "class" a = Some v →
  attr_get "class" (class_attrs (class_dict_of mappings) a)
  = Some (AList (map (translate mappings) (class_tokens v))).
Proof.
  unfold class_attrs. intros Hv. rewrite Hv.
  fold (translate mappings).
  destruct v as [s | l]; simpl.
  - apply attr_get_set_eq.
  - destruct l as [|c l]; simpl; [assumption | apply attr_get_set_eq].
Qed.

Lemma attrs_frame_trans n a a1 a2 :
  attrs_frame n a a1 → attrs_frame n a1 a2 →
  attr_get "rel" a1 = attr_get "rel" a →
  attrs_frame n a a2.
Proof.
  intros [Hk1 He1] [Hk2 He2] Hrel. split; [congruence|].
  intros i k v Hi Hc Hh. apply He2; [apply He1; assumption | assumption |].
  intros E. unfold is_stylesheet_link in *. rewrite Hrel. auto.
Qed.

(** *** The loops *)

Lemma own_at_on_attrs h t t' :
  on_attrs h t = Ok t' →
  (∀ r, r ≠ [] → own_at r t' = own_at r t)
  ∧ count_elements t' = count_elements t
  ∧ match own_of t with
    | Some (n, a) => ∃ a', h a = Ok a' ∧ own_of t' = Some (n, a')
    | None => own_of t' = None
    end.
Proof.
  destruct t as [n a contents | s]; simpl.
  - destruct (h a) as [a'|e]; simpl; [|discriminate].
    intros [= <-]. split; [|split; [reflexivity | eauto]].
    intros [|i r] Hr; [contradiction | reflexivity].
  - intros [= <-]. auto.
Qed.

Lemma own_at_replace_string new t r :
  own_at r (replace_string new t) = own_at r t.
Proof.
  unfold own_at. revert t. induction r as [|i r IH]; intros t.
  - destruct t as [n a [|c [|c' contents]] | s]; try reflexivity.
    destruct c; reflexivity.
  - destruct t as [n a [|c [|c' contents]] | s]; try reflexivity.
    destruct c as [n' a' contents' | s']; simpl.
    + destruct i as [|i]; [exact (IH (Tag n' a' contents')) | reflexivity].
    + destruct i as [|i]; simpl; [destruct r; reflexivity | reflexivity].
Qed.

Lemma count_elements_replace_string new t :
  count_elements (replace_string new t) = count_elements t.
Proof.
  induction t as [s | n a contents IH] using node_ind2; [reflexivity|].
  destruct contents as [|c [|c' contents]]; try reflexivity.
  destruct c as [n' a' contents' | s']; [|reflexivity].
  apply Forall_cons in IH as [IH _].
  change (replace_string new (Tag n a [Tag n' a' contents']))
    with (Tag n a [replace_string new (Tag n' a' contents')]).
  cbn [count_elements map foldr]. cbn [count_elements map foldr] in IH.
  rewrite IH. reflexivity.
Qed.

Lemma update_style_same mappings t t' :
  update_style mappings t = Ok t' →
  (∀ r, own_at r t' = own_at r t) ∧ count_elements t' = count_elements t.
Proof.
  unfold update_style.
  destruct (tag_string t) as [s|]; [|intros [= <-]; auto].
  destruct (decide (s = "")); [intros [= <-]; auto|].
  destruct (process_css_content s mappings) as [new|e]; simpl; [|discriminate].
  intros [= <-]. split;
    [intros r; apply own_at_replace_string | apply count_elements_replace_string].
Qed.

Lemma count_elements_update_at p t t' s :
  get_at p s = Some t → count_elements t' = count_elements t →
  count_elements (update_at p (λ _, t') s) = count_elements s.
Proof.
  intros Hp Hc. revert s Hp. induction p as [|i p IH]; intros s Hp; simpl in *.
  - injection Hp as ->. assumption.
  - destruct s as [n a contents|]; [|discriminate]. simpl. f_equal. f_equal.
    revert i Hp. induction contents as [|c contents IHc]; intros i Hp; [reflexivity|].
    destruct i as [|i]; simpl in *.
    + f_equal. apply IH. assumption.
    + f_equal. apply IHc. assumption.
Qed.

(** A loop whose body keeps the number of elements keeps it. *)
Lemma for_each_count f ps s s' :
  (∀ t t', f t = Ok t' → count_elements t' = count_elements t) →
  for_each f ps s = Ok s' → count_elements s' = count_elements s.
Proof.
  intros Hf. revert s. induction ps as [|p ps IH]; intros s; simpl.
  - intros [= <-]. reflexivity.
  - destruct (get_at p s) as [t|] eqn:Hp; [|apply IH].
    destruct (f t) as [t'|e] eqn:Ht; simpl; [|discriminate].
    intros H. apply IH in H. rewrite H.
    apply (count_elements_update_at p t); [assumption | eauto].
Qed.

(** A loop whose body keeps names and attributes keeps them. *)
Lemma for_each_same f ps s s' :
  (∀ t t', f t = Ok t' → ∀ r, own_at r t' = own_at r t) →
  for_each f ps s = Ok s' → ∀ q, own_at q s' = own_at q s.
Proof.
  intros Hf. revert s. induction ps as [|p ps IH]; intros s; simpl.
  - intros [= <-]. reflexivity.
  - destruct (get_at p s) as [t|] eqn:Hp; [|apply IH].
    destruct (f t) as [t'|e] eqn:Ht; simpl; [|discriminate].
    intros H q. rewrite (IH _ H q).
    apply (own_at_update_at_same p t); [assumption | eauto].
Qed.

(** A loop that changes attributes: a position visited holds the tag with
    the attributes changed once, any other position is as before. *)
Lemma for_each_on_attrs h ps s s' :
  NoDup ps →
  for_each (on_attrs h) ps s = Ok s' →
  ∀ q, if decide (q ∈ ps) then
         match own_at q s with
         | Some (Some (n, a)) =>
             ∃ a', h a = Ok a' ∧ own_at q s' = Some (Some (n, a'))
         | o => own_at q s' = o
         end
       else own_at q s' = own_at q s.
Proof.
  intros Hnd. revert s.
  induction Hnd as [|p ps Hp Hnd IH]; intros s; cbn [for_each].
  - intros [= <-] q. destruct (decide (q ∈ [])) as [Hq|]; [inversion Hq | reflexivity].
  - destruct (get_at p s) as [t|] eqn:Hget.
    + destruct (on_attrs h t) as [t'|e] eqn:Ht; cbn [rbind]; [|discriminate].
      intros H q. specialize (IH _ H q).
      destruct (own_at_on_attrs _ _ _ Ht) as (Hbelow & _ & Hroot).
      pose proof (own_at_update_at_root p t t' s Hget Hbelow q) as Hq.
      destruct (decide (q = p)) as [->|Hne].
      * rewrite decide_True by left.
        rewrite decide_False in IH by assumption. rewrite IH, Hq.
        unfold own_at. rewrite Hget. simpl.
        destruct (own_of t) as [[n a]|]; [|congruence].
        destruct Hroot as (a' & Ha' & ->). eauto.
      * rewrite Hq in IH.
        destruct (decide (q ∈ ps)) as [Hin|Hout].
        -- rewrite decide_True by (right; assumption). assumption.
        -- rewrite decide_False by (intros Hin; inversion Hin; subst; contradiction).
           assumption.
    + intros H q. specialize (IH _ H q).
      destruct (decide (q = p)) as [->|Hne].
      * rewrite decide_True by left.
        rewrite decide_False in IH by assumption.
        unfold own_at in *. rewrite Hget in *. assumption.
      * destruct (decide (q ∈ ps)) as [Hin|Hout].
        -- rewrite decide_True by (right; assumption). assumption.
        -- rewrite decide_False by (intros Hin; inversion Hin; subst; contradiction).
           assumption.
Qed.

(** ** The HTML rewriter on the tree *)

Lemma attrs_frame_refl n a : attrs_frame n a a.
Proof. split; [reflexivity | auto]. Qed.

(** The first loop: a stylesheet link gets new attributes within the frame,
    with the same [class] and [rel]; nothing else changes. *)
Lemma link_loop_frame m soup s1 :
  for_each (update_link m) (find_all is_stylesheet_link soup) soup = Ok s1 →
  ∀ q, match own_at q soup with
       | Some (Some (n, a)) =>
           ∃ a1, own_at q s1 = Some (Some (n, a1))
               ∧ attrs_frame n a a1
               ∧ attr_get "class" a1 = attr_get "class" a
               ∧ attr_get "rel" a1 = attr_get "rel" a
       | o => own_at q s1 = o
       end.
Proof.
  intros H q. unfold update_link in H.
  pose proof (for_each_on_attrs _ _ _ _ (NoDup_find_all _ _) H q) as Hq.
  destruct (decide (q ∈ find_all is_stylesheet_link soup)) as [Hin|Hout].
  - apply elem_of_find_all in Hin as (_ & n & a & Hown & Hlink).
    rewrite Hown in *. destruct Hq as (a1 & Ha1 & Hs1).
    exists a1. split; [assumption|].
    destruct (link_attrs_frame _ _ _ _ Ha1 Hlink) as (? & ? & ?). auto.
  - rewrite Hq. destruct (own_at q soup) as [[[n a]|]|]; try reflexivity.
    exists a. split; [reflexivity|]. split; [apply attrs_frame_refl | auto].
Qed.

Lemma style_loop_same mappings ps s1 s2 :
  for_each (update_style mappings) ps s1 = Ok s2 →
  ∀ q, own_at q s2 = own_at q s1.
Proof.
  apply for_each_same. intros t t' Ht. apply (update_style_same _ _ _ Ht).
Qed.

(** The third loop: a tag below the root that has a [class] attribute gets
    the attributes of [class_attrs]; nothing else changes. *)
Lemma class_loop_effect d s2 s3 :
  for_each (update_class d) (find_all has_class s2) s2 = Ok s3 →
  ∀ q, match own_at q s2 with
       | Some (Some (n, a)) =>
           own_at q s3
           = Some (Some (n, if bool_decide (q ≠ []) && has_class n a
                            then class_attrs d a else a))
       | o => own_at q s3 = o
       end.
Proof.
  intros H q. unfold update_class in H.
  pose proof (for_each_on_attrs _ _ _ _ (NoDup_find_all _ _) H q) as Hq.
  destruct (decide (q ∈ find_all has_class s2)) as [Hin|Hout].
  - apply elem_of_find_all in Hin as (Hne & n & a & Hown & Hclass).
    rewrite Hown in *. destruct Hq as (a' & [= <-] & ->).
    rewrite Hclass, bool_decide_eq_true_2 by assumption. reflexivity.
  - rewrite Hq. destruct (own_at q s2) as [[[n a]|]|] eqn:Hown; try reflexivity.
    destruct (bool_decide (q ≠ []) && has_class n a) eqn:Hb; [|reflexivity].
    exfalso. apply Hout. apply elem_of_find_all.
    apply andb_true_iff in Hb as [Hne Hc]. apply bool_decide_eq_true in Hne.
    split; [assumption|]. eauto.
Qed.

Lemma rewrite_soup_steps soup mappings css_files output_suffix soup' :
  rewrite_soup soup mappings css_files output_suffix = Ok soup' →
  ∃ s1 s2,
    for_each (update_link (css_file_mapping_of css_files output_suffix))
      (find_all is_stylesheet_link soup) soup = Ok s1
    ∧ for_each (update_style mappings) (find_all is_style s1) s1 = Ok s2
    ∧ for_each (update_class (class_dict_of mappings)) (find_all has_class s2) s2
      = Ok soup'.
Proof.
  unfold rewrite_soup.
  destruct (for_each (update_link _) _ soup) as [s1|e] eqn:E1; simpl; [|discriminate].
  destruct (for_each (update_style _) _ s1) as [s2|e] eqn:E2; simpl; [|discriminate].
  intros H. exists s1, s2. split; [reflexivity|]. split; [exact E2 | exact H].
Qed.

Lemma rewrite_soup_frame soup mappings css_files output_suffix soup' :
  rewrite_soup soup mappings css_files output_suffix = Ok soup' →
  count_elements soup' = count_elements soup
  ∧ ∀ q, position_frame (own_at q soup) (own_at q soup').
Proof.
  intros H. apply rewrite_soup_steps in H as (s1 & s2 & H1 & H2 & H3). split.
  - rewrite (for_each_count _ _ _ _ (λ t t' Ht, proj1 (proj2 (own_at_on_attrs _ _ _ Ht))) H3).
    rewrite (for_each_count _ _ _ _ (λ t t' Ht, proj2 (update_style_same _ _ _ Ht)) H2).
    apply (for_each_count _ _ _ _ (λ t t' Ht, proj1 (proj2 (own_at_on_attrs _ _ _ Ht))) H1).
  - intros q.
    pose proof (link_loop_frame _ _ _ H1 q) as L1.
    pose proof (style_loop_same _ _ _ _ H2 q) as L2.
    pose proof (class_loop_effect _ _ _ H3 q) as L3.
    rewrite L2 in L3.
    destruct (own_at q soup) as [[[n a]|]|].
    + destruct L1 as (a1 & E1 & Hf & Hc & Hr). rewrite E1 in L3. rewrite L3.
      simpl. split; [reflexivity|].
      destruct (bool_decide (q ≠ []) && has_class n a1); [|assumption].
      apply (attrs_frame_trans n a a1); [assumption | apply class_attrs_frame | assumption].
    + rewrite L1 in L3. rewrite L3. exact I.
    + rewrite L1 in L3. rewrite L3. exact I.
Qed.

Lemma rewrite_soup_classes soup mappings css_files output_suffix soup' :
  rewrite_soup soup mappings css_files output_suffix = Ok soup' →
  ∀ q n a v,
    q ≠ [] → own_at q soup = Some (Some (n, a)) → attr_get "class" a = Some v →
    ∃ a', own_at q soup' = Some (Some (n, a'))
        ∧ attr_get "class" a'
          = Some (AList (map (translate mappings) (class_tokens v))).
Proof.
  intros H q n a v Hq Hown Hv.
  apply rewrite_soup_steps in H as (s1 & s2 & H1 & H2 & H3).
  pose proof (link_loop_frame _ _ _ H1 q) as L1.
  pose proof (style_loop_same _ _ _ _ H2 q) as L2.
  pose proof (class_loop_effect _ _ _ H3 q) as L3.
  rewrite L2 in L3. rewrite Hown in L1.
  destruct L1 as (a1 & E1 & _ & Hc & _). rewrite E1 in L3.
  assert (has_class n a1 = true) as Hhas.
  { unfold has_class. rewrite Hc, Hv. apply bool_decide_eq_true. eauto. }
  rewrite Hhas, bool_decide_eq_true_2 in L3 by assumption. simpl in L3.
  exists (class_attrs (class_dict_of mappings) a1). split; [assumption|].
  apply class_attrs_class. congruence.
Qed.

(** The lookup built from the mappings. *)
Lemma class_dict_lookup_app ms m c :
  class_dict_of (ms ++ [m]) !! c
  = if decide (original m = c) then Some (obfuscated m) else class_dict_of ms !! c.
Proof.
  unfold class_dict_of. rewrite fold_left_app. simpl.
  destruct (decide (original m = c)) as [<-|Hne].
  - apply lookup_insert_eq.
  - apply lookup_insert_ne. assumption.
Qed.

Lemma translate_spec mappings cls :
  (cls ∉ map original mappings → translate mappings cls = cls)
  ∧ (cls ∈ map original mappings →
     ∃ m, m ∈ mappings ∧ original m = cls ∧ translate mappings cls = obfuscated m)
  ∧ (NoDup (map original mappings) →
     ∀ m, m ∈ mappings → translate mappings (original m) = obfuscated m).
Proof.
  unfold translate.
  induction mappings as [|m ms IH] using rev_ind.
  - split; [reflexivity|]. split; [intros H; inversion H | intros _ m H; inversion H].
  - destruct IH as (IH1 & IH2 & IH3).
    rewrite map_app. simpl. split; [|split].
    + intros Hn. rewrite class_dict_lookup_app.
      rewrite elem_of_app, list_elem_of_singleton in Hn.
      destruct (decide (original m = cls)) as [E|]; [exfalso; apply Hn; auto|].
      apply IH1. intros Hin. apply Hn. auto.
    + intros Hin. rewrite class_dict_lookup_app.
      destruct (decide (original m = cls)) as [E|Hne].
      * exists m. split; [apply elem_of_app; right; left | auto].
      * apply elem_of_app in Hin as [Hin | Hin].
        -- destruct (IH2 Hin) as (m' & Hm' & Ho & Ht).
           exists m'. split; [apply elem_of_app; left; assumption | auto].
        -- apply list_elem_of_singleton in Hin. congruence.
    + intros Hnd m' Hm'. rewrite class_dict_lookup_app.
      apply NoDup_app in Hnd as (Hnd & Hdisj & _).
      apply elem_of_app in Hm' as [Hm' | Hm'].
      * destruct (decide (original m = original m')) as [E|Hne]; [|apply IH3; assumption].
        exfalso. apply (Hdisj (original m')).
        -- apply list_elem_of_fmap. eauto.
        -- rewrite <- E. left.
      * apply list_elem_of_singleton in Hm' as ->.
        rewrite decide_True by reflexivity. reflexivity.
Qed.

(** *** When the rewriter returns *)

Lemma expand_no_backslash matched repl :
  no_backslash repl = true → Re.expand matched None repl = Ok repl.
Proof.
  unfold no_backslash. induction repl as [|c repl IH]; simpl; [reflexivity|].
  intros H. apply andb_true_iff in H as [Hc Hrest].
  apply negb_true_iff, bool_decide_eq_false in Hc.
  destruct (decide (c = "\"%char)); [contradiction|].
  rewrite IH by assumption. reflexivity.
Qed.

Lemma process_css_content_returns content mappings :
  Forall (λ m, no_backslash (obfuscated m) = true) mappings →
  ∃ r, process_css_content content mappings = Ok r.
Proof.
  intros H. revert content. induction H as [|m ms Hm _ IH]; intros content; simpl.
  - eauto.
  - unfold Re.sub_class.
    rewrite expand_no_backslash by (simpl; exact Hm). simpl. apply IH.
Qed.

Lemma for_each_returns f ps s :
  (∀ t, ∃ t', f t = Ok t') → ∃ s', for_each f ps s = Ok s'.
Proof.
  intros Hf. revert s. induction ps as [|p ps IH]; intros s; simpl; [eauto|].
  destruct (get_at p s) as [t|]; [|apply IH].
  destruct (Hf t) as [t' ->]. simpl. apply IH.
Qed.

Lemma for_each_on_attrs_returns h (P : attrs → Prop) ps s :
  (∀ a, P a → ∃ a', h a = Ok a' ∧ P a') →
  (∀ q n a, own_at q s = Some (Some (n, a)) → P a) →
  ∃ s', for_each (on_attrs h) ps s = Ok s'
      ∧ ∀ q n a, own_at q s' = Some (Some (n, a)) → P a.
Proof.
  intros Hh. revert s. induction ps as [|p ps IH]; intros s Hs; simpl; [eauto|].
  destruct (get_at p s) as [t|] eqn:Hget; [|apply IH; assumption].
  assert (∃ t', on_attrs h t = Ok t'
                ∧ match own_of t' with Some (n, a) => P a | None => True end)
    as (t' & Ht & Pt).
  { destruct t as [n a contents | x]; simpl;
      [|exists (NavigableString x); split; [reflexivity | exact I]].
    destruct (Hh a) as (a' & -> & Pa').
    - apply (Hs p n). unfold own_at. rewrite Hget. reflexivity.
    - simpl. exists (Tag n a' contents). split; [reflexivity | exact Pa']. }
  rewrite Ht. simpl. apply IH. intros q n a Hq.
  destruct (own_at_on_attrs _ _ _ Ht) as (Hbelow & _ & _).
  rewrite (own_at_update_at_root p t t' s Hget Hbelow q) in Hq.
  destruct (decide (q = p)); [|eapply Hs; eassumption].
  injection Hq as Hq. rewrite Hq in Pt. assumption.
Qed.

(** The rewriter returns a tree when no obfuscated name has a backslash and
    every [href] of the tree is a string. *)
Lemma rewrite_soup_returns soup mappings css_files output_suffix :
  Forall (λ m, no_backslash (obfuscated m) = true) mappings →
  hrefs_are_str soup →
  ∃ soup', rewrite_soup soup mappings css_files output_suffix = Ok soup'.
Proof.
  intros Hms Hsoup. unfold rewrite_soup, update_link.
  destruct (for_each_on_attrs_returns
              (link_attrs (css_file_mapping_of css_files output_suffix))
              href_is_str (find_all is_stylesheet_link soup) soup)
    as (s1 & -> & _); [|exact Hsoup|].
  { intros a Ha. unfold link_attrs.
    destruct (attr_get "href" a) as [[href|l]|] eqn:Hhref; [| |eauto].
    - destruct href as [|c href]; [eauto|].
      destruct (_ !! _); [|eauto].
      eexists. split; [reflexivity|]. intros l.
      rewrite attr_get_set_eq. discriminate.
    - rewrite (Ha l Hhref). eauto. }
  simpl.
  destruct (for_each_returns (update_style mappings) (find_all is_style s1) s1)
    as (s2 & ->).
  { intros t. unfold update_style.
    destruct (tag_string t) as [x|]; [|eauto].
    destruct (decide (x = "")); [eauto|].
    destruct (process_css_content_returns x mappings Hms) as [r ->]. simpl. eauto. }
  simpl. apply for_each_returns. intros t. unfold update_class.
  destruct t; simpl; eauto.
Qed.

Lemma process_html_content_returns (parse_html : string → node)
    (soup_to_string : node → string) content mappings css_files output_suffix :
  Forall (λ m, no_backslash (obfuscated m) = true) mappings →
  hrefs_are_str (parse_html content) →
  ∃ out, process_html_content parse_html soup_to_string content mappings
           css_files output_suffix = Ok out.
Proof.
  intros Hms Hsoup. unfold process_html_content.
  destruct (rewrite_soup_returns _ _ css_files output_suffix Hms Hsoup) as [soup' ->].
  simpl. eauto.
Qed.

(** ** The rewriter on a small document *)

Example rewrite_soup_page :
  rewrite_soup Example.page Example.page_mappings ["site/css/style.css"] "_obfuscated"
  = Ok Example.page_rewritten.
Proof. vm_compute. reflexivity. Qed.

(** ** C4: the frame of the HTML rewriter *)



(** ** C5: the tokens of the class attributes *)



(** ** The orchestrator *)

Lemma quiet_refl s : quiet s s.
Proof.
  repeat split; try reflexivity. exists []. rewrite app_nil_r. split; [reflexivity | constructor].
Qed.

Lemma quiet_trans s1 s2 s3 : quiet s1 s2 → quiet s2 s3 → quiet s1 s3.
Proof.
  intros (F1 & D1 & (l1 & L1 & R1) & C1 & H1 & B1) (F2 & D2 & (l2 & L2 & R2) & C2 & H2 & B2).
  repeat split; try congruence.
  exists (l1 ++ l2). split; [rewrite L2, L1, app_assoc; reflexivity|].
  apply Forall_app. split; assumption.
Qed.

Lemma quiet_ret {A} (a : A) : quiet_m (ret a).
Proof. intros s. apply quiet_refl. Qed.

Lemma quiet_raise {A} e : quiet_m (@raise state A e).
Proof. intros s. apply quiet_refl. Qed.

Lemma quiet_lift {A} (r : result A) : quiet_m (lift r).
Proof. intros s. apply quiet_refl. Qed.

Lemma quiet_bind {A B} (m : M state A) (k : A → M state B) :
  quiet_m m → (∀ a, quiet_m (k a)) → quiet_m (bind m k).
Proof.
  intros Hm Hk s. unfold bind. specialize (Hm s).
  destruct (m s) as [[a|e] s']; simpl in *; [|assumption].
  eapply quiet_trans; [exact Hm | apply Hk].
Qed.

Lemma quiet_try_except {A} (m : M state A) (h : exn → M state A) :
  quiet_m m → (∀ e, quiet_m (h e)) → quiet_m (try_except m h).
Proof.
  intros Hm Hh s. unfold try_except. specialize (Hm s).
  destruct (m s) as [[a|e] s']; simpl in *; [assumption|].
  eapply quiet_trans; [exact Hm | apply Hh].
Qed.

Lemma quiet_for_loop {A X} (l : list X) (body : X → A → M state A) a :
  (∀ x a, quiet_m (body x a)) → quiet_m (for_loop l body a).
Proof.
  intros Hb. revert a. induction l as [|x l IH]; intros a; simpl.
  - apply quiet_ret.
  - apply quiet_bind; [apply Hb | assumption].
Qed.

Lemma quiet_read_text f : quiet_m (read_text f).
Proof.
  intros [w st]. unfold read_text, bind, log_event. simpl.
  destruct (files w !! f); simpl;
    (repeat split; try reflexivity; exists [Read f];
     split; [reflexivity | repeat constructor; exists f; reflexivity]).
Qed.

Lemma quiet_add_error msg : quiet_m (add_error msg).
Proof.
  intros [w st]. repeat split; try reflexivity.
  exists []. simpl. rewrite app_nil_r. split; [reflexivity | constructor].
Qed.

Lemma quiet_set_mappings ms : quiet_m (set_mappings ms).
Proof.
  intros [w st]. repeat split; try reflexivity.
  exists []. simpl. rewrite app_nil_r. split; [reflexivity | constructor].
Qed.

Lemma quiet_scan_project_files folder extensions :
  quiet_m (scan_project_files folder extensions).
Proof.
  intros [w st]. unfold scan_project_files.
  destruct (decide _); apply quiet_refl.
Qed.

Create HintDb quiet.
#[local] Hint Resolve quiet_ret quiet_raise quiet_lift quiet_read_text
  quiet_add_error quiet_set_mappings quiet_scan_project_files : quiet.

(** Splits a computation at its binds and handlers, down to the steps
    that the hints know. *)
Ltac quiet_steps :=
  repeat match goal with
    | |- ∀ _, quiet_m _ => intro
    | |- quiet_m (bind _ _) => apply quiet_bind
    | |- quiet_m (try_except _ _) => apply quiet_try_except
    | |- quiet_m (for_loop _ _ _) => apply quiet_for_loop
    end;
  auto with quiet.

Section OrchestratorFacts.
Variable parse_stylesheet : string → list css_rule.
Variable parse_html : string → node.
Variable soup_to_string : node → string.

Lemma quiet_scan_css f acc : quiet_m (scan_css parse_stylesheet f acc).
Proof. unfold scan_css. quiet_steps. Qed.

Lemma quiet_scan_html f acc :
  quiet_m (scan_html parse_stylesheet parse_html f acc).
Proof. unfold scan_html. quiet_steps. Qed.

(** With [create_backup] set, the work on a file stops at the call of the
    [bool]: the error is recorded and nothing else is done. *)
Lemma obfuscate_css_backup mappings output_suffix css_file s :
  obfuscate_css mappings output_suffix true css_file () s
  = add_error ("CSS process error: " +:+ css_file
               +:+ " - 'bool' object is not callable") s.
Proof. reflexivity. Qed.

Lemma obfuscate_html_backup mappings css_files output_suffix html_file s :
  obfuscate_html parse_html soup_to_string mappings css_files output_suffix
    true html_file () s
  = add_error ("HTML process error: " +:+ html_file
               +:+ " - 'bool' object is not callable") s.
Proof. reflexivity. Qed.

Lemma quiet_body_backup folder_path output_suffix extensions method exclude_classes :
  quiet_m (obfuscate_website_body parse_stylesheet parse_html soup_to_string
             folder_path output_suffix extensions method exclude_classes true).
Proof.
  unfold obfuscate_website_body.
  apply quiet_bind; [apply quiet_scan_project_files | intros all_files].
  apply quiet_bind; [apply quiet_for_loop; intros; apply quiet_scan_css | intros acc1].
  apply quiet_bind; [apply quiet_for_loop; intros; apply quiet_scan_html | intros acc2].
  destruct (decide (acc2 = ∅)); [apply quiet_ret|].
  apply quiet_bind; [apply quiet_lift | intros mappings].
  apply quiet_bind; [apply quiet_set_mappings | intros _].
  apply quiet_bind; [|intros _].
  - apply quiet_for_loop. intros f [] s.
    rewrite obfuscate_css_backup. apply quiet_add_error.
  - apply quiet_for_loop. intros f [] s.
    rewrite obfuscate_html_backup. apply quiet_add_error.
Qed.

(** The statistics are always returned: no exception leaves
    [obfuscate_website]. *)
Lemma obfuscate_website_returns folder_path output_suffix extensions method
    exclude_classes create_backup w :
  ∃ st, fst (obfuscate_website parse_stylesheet parse_html soup_to_string
               folder_path output_suffix extensions method exclude_classes
               create_backup w) = Ok st.
Proof.
  unfold obfuscate_website, try_except.
  destruct (obfuscate_website_body _ _ _ _ _ _ _ _ _ _) as [[[]|e] [w' st]]; simpl.
  - eauto.
  - unfold add_error, update_stats. simpl. eauto.
Qed.
End OrchestratorFacts.

Lemma scan_project_files_ok folder_path extensions w st :
  Path.to_string (Path.parse folder_path) ∈ dirs w →
  scan_project_files folder_path extensions (w, st)
  = (Ok (project_files w folder_path extensions), (w, st)).
Proof.
  intros Hd. unfold scan_project_files, project_files.
  rewrite decide_True by assumption. reflexivity.
Qed.

Lemma scan_project_files_raises folder_path extensions w st :
  Path.to_string (Path.parse folder_path) ∉ dirs w →
  scan_project_files folder_path extensions (w, st)
  = (Raise (ValueError (not_a_directory folder_path)), (w, st)).
Proof.
  intros Hd. unfold scan_project_files.
  rewrite decide_False by assumption. reflexivity.
Qed.

Lemma build_loop_invalid method exclude classes st c :
  ¬ valid_method method → c ∈ classes → kept exclude c = true →
  build_loop method exclude st classes = Raise (ValueError (unknown_method method)).
Proof.
  intros Hm Hc Hk. revert st.
  induction classes as [|x classes IH]; intros st; [inversion Hc|].
  simpl. destruct (kept exclude x) eqn:Hx.
  - destruct st as [ms used]. unfold build_step. unfold kept in Hx.
    apply negb_true_iff in Hx. rewrite Hx.
    apply orb_false_iff in Hx as [Hne _]. apply bool_decide_eq_false in Hne.
    rewrite (obfuscate_identifier_invalid _ _ Hm Hne). reflexivity.
  - rewrite (build_step_skipped _ _ _ _ Hx). simpl.
    apply IH. inversion Hc; subst; [congruence | assumption].
Qed.

Lemma build_class_mapping_invalid method (exclude all_classes : gset string) c :
  ¬ valid_method method → c ∈ all_classes → c ≠ "" → c ∉ exclude →
  build_class_mapping all_classes method exclude
  = Raise (ValueError (unknown_method method)).
Proof.
  intros Hm Hc Hne Hex. unfold build_class_mapping.
  rewrite (build_loop_invalid method exclude _ _ c Hm); [reflexivity| |].
  - apply elem_of_sorted_classes. assumption.
  - unfold kept. rewrite bool_decide_eq_false_2, bool_decide_eq_false_2 by assumption.
    reflexivity.
Qed.

Lemma read_text_eq f w st :
  read_text f (w, st)
  = (match files w !! f with
     | Some content => Ok content
     | None => Raise (OSError ("[Errno 2] No such file or directory: '" +:+ f +:+ "'"))
     end,
     (World (files w) (dirs w) (log w ++ [Read f]), st)).
Proof.
  unfold read_text, bind, log_event. simpl. destruct (files w !! f); reflexivity.
Qed.

(** A scan loop returns a set that holds what it was given and the
    classes of every file of the list that can be read. *)
Lemma scan_loop_acc (body : string → gset string → M state (gset string))
    (extract : string → gset string) l acc s :
  (∀ f acc, quiet_m (body f acc)) →
  (∀ f acc s, ∃ acc', fst (body f acc s) = Ok acc' ∧ acc ⊆ acc'
      ∧ ∀ content, files (fst s) !! f = Some content → extract content ⊆ acc') →
  ∃ acc', fst (for_loop l body acc s) = Ok acc'
        ∧ acc ⊆ acc'
        ∧ ∀ f content, f ∈ l → files (fst s) !! f = Some content →
            extract content ⊆ acc'.
Proof.
  intros Hq Hb. revert acc s. induction l as [|f l IH]; intros acc s; simpl.
  - exists acc. split; [reflexivity|]. split; [reflexivity|].
    intros f content Hf. inversion Hf.
  - unfold bind. destruct (Hb f acc s) as (acc1 & E1 & Hsub1 & Hf1).
    pose proof (Hq f acc s) as Hquiet.
    destruct (body f acc s) as [r1 s1]. simpl in E1, Hquiet. subst r1.
    destruct (IH acc1 s1) as (acc' & E & Hsub & Hl).
    exists acc'. split; [assumption|]. split; [etrans; eassumption|].
    destruct Hquiet as (Hfiles & _).
    intros g content Hg Hread. apply elem_of_cons in Hg as [->|Hg].
    + etrans; [apply Hf1; assumption | assumption].
    + apply (Hl g content); [assumption | rewrite Hfiles; assumption].
Qed.

Lemma scan_css_acc (parse_stylesheet : string → list css_rule) f acc s :
  ∃ acc', fst (scan_css parse_stylesheet f acc s) = Ok acc'
        ∧ acc ⊆ acc'
        ∧ ∀ content, files (fst s) !! f = Some content →
            extract_classes_from_css parse_stylesheet content ⊆ acc'.
Proof.
  destruct s as [w st].
  unfold scan_css, try_except. unfold bind at 1. rewrite read_text_eq.
  cbn [fst]. destruct (files w !! f) as [content|]; simpl.
  - eexists. split; [reflexivity|]. split; [apply union_subseteq_l|].
    intros content' E. injection E as <-. apply union_subseteq_r.
  - eexists. split; [reflexivity|]. split; [reflexivity | discriminate].
Qed.

Lemma scan_html_acc (parse_stylesheet : string → list css_rule)
    (parse_html : string → node) f acc s :
  ∃ acc', fst (scan_html parse_stylesheet parse_html f acc s) = Ok acc'
        ∧ acc ⊆ acc'
        ∧ ∀ content, files (fst s) !! f = Some content →
            extract_classes_from_html parse_stylesheet parse_html content ⊆ acc'.
Proof.
  destruct s as [w st].
  unfold scan_html, try_except. unfold bind at 1. rewrite read_text_eq.
  cbn [fst]. destruct (files w !! f) as [content|]; simpl.
  - eexists. split; [reflexivity|]. split; [apply union_subseteq_l|].
    intros content' E. injection E as <-. apply union_subseteq_r.
  - eexists. split; [reflexivity|]. split; [reflexivity | discriminate].
Qed.

(** ** The orchestrator on a small project *)

Example obfuscate_website_plain :
  fst (ExampleProject.run "site" "shift" false)
  = Ok (Stats [("site/style.css", "site/style_obfuscated.css")]
          [("site/index.html", "site/index_obfuscated.html")]
          1 [Build_ClassMapping "box" "era"] [] [])
  ∧ files (snd (ExampleProject.run "site" "shift" false)) !! "site/style_obfuscated.css"
    = Some ".era{}"
  ∧ files (snd (ExampleProject.run "site" "shift" false)) !! "site/index_obfuscated.html"
    = Some ("<div class=" +:+ Example.quote +:+ "era" +:+ Example.quote +:+ "></div>").
Proof. vm_compute. repeat split; reflexivity. Qed.

(** ** C6: the backup mode *)

(** C6 (the code departs from it).  The claim wants, with [create_backup]
    set, a copy of every input at [<path>.backup], its path in
    [backups_created], and the rewritten file all the same.  In
    [obfuscate_website] the name [create_backup] is the [bool] parameter, so
    the call [create_backup(css_file)] raises [TypeError] for every file:
    whatever the project, no backup is listed, no file is listed as
    processed, and the files are as they were, nothing being copied or
    written. *)
Theorem obfuscate_website_backup_nothing_done
    (parse_stylesheet : string → list css_rule) (parse_html : string → node)
    (soup_to_string : node → string) (folder_path output_suffix : string)
    (extensions : option (list string)) (method : string)
    (exclude_classes : list string) (w : world) :
  ∃ st w',
    obfuscate_website parse_stylesheet parse_html soup_to_string folder_path
      output_suffix extensions method exclude_classes true w = (Ok st, w')
    ∧ backups_created st = []
    ∧ processed_css_files st = []
    ∧ processed_html_files st = []
    ∧ files w' = files w
    ∧ dirs w' = dirs w
    ∧ ∃ l, log w' = log w ++ l ∧ Forall is_read l.
Proof.
  unfold obfuscate_website.
  pose proof (quiet_try_except _ _
    (quiet_body_backup parse_stylesheet parse_html soup_to_string folder_path
       output_suffix extensions method exclude_classes)
    (λ e, quiet_add_error (exn_str e)) (w, empty_stats)) as Hq.
  pose proof (obfuscate_website_returns parse_stylesheet parse_html soup_to_string
    folder_path output_suffix extensions method exclude_classes true w) as [st0 Hr].
  unfold obfuscate_website in Hr.
  match goal with
  | |- context [try_except ?m ?h (w, empty_stats)] =>
      destruct (try_except m h (w, empty_stats)) as [r [w' st]]
  end.
  simpl in Hq, Hr. destruct r as [[]|e]; simpl in *; [|discriminate].
  exists st, w'. destruct Hq as (F & D & L & C & H & B).
  repeat split; assumption.
Qed.

(** The project of the example with the backup mode: two errors, no
    backup, no output. *)
Example obfuscate_website_backup_example :
  fst (ExampleProject.run "site" "shift" true)
  = Ok (Stats [] [] 1 [Build_ClassMapping "box" "era"]
          ["CSS process error: site/style.css - 'bool' object is not callable";
           "HTML process error: site/index.html - 'bool' object is not callable"]
          [])
  ∧ files (snd (ExampleProject.run "site" "shift" true)) !! "site/style.css.backup" = None
  ∧ files (snd (ExampleProject.run "site" "shift" true)) !! "site/style_obfuscated.css" = None.
Proof. vm_compute. repeat split; reflexivity. Qed.

(** The function [create_backup] of the module does what the claim says,
    when it is called. *)
Example create_backup_function :
  let '(r, (w, _)) := create_backup "site/style.css" (ExampleProject.w0, empty_stats) in
  r = Ok (Some "site/style.css.backup")
  ∧ files w !! "site/style.css.backup" = Some ".box{}".
Proof. vm_compute. split; reflexivity. Qed.

(** ** C7: a folder that is no directory, a method that is unknown *)

(** A folder that is no directory: the statistics are returned, with the
    error in them; an unknown method: the files are read before the error,
    which is returned in the statistics too. *)
Lemma obfuscate_website_errors_returned :
  ExampleProject.run "nowhere" "shift" false
  = (Ok (Stats [] [] 0 [] ["'nowhere' is not a valid directory"] []),
     ExampleProject.w0)
  ∧ fst (ExampleProject.run "site" "rot13" false)
    = Ok (Stats [] [] 0 [] ["Unknown obfuscation method: 'rot13'"] [])
  ∧ log (snd (ExampleProject.run "site" "rot13" false))
    = [Read "site/style.css"; Read "site/index.html"].
Proof. vm_compute. repeat split; reflexivity. Qed.

Lemma obfuscate_website_unknown_method
    (parse_stylesheet : string → list css_rule) (parse_html : string → node)
    (soup_to_string : node → string) (folder_path output_suffix : string)
    (extensions : option (list string)) (method : string)
    (exclude_classes : list string) (create_backup : bool) (w : world)
    (f content c : string) :
  ¬ valid_method method →
  Path.to_string (Path.parse folder_path) ∈ dirs w →
  files w !! f = Some content → c ≠ "" → c ∉ exclude_classes →
  (f ∈ css_files_of w folder_path extensions
   ∧ c ∈ extract_classes_from_css parse_stylesheet content)
  ∨ (f ∈ html_files_of w folder_path extensions
     ∧ c ∈ extract_classes_from_html parse_stylesheet parse_html content) →
  ∃ st w',
    obfuscate_website parse_stylesheet parse_html soup_to_string folder_path
      output_suffix extensions method exclude_classes create_backup w
    = (Ok st, w')
    ∧ last (errors st) = Some (unknown_method method)
    ∧ quiet (w, empty_stats) (w', st).
Proof.
  intros Hm Hd Hread Hne Hex Hfound.
  unfold obfuscate_website, try_except.
  unfold obfuscate_website_body. unfold bind at 1.
  rewrite scan_project_files_ok by assumption.
  fold (css_files_of w folder_path extensions).
  fold (html_files_of w folder_path extensions).
  unfold bind at 1.
  destruct (scan_loop_acc (scan_css parse_stylesheet)
              (extract_classes_from_css parse_stylesheet)
              (css_files_of w folder_path extensions) ∅ (w, empty_stats)
              (quiet_scan_css parse_stylesheet)
              (scan_css_acc parse_stylesheet))
    as (acc1 & E1 & _ & Hcss).
  pose proof (quiet_for_loop (css_files_of w folder_path extensions)
                (scan_css parse_stylesheet) (∅ : gset string)
                (quiet_scan_css parse_stylesheet) (w, empty_stats)) as Q1.
  destruct (for_loop (css_files_of w folder_path extensions)
              (scan_css parse_stylesheet) (∅ : gset string) (w, empty_stats))
    as [r1 s1]. simpl in E1, Q1. subst r1.
  unfold bind at 1.
  destruct (scan_loop_acc (scan_html parse_stylesheet parse_html)
              (extract_classes_from_html parse_stylesheet parse_html)
              (html_files_of w folder_path extensions) acc1 s1
              (quiet_scan_html parse_stylesheet parse_html)
              (scan_html_acc parse_stylesheet parse_html))
    as (acc2 & E2 & Hsub & Hhtml).
  pose proof (quiet_for_loop (html_files_of w folder_path extensions)
                (scan_html parse_stylesheet parse_html) acc1
                (quiet_scan_html parse_stylesheet parse_html) s1) as Q2.
  destruct (for_loop (html_files_of w folder_path extensions)
              (scan_html parse_stylesheet parse_html) acc1 s1)
    as [r2 s2]. simpl in E2, Q2. subst r2.
  assert (c ∈ acc2) as Hc.
  { destruct Hfound as [[Hf Hcf] | [Hf Hcf]].
    - apply Hsub. apply (Hcss f content Hf Hread). assumption.
    - apply (Hhtml f content Hf); [|assumption].
      destruct Q1 as (-> & _). assumption. }
  destruct (decide (acc2 = ∅)) as [->|_];
    [exfalso; apply (not_elem_of_empty (C := gset string) c); assumption|].
  unfold bind at 1, lift.
  rewrite (build_class_mapping_invalid method _ acc2 c Hm Hc Hne)
    by (rewrite elem_of_list_to_set; assumption).
  pose proof (quiet_trans _ _ _ Q1 Q2) as Q.
  destruct s2 as [w2 st2].
  exists (Stats (processed_css_files st2) (processed_html_files st2)
            (total_classes st2) (class_mappings st2)
            (errors st2 ++ [unknown_method method]) (backups_created st2)), w2.
  split; [reflexivity|]. split; [apply last_snoc|].
  eapply quiet_trans; [exact Q|]. apply (quiet_add_error _ (w2, st2)).
Qed.

(** C7, amended.  [obfuscate_website] never raises: it returns the
    statistics.  With a folder that is no directory it reads and writes
    nothing and the statistics hold the one error ['<folder>' is not a valid
    directory].  With a method other than shift, hash and hex, when a file
    of the project that can be read has a class that is not empty and not
    excluded, the files are read, none is written or copied, none is listed
    as processed, and the last error of the statistics is [Unknown
    obfuscation method: '<method>']. *)
Theorem obfuscate_website_fatal_errors
    (parse_stylesheet : string → list css_rule) (parse_html : string → node)
    (soup_to_string : node → string) (folder_path output_suffix : string)
    (extensions : option (list string)) (method : string)
    (exclude_classes : list string) (create_backup : bool) (w : world) :
  let run :=
    obfuscate_website parse_stylesheet parse_html soup_to_string folder_path
      output_suffix extensions method exclude_classes create_backup w in
  (∃ st, fst run = Ok st)
  ∧ (Path.to_string (Path.parse folder_path) ∉ dirs w →
     run = (Ok (Stats [] [] 0 [] [not_a_directory folder_path] []), w))
  ∧ (¬ valid_method method →
     Path.to_string (Path.parse folder_path) ∈ dirs w →
     (∃ f content c,
        files w !! f = Some content ∧ c ≠ "" ∧ (c ∉ exclude_classes)
        ∧ ((f ∈ css_files_of w folder_path extensions
            ∧ c ∈ extract_classes_from_css parse_stylesheet content)
           ∨ (f ∈ html_files_of w folder_path extensions
              ∧ c ∈ extract_classes_from_html parse_stylesheet parse_html content))) →
     ∃ st, fst run = Ok st
         ∧ last (errors st) = Some (unknown_method method)
         ∧ processed_css_files st = []
         ∧ processed_html_files st = []
         ∧ backups_created st = []
         ∧ files (snd run) = files w
         ∧ dirs (snd run) = dirs w
         ∧ ∃ l, log (snd run) = log w ++ l ∧ Forall is_read l).
Proof.
  intros run. split; [apply obfuscate_website_returns|]. split.
  - intros Hd. subst run. unfold obfuscate_website, try_except.
    unfold obfuscate_website_body. unfold bind at 1.
    rewrite scan_project_files_raises by assumption. reflexivity.
  - intros Hm Hd (f & content & c & Hread & Hne & Hex & Hfound).
    destruct (obfuscate_website_unknown_method parse_stylesheet parse_html
                soup_to_string folder_path output_suffix extensions method
                exclude_classes create_backup w f content c
                Hm Hd Hread Hne Hex Hfound)
      as (st & w' & Hrun & Hlast & (F & D & L & C & H & B)).
    subst run. rewrite Hrun. simpl in *.
    exists st. repeat split; assumption.
Qed.

(** * Further properties *)

(** ** The hex method *)

Lemma unhex_hex_digit x : 0 ≤ x < 16 → unhex_digit (hex_digit x) = Some x.
Proof.
  intros H.
  assert (x = 0 ∨ x = 1 ∨ x = 2 ∨ x = 3 ∨ x = 4 ∨ x = 5 ∨ x = 6 ∨ x = 7 ∨ x = 8
          ∨ x = 9 ∨ x = 10 ∨ x = 11 ∨ x = 12 ∨ x = 13 ∨ x = 14 ∨ x = 15) as Hx by lia.
  repeat (destruct Hx as [->|Hx]; [reflexivity|]). subst x. reflexivity.
Qed.

Lemma unhex_bytes_hex bs :
  Forall (λ b, 0 ≤ b < 256) bs → unhex (bytes_hex bs) = Some bs.
Proof.
  induction 1 as [|b bs Hb _ IH]; [reflexivity|].
  cbn [bytes_hex unhex]. rewrite IH.
  rewrite Z.shiftr_div_pow2 by lia. change 15 with (Z.ones 4).
  rewrite Z.land_ones by lia. change (2 ^ 4) with 16.
  rewrite !unhex_hex_digit.
  - f_equal. f_equal. pose proof (Z.div_mod b 16). lia.
  - apply Z.mod_pos_bound. lia.
  - split; [apply Z.div_pos; lia | apply Z.div_lt_upper_bound; lia].
Qed.

Lemma utf8_char_bytes c : Forall (λ b, 0 ≤ b < 256) (utf8_char c).
Proof.
  destruct c as [[] [] [] [] [] [] [] []]; vm_compute;
    repeat constructor; discriminate.
Qed.

Lemma encode_utf8_bytes s : Forall (λ b, 0 ≤ b < 256) (encode_utf8 s).
Proof.
  induction s as [|c s IH]; [constructor|].
  simpl. apply Forall_app. split; [apply utf8_char_bytes | exact IH].
Qed.

Lemma decode_utf8_char c rest :
  decode_utf8 (utf8_char c ++ rest) = option_map (String c) (decode_utf8 rest).
Proof. destruct c as [[] [] [] [] [] [] [] []]; reflexivity. Qed.

Lemma decode_encode_utf8 s : decode_utf8 (encode_utf8 s) = Some s.
Proof.
  induction s as [|c s IH]; [reflexivity|].
  simpl. rewrite decode_utf8_char, IH. reflexivity.
Qed.

Lemma encode_utf8_inj s s' : encode_utf8 s = encode_utf8 s' → s = s'.
Proof.
  intros H. apply (f_equal decode_utf8) in H.
  rewrite !decode_encode_utf8 in H. congruence.
Qed.

Lemma bytes_hex_encode_inj s s' :
  bytes_hex (encode_utf8 s) = bytes_hex (encode_utf8 s') → s = s'.
Proof.
  intros H. apply (f_equal unhex) in H.
  rewrite !unhex_bytes_hex in H by apply encode_utf8_bytes.
  apply encode_utf8_inj. congruence.
Qed.

Lemma obfuscate_hex_eq s :
  obfuscate_identifier s "hex"
  = Ok (if decide (s = "") then "" else String "c" (bytes_hex (encode_utf8 s))).
Proof.
  unfold obfuscate_identifier. destruct (decide (s = "")) as [->|]; reflexivity.
Qed.

Lemma obfuscate_hex_inj s s' r :
  obfuscate_identifier s "hex" = Ok r → obfuscate_identifier s' "hex" = Ok r → s = s'.
Proof.
  rewrite !obfuscate_hex_eq.
  destruct (decide (s = "")) as [->|Hs], (decide (s' = "")) as [->|Hs'];
    intros H1 H2; simplify_eq; try reflexivity.
  apply bytes_hex_encode_inj. congruence.
Qed.

(** X1.  The hex method can be undone and never gives two identifiers the
    same name: for every identifier it returns a name; when the identifier
    is not empty the name is the letter [c] followed by hexadecimal digits
    that read back, two a byte, as the UTF-8 bytes of the identifier, which
    decode to the identifier; and no other identifier gets that name. *)
Theorem hex_method_round_trip (s : string) :
  ∃ r, obfuscate_identifier s "hex" = Ok r
     ∧ (s ≠ "" → ∃ h, r = String "c" h
                    ∧ String.length h = (2 * length (encode_utf8 s))%nat
                    ∧ unhex h = Some (encode_utf8 s)
                    ∧ decode_utf8 (encode_utf8 s) = Some s)
     ∧ ∀ s', obfuscate_identifier s' "hex" = Ok r → s' = s.
Proof.
  eexists. split; [apply obfuscate_hex_eq|]. split.
  - intros Hs. rewrite decide_False by assumption.
    eexists. split; [reflexivity|]. split; [apply length_bytes_hex|].
    split; [apply unhex_bytes_hex, encode_utf8_bytes | apply decode_encode_utf8].
  - intros s' H. eapply obfuscate_hex_inj; [exact H | apply obfuscate_hex_eq].
Qed.

(** ** The shift method *)

Lemma shift_char_inj k c c' :
  not_alpha_or_ascii c = true → not_alpha_or_ascii c' = true →
  shift_char k c = shift_char k c' → c = c'.
Proof.
  assert (Hmod : ∀ a a', 0 ≤ a < 26 → 0 ≤ a' < 26 →
                 (a + k) mod 26 = (a' + k) mod 26 → a = a').
  { intros a a' Ha Ha' H.
    pose proof (Z.div_mod (a + k) 26 ltac:(lia)).
    pose proof (Z.div_mod (a' + k) 26 ltac:(lia)). lia. }
  assert (Himg : ∀ d, Py.isalpha d = true → Py.isalpha (shift_char k d) = true).
  { intros d Hd. pose proof (shift_char_case k d Hd) as Hc.
    destruct (Py.isupper d).
    - apply isupper_isalpha, ascii_upper_isupper, Hc.
    - apply ascii_lower_isalpha, Hc. }
  unfold not_alpha_or_ascii. intros Hc Hc' He.
  destruct (Py.isalpha c) eqn:Ha, (Py.isalpha c') eqn:Ha'.
  - simpl in Hc, Hc'. apply ord_inj.
    pose proof (shift_char_alpha k c Ha) as Ho.
    pose proof (shift_char_alpha k c' Ha') as Ho'.
    pose proof (shift_char_case k c Ha) as Hk.
    pose proof (shift_char_case k c' Ha') as Hk'.
    rewrite He in Ho, Hk. rewrite Ho' in Ho. clear Ho'.
    unfold shift_base in Ho. unfold Py.is_ascii_letter in Hc, Hc'.
    unfold Py.is_ascii_upper, Py.is_ascii_lower, Py.isupper in *.
    rewrite orb_true_iff, !between_spec in Hc, Hc'.
    destruct (Py.between 65 90 (Py.ord c) || Py.between 192 214 (Py.ord c)
              || Py.between 216 222 (Py.ord c)) eqn:Hu,
             (Py.between 65 90 (Py.ord c') || Py.between 192 214 (Py.ord c')
              || Py.between 216 222 (Py.ord c')) eqn:Hu';
      rewrite ?orb_true_iff, ?orb_false_iff, ?between_spec, ?between_false in *.
    + assert (Py.ord c - 65 = Py.ord c' - 65); [apply Hmod; lia | lia].
    + lia.
    + lia.
    + assert (Py.ord c - 97 = Py.ord c' - 97); [apply Hmod; lia | lia].
  - rewrite (shift_char_not_alpha k c' Ha') in He.
    apply Himg in Ha. congruence.
  - rewrite (shift_char_not_alpha k c Ha) in He.
    apply Himg in Ha'. congruence.
  - rewrite !shift_char_not_alpha in He by assumption. exact He.
Qed.

Lemma str_map_shift_inj k s s' :
  ascii_letters_only s → ascii_letters_only s' →
  Py.str_map (shift_char k) s = Py.str_map (shift_char k) s' → s = s'.
Proof.
  unfold ascii_letters_only. revert s'.
  induction s as [|c s IH]; intros [|c' s']; simpl; try discriminate; [reflexivity|].
  rewrite !andb_true_iff. intros [Hc Hs] [Hc' Hs'] [= He Hr].
  f_equal; [eapply shift_char_inj; eassumption | apply IH; assumption].
Qed.

Lemma obfuscate_shift_eq s :
  obfuscate_identifier s "shift" = Ok (Py.str_map (shift_char (Py.len s)) s).
Proof.
  unfold obfuscate_identifier. destruct (decide (s = "")) as [->|]; reflexivity.
Qed.

Lemma obfuscate_shift_inj s s' r :
  ascii_letters_only s → ascii_letters_only s' →
  obfuscate_identifier s "shift" = Ok r → obfuscate_identifier s' "shift" = Ok r →
  s = s'.
Proof.
  rewrite !obfuscate_shift_eq. intros Hs Hs' [= <-] [= H].
  assert (Hl : String.length s' = String.length s).
  { rewrite <- (length_str_map (shift_char (Py.len s')) s'), H.
    apply length_str_map. }
  unfold Py.len in H. rewrite Hl in H.
  symmetry. eapply str_map_shift_inj; eassumption.
Qed.

(** X2.  On identifiers whose alphabetic characters are all ASCII letters
    the shift method is injective: two such identifiers with the same
    obfuscated name are the same identifier. *)
Theorem shift_method_injective (s s' r : string) :
  ascii_letters_only s → ascii_letters_only s' →
  obfuscate_identifier s "shift" = Ok r →
  obfuscate_identifier s' "shift" = Ok r →
  s = s'.
Proof. apply obfuscate_shift_inj. Qed.

Lemma shift_method_injective_witness :
  ascii_letters_only "btn" ∧ obfuscate_identifier "btn" "shift" = Ok "ewq"
  ∧ "btn" = "btn".
Proof.
  split; [reflexivity|]. split; [reflexivity|].
  apply (shift_method_injective "btn" "btn" "ewq"); reflexivity.
Defined.

(** X3.  Outside the ASCII letters the shift method is not injective: a
    letter such as e-acute is sent into a-z, where it meets the image of an
    ASCII letter, so two different identifiers can get the same name (here
    the one-letter names e-acute and g, both sent to h). *)
Theorem shift_method_collision :
  ∃ s s' r, s ≠ s' ∧ String.length s = String.length s'
          ∧ obfuscate_identifier s "shift" = Ok r
          ∧ obfuscate_identifier s' "shift" = Ok r.
Proof.
  exists (String e_acute ""), "g", "h".
  split; [discriminate|]. repeat split; reflexivity.
Qed.

Lemma shift_char_inverse k c :
  not_alpha_or_ascii c = true → shift_char (- k) (shift_char k c) = c.
Proof.
  unfold not_alpha_or_ascii. intros Hc.
  destruct (Py.isalpha c) eqn:Ha;
    [|rewrite (shift_char_not_alpha k c Ha); apply shift_char_not_alpha, Ha].
  simpl in Hc. apply ord_inj.
  pose proof (shift_char_alpha k c Ha) as Ho.
  pose proof (shift_char_case k c Ha) as Hk.
  assert (Hd : Py.isalpha (shift_char k c) = true
               ∧ Py.isupper (shift_char k c) = Py.isupper c).
  { destruct (Py.isupper c).
    - split; [apply isupper_isalpha|]; apply ascii_upper_isupper, Hk.
    - apply ascii_lower_isalpha, Hk. }
  destruct Hd as [Hda Hdu].
  rewrite (shift_char_alpha (- k) _ Hda). unfold shift_base in *.
  rewrite Hdu, Ho. unfold Py.is_ascii_letter, Py.is_ascii_upper, Py.is_ascii_lower in Hc.
  rewrite orb_true_iff, !between_spec in Hc.
  assert (Hmod : ∀ a, 0 ≤ a < 26 → ((a + k) mod 26 + - k) mod 26 = a).
  { intros a Ha26. rewrite Zplus_mod_idemp_l.
    replace (a + k + - k) with a by lia. apply Z.mod_small. exact Ha26. }
  destruct (Py.isupper c) eqn:Hu.
  - assert (65 ≤ Py.ord c ≤ 90).
    { unfold Py.isupper in Hu. rewrite !orb_true_iff, !between_spec in Hu. lia. }
    replace (65 + (Py.ord c - 65 + k) mod 26 - 65 + - k)
      with ((Py.ord c - 65 + k) mod 26 + - k) by lia.
    rewrite Hmod by lia. lia.
  - assert (97 ≤ Py.ord c ≤ 122).
    { unfold Py.isupper in Hu.
      rewrite !orb_false_iff, !between_false in Hu. lia. }
    replace (97 + (Py.ord c - 97 + k) mod 26 - 97 + - k)
      with ((Py.ord c - 97 + k) mod 26 + - k) by lia.
    rewrite Hmod by lia. lia.
Qed.

Lemma str_map_shift_inverse k s :
  ascii_letters_only s →
  Py.str_map (shift_char (- k)) (Py.str_map (shift_char k) s) = s.
Proof.
  unfold ascii_letters_only. induction s as [|c s IH]; [reflexivity|].
  simpl. rewrite andb_true_iff. intros [Hc Hs].
  rewrite shift_char_inverse by assumption. rewrite IH by assumption. reflexivity.
Qed.

(** X24.  The shift method can be undone on identifiers whose alphabetic
    characters are all ASCII letters: the result has the length of the
    identifier, and shifting it back by that length, with the same loop
    body, gives the identifier. *)
Theorem shift_method_round_trip (s r : string) :
  ascii_letters_only s →
  obfuscate_identifier s "shift" = Ok r →
  String.length r = String.length s
  ∧ Py.str_map (shift_char (- Py.len r)) r = s.
Proof.
  intros Hs. rewrite obfuscate_shift_eq. intros [= <-].
  assert (Hl : String.length (Py.str_map (shift_char (Py.len s)) s) = String.length s)
    by apply length_str_map.
  split; [exact Hl|].
  unfold Py.len at 1. rewrite Hl. fold (Py.len s).
  apply str_map_shift_inverse. exact Hs.
Qed.

Lemma shift_method_round_trip_witness :
  String.length "ewq" = String.length "btn"
  ∧ Py.str_map (shift_char (- Py.len "ewq")) "ewq" = "btn".
Proof.
  apply (shift_method_round_trip "btn" "ewq"); reflexivity.
Defined.

(** ** The mapping builder *)

Lemma valid_method_dec method : {valid_method method} + {¬ valid_method method}.
Proof.
  unfold valid_method.
  destruct (decide (method = "shift")); [left; tauto|].
  destruct (decide (method = "hash")); [left; tauto|].
  destruct (decide (method = "hex")); [left; tauto|].
  right. tauto.
Qed.

Lemma obfuscate_identifier_ok_valid s method r :
  s ≠ "" → obfuscate_identifier s method = Ok r → valid_method method.
Proof.
  intros Hs H. destruct (valid_method_dec method) as [|Hn]; [assumption|].
  rewrite (obfuscate_identifier_invalid s method Hn Hs) in H. discriminate.
Qed.

Lemma kept_spec exclude c : kept exclude c = true ↔ c ≠ "" ∧ c ∉ exclude.
Proof.
  unfold kept. rewrite negb_true_iff, orb_false_iff, !bool_decide_eq_false.
  tauto.
Qed.

Lemma unique_name_free used raw : raw ∉ used → unique_name used raw = raw.
Proof.
  intros Hfree.
  destruct (unique_name_spec used raw) as (j & _ & Hj & _ & Hbefore).
  destruct j as [|j]; [exact Hj|].
  exfalso. apply Hfree. apply (Hbefore 0%nat). lia.
Qed.

Lemma build_inv_nil method : build_inv method ([], ∅).
Proof. repeat split; simpl; constructor. Qed.

Lemma build_inv_step method ms used c raw :
  build_inv method (ms, used) →
  obfuscate_identifier c method = Ok raw →
  build_inv method
    ((ms ++ [Build_ClassMapping c (unique_name used raw)])%list,
     {[unique_name used raw]} ∪ used).
Proof.
  intros (Hused & Hnd & Hdis) Hraw. simpl in *.
  destruct (unique_name_spec used raw) as (j & _ & Hj & Hnew & Hbefore).
  repeat split; simpl.
  - rewrite map_app, list_to_set_app_L. simpl. subst used.
    rewrite (right_id_L ∅ (∪)). apply (comm_L (∪)).
  - rewrite map_app. simpl. apply NoDup_app. split; [assumption|].
    split; [|apply NoDup_singleton].
    intros x Hx Hx'. apply list_elem_of_singleton in Hx'. subst x.
    apply Hnew. subst used. apply elem_of_list_to_set. assumption.
  - rewrite map_app. apply Forall_app. split.
    + eapply Forall_impl; [exact Hdis|]. intros m.
      apply disambiguated_mono. intros x Hx. apply elem_of_app. left. assumption.
    + constructor; [|constructor]. exists raw, j. simpl.
      repeat split; try assumption. intros i Hi.
      apply elem_of_app. left.
      specialize (Hbefore i Hi). subst used.
      apply elem_of_list_to_set in Hbefore. assumption.
Qed.

(** Whatever the method, a state that the loop returns keeps the
    invariant. *)
Lemma build_loop_ok method exclude classes st st' :
  build_inv method st →
  build_loop method exclude st classes = Ok st' →
  build_inv method st'.
Proof.
  revert st. induction classes as [|c classes IH]; intros st Hinv; simpl.
  - intros [= <-]. assumption.
  - destruct (kept exclude c) eqn:Hk.
    + destruct st as [ms used].
      destruct (obfuscate_identifier c method) as [raw|e] eqn:Hraw.
      * rewrite (build_step_kept _ _ _ _ _ _ Hk Hraw). simpl.
        apply IH. apply build_inv_step; assumption.
      * unfold build_step. unfold kept in Hk. apply negb_true_iff in Hk.
        rewrite Hk, Hraw. discriminate.
    + rewrite (build_step_skipped _ _ _ _ Hk). simpl. apply IH. assumption.
Qed.

Lemma build_loop_no_kept method exclude classes st :
  Forall (λ c, kept exclude c = false) classes →
  build_loop method exclude st classes = Ok st.
Proof.
  induction 1 as [|c classes Hc _ IH]; simpl; [reflexivity|].
  rewrite (build_step_skipped _ _ _ _ Hc). exact IH.
Qed.

(** What a returned list is like, for any method name. *)
Lemma build_class_mapping_ok all_classes method exclude ms :
  build_class_mapping all_classes method exclude = Ok ms →
  NoDup (map obfuscated ms)
  ∧ (∀ m, m ∈ ms → disambiguated method (map obfuscated ms) m)
  ∧ NoDup (map original ms)
  ∧ (∀ c, c ∈ map original ms ↔ c ∈ all_classes ∧ kept exclude c = true).
Proof.
  unfold build_class_mapping.
  destruct (build_loop method exclude ([], ∅) (sorted_classes all_classes))
    as [[ms0 used]|e] eqn:Hloop; simpl; [|discriminate].
  intros [= <-].
  pose proof (build_loop_ok _ _ _ _ _ (build_inv_nil method) Hloop)
    as (Hused & Hnd & Hdis).
  pose proof (build_loop_originals _ _ _ _ _ Hloop) as Horig.
  simpl in *.
  pose proof (py_sorted_perm by_length_desc ms0) as Hperm.
  assert (map original (py_sorted by_length_desc ms0) ≡ₚ map original ms0) as Hpo
    by (apply Permutation_map; assumption).
  assert (map obfuscated (py_sorted by_length_desc ms0) ≡ₚ map obfuscated ms0) as Hpb
    by (apply Permutation_map; assumption).
  split; [rewrite Hpb; assumption|].
  split; [|split].
  - intros m Hin. rewrite Hperm in Hin. rewrite Forall_forall in Hdis.
    eapply disambiguated_mono; [|apply Hdis; assumption].
    intros x Hx. rewrite Hpb. assumption.
  - rewrite Hpo, Horig. apply NoDup_filter.
    unfold sorted_classes. rewrite py_sorted_perm. apply NoDup_elements.
  - intros c. rewrite Hpo, Horig, list_elem_of_filter, elem_of_sorted_classes.
    tauto.
Qed.

(** X4.  [build_class_mapping] raises exactly when the method is none of
    shift, hash and hex and some class of the set is neither empty nor
    excluded; what it raises then is the ValueError of
    [obfuscate_identifier] for the unknown method.  With no such class it
    returns the empty list, whatever the method. *)
Theorem build_class_mapping_raises_iff (all_classes : gset string)
    (method : string) (exclude : gset string) :
  ((∃ e, build_class_mapping all_classes method exclude = Raise e)
   ↔ ¬ valid_method method
     ∧ ∃ c, c ∈ all_classes ∧ c ≠ "" ∧ c ∉ exclude)
  ∧ (∀ e, build_class_mapping all_classes method exclude = Raise e →
          e = ValueError ("Unknown obfuscation method: '" +:+ method +:+ "'"))
  ∧ ((∀ c, c ∈ all_classes → c = "" ∨ c ∈ exclude) →
     build_class_mapping all_classes method exclude = Ok []).
Proof.
  assert (Hnone : (∀ c, c ∈ all_classes → kept exclude c = false) →
                  build_class_mapping all_classes method exclude = Ok []).
  { intros H. unfold build_class_mapping.
    rewrite build_loop_no_kept; [reflexivity|].
    apply Forall_forall. intros c Hc. apply H, elem_of_sorted_classes, Hc. }
  assert (Hraise : (∃ e, build_class_mapping all_classes method exclude = Raise e)
                   → ¬ valid_method method
                     ∧ ∃ c, c ∈ all_classes ∧ c ≠ "" ∧ c ∉ exclude).
  { intros [e He]. split.
    - intros Hv.
      destruct (build_class_mapping_returns all_classes method exclude Hv) as [ms Hms].
      congruence.
    - destruct (filter (λ c, kept exclude c = true) (sorted_classes all_classes))
        as [|c l] eqn:Hf.
      + rewrite Hnone in He; [discriminate|].
        intros c Hc. destruct (kept exclude c) eqn:Hk; [|reflexivity].
        assert (c ∈ filter (λ c, kept exclude c = true) (sorted_classes all_classes))
          as Hin by (apply list_elem_of_filter; split;
                     [assumption | apply elem_of_sorted_classes, Hc]).
        rewrite Hf in Hin. inversion Hin.
      + assert (c ∈ filter (λ c, kept exclude c = true) (sorted_classes all_classes))
          as Hin by (rewrite Hf; left).
        apply list_elem_of_filter in Hin as [Hk Hin].
        apply elem_of_sorted_classes in Hin. apply kept_spec in Hk.
        exists c. tauto. }
  split; [split; [exact Hraise|]|split].
  - intros (Hn & c & Hc & Hne & Hex).
    eexists. eapply build_class_mapping_invalid; eassumption.
  - intros e He. destruct Hraise as (Hn & c & Hc & Hne & Hex); [eauto|].
    rewrite (build_class_mapping_invalid _ _ _ _ Hn Hc Hne Hex) in He.
    injection He as <-. reflexivity.
  - intros H. apply Hnone. intros c Hc.
    destruct (kept exclude c) eqn:Hk; [|reflexivity].
    apply kept_spec in Hk. destruct (H c Hc); tauto.
Qed.

Lemma NoDup_map_eq {A B} (f : A → B) l x y :
  NoDup (map f l) → x ∈ l → y ∈ l → f x = f y → x = y.
Proof.
  induction l as [|a l IH]; simpl; [intros _ Hx; inversion Hx|].
  rewrite NoDup_cons. intros [Ha Hnd] Hx Hy He.
  apply elem_of_cons in Hx as [->|Hx], Hy as [->|Hy]; auto.
  - exfalso. apply Ha. rewrite He. apply list_elem_of_fmap. eauto.
  - exfalso. apply Ha. rewrite <- He. apply list_elem_of_fmap. eauto.
Qed.

(** X5.  The builder followed by the lookup of the HTML rewriter: on the
    classes of the set that are neither empty nor excluded the translation
    is the obfuscated name of the class's mapping and is injective (two
    such classes never share a name); every other token is left as it
    is. *)
Theorem build_then_translate (all_classes : gset string)
    (method : string) (exclude : gset string) (ms : list ClassMapping) :
  build_class_mapping all_classes method exclude = Ok ms →
  (∀ c, c ∈ all_classes → c ≠ "" → c ∉ exclude →
        ∃ m, m ∈ ms ∧ original m = c ∧ translate ms c = obfuscated m)
  ∧ (∀ c c', c ∈ all_classes → c ≠ "" → c ∉ exclude →
             c' ∈ all_classes → c' ≠ "" → c' ∉ exclude →
             translate ms c = translate ms c' → c = c')
  ∧ (∀ c, c ∉ all_classes ∨ c = "" ∨ c ∈ exclude → translate ms c = c).
Proof.
  intros Hms.
  destruct (build_class_mapping_ok _ _ _ _ Hms) as (Hnd & _ & Hndo & Hmem).
  assert (Hkept : ∀ c, c ∈ all_classes → c ≠ "" → c ∉ exclude →
            ∃ m, m ∈ ms ∧ original m = c ∧ translate ms c = obfuscated m).
  { intros c Hc Hne Hex.
    destruct (translate_spec ms c) as (_ & Hin & _). apply Hin.
    apply Hmem. split; [assumption|]. apply kept_spec. tauto. }
  split; [exact Hkept|]. split.
  - intros c c' Hc Hne Hex Hc' Hne' Hex' He.
    destruct (Hkept c Hc Hne Hex) as (m & Hm & <- & Ht).
    destruct (Hkept c' Hc' Hne' Hex') as (m' & Hm' & <- & Ht').
    f_equal. eapply NoDup_map_eq; [exact Hnd | assumption..|congruence].
  - intros c Hc. destruct (translate_spec ms c) as (Hout & _ & _). apply Hout.
    rewrite Hmem, kept_spec. destruct (decide (c = "")); tauto.
Qed.

Lemma build_then_translate_witness :
  build_class_mapping {["btn"]} "shift" ∅ = Ok [Build_ClassMapping "btn" "ewq"]
  ∧ translate [Build_ClassMapping "btn" "ewq"] "nav" = "nav".
Proof.
  split; [vm_compute; reflexivity|].
  apply (build_then_translate {["btn"]} "shift" ∅); [vm_compute; reflexivity|].
  left. intros H%elem_of_singleton. discriminate.
Defined.

(** When the transform is injective on the class names at hand, the
    collision loop is never entered: the name of every mapping is the
    transform of its original. *)
Lemma build_loop_plain method exclude (P : string → Prop) :
  (∀ s s' r, P s → P s' →
     obfuscate_identifier s method = Ok r → obfuscate_identifier s' method = Ok r →
     s = s') →
  ∀ classes st st',
    NoDup classes → Forall P classes →
    Forall P (map original (fst st)) →
    (∀ c, c ∈ classes → c ∉ map original (fst st)) →
    snd st = list_to_set (map obfuscated (fst st)) →
    Forall (λ m, obfuscate_identifier (original m) method = Ok (obfuscated m)) (fst st) →
    build_loop method exclude st classes = Ok st' →
    Forall (λ m, obfuscate_identifier (original m) method = Ok (obfuscated m)) (fst st').
Proof.
  intros Hinj classes.
  induction classes as [|c classes IH]; intros st st' Hnd HP HPst Hnew Hused Hplain; simpl.
  - intros [= <-]. assumption.
  - apply NoDup_cons in Hnd as [Hc Hnd]. apply Forall_cons in HP as [HPc HP].
    destruct (kept exclude c) eqn:Hk.
    + destruct st as [ms used]. simpl in HPst, Hnew, Hused, Hplain.
      destruct (obfuscate_identifier c method) as [raw|e] eqn:Hraw.
      * rewrite (build_step_kept _ _ _ _ _ _ Hk Hraw). simpl.
        assert (Hfree : raw ∉ used).
        { subst used. rewrite elem_of_list_to_set, list_elem_of_fmap.
          intros (m & -> & Hm).
          apply (Hnew c); [left|].
          rewrite Forall_forall in Hplain. rewrite Forall_forall in HPst.
          assert (original m ∈ map original ms) as Ho
            by (apply list_elem_of_fmap; eauto).
          rewrite (Hinj c (original m) (obfuscated m) HPc (HPst _ Ho) Hraw
                     (Hplain m Hm)).
          exact Ho. }
        rewrite (unique_name_free _ _ Hfree).
        apply IH; simpl; try assumption.
        -- rewrite map_app. apply Forall_app. split; [assumption|].
           constructor; [assumption|constructor].
        -- intros c' Hc'. rewrite map_app, elem_of_app. simpl.
           rewrite list_elem_of_singleton. intros [Hin| ->].
           ++ apply (Hnew c'); [right; assumption | assumption].
           ++ contradiction.
        -- rewrite map_app, list_to_set_app_L. simpl. subst used.
           rewrite (right_id_L ∅ (∪)). apply (comm_L (∪)).
        -- apply Forall_app. split; [assumption|].
           constructor; [assumption|constructor].
      * unfold build_step. unfold kept in Hk. apply negb_true_iff in Hk.
        rewrite Hk, Hraw. discriminate.
    + rewrite (build_step_skipped _ _ _ _ Hk). simpl.
      apply IH; try assumption.
      intros c' Hc'. apply Hnew. right. assumption.
Qed.

Lemma build_class_mapping_plain method exclude (P : string → Prop)
    (all_classes : gset string) ms :
  (∀ s s' r, P s → P s' →
     obfuscate_identifier s method = Ok r → obfuscate_identifier s' method = Ok r →
     s = s') →
  (∀ c, c ∈ all_classes → P c) →
  build_class_mapping all_classes method exclude = Ok ms →
  ∀ m, m ∈ ms → obfuscate_identifier (original m) method = Ok (obfuscated m).
Proof.
  intros Hinj HP. unfold build_class_mapping.
  destruct (build_loop method exclude ([], ∅) (sorted_classes all_classes))
    as [st|e] eqn:Hloop; simpl; [|discriminate].
  intros [= <-] m Hm. rewrite elem_of_py_sorted in Hm.
  revert m Hm. apply Forall_forall.
  eapply (build_loop_plain method exclude P Hinj); [| | | | | |exact Hloop]; simpl.
  - unfold sorted_classes. rewrite py_sorted_perm. apply NoDup_elements.
  - apply Forall_forall. intros c Hc. apply HP, elem_of_sorted_classes, Hc.
  - constructor.
  - intros c _ Hc. inversion Hc.
  - reflexivity.
  - constructor.
Qed.

(** X6.  With the hex method, and with the shift method on class names
    whose alphabetic characters are ASCII letters, no name ever gets a
    numbered suffix: the obfuscated name of every mapping is the transform
    of its original. *)
Theorem build_class_mapping_no_suffix (all_classes : gset string)
    (method : string) (exclude : gset string) (ms : list ClassMapping) :
  method = "hex"
  ∨ (method = "shift" ∧ ∀ c, c ∈ all_classes → ascii_letters_only c) →
  build_class_mapping all_classes method exclude = Ok ms →
  ∀ m, m ∈ ms → obfuscate_identifier (original m) method = Ok (obfuscated m).
Proof.
  intros [->|[-> Hascii]].
  - apply (build_class_mapping_plain "hex" exclude (λ _, True));
      [|trivial].
    intros s s' r _ _. apply obfuscate_hex_inj.
  - apply (build_class_mapping_plain "shift" exclude ascii_letters_only);
      [|assumption].
    intros s s' r. apply obfuscate_shift_inj.
Qed.

Lemma build_class_mapping_no_suffix_witness :
  obfuscate_identifier "btn" "shift" = Ok "ewq".
Proof.
  refine (build_class_mapping_no_suffix {["btn"]} "shift" ∅
            [Build_ClassMapping "btn" "ewq"] _ _ (Build_ClassMapping "btn" "ewq") _).
  - right. split; [reflexivity|].
    intros c Hc%elem_of_singleton. subst c. reflexivity.
  - vm_compute. reflexivity.
  - apply list_elem_of_here.
Defined.

Lemma singleton_list {A} (l : list A) c :
  NoDup l → (∀ x, x ∈ l ↔ x = c) → l = [c].
Proof.
  intros Hnd H. destruct l as [|a l].
  - pose proof (proj2 (H c) eq_refl) as Hin. inversion Hin.
  - assert (a = c) as -> by (apply H; left).
    destruct l as [|b l]; [reflexivity|].
    assert (b = c) as -> by (apply H; right; left).
    apply NoDup_cons in Hnd as [Hn _]. exfalso. apply Hn. left.
Qed.

(** X7.  The names in use are only the obfuscated names given so far:
    excluded classes are not looked at.  So the name given to a class can be
    an excluded class of the same project: for a class [c] whose transform
    [r] is another name that is excluded, the builder maps [c] to [r], and
    the lookup then sends both [c] and [r] to [r]. *)
Theorem build_class_mapping_meets_excluded (c method r : string) :
  c ≠ "" → obfuscate_identifier c method = Ok r → r ≠ c →
  build_class_mapping {[c; r]} method {[r]} = Ok [Build_ClassMapping c r]
  ∧ translate [Build_ClassMapping c r] c = r
  ∧ translate [Build_ClassMapping c r] r = r.
Proof.
  intros Hc Hr Hne.
  assert (Hlook : translate [Build_ClassMapping c r] c = r
                ∧ translate [Build_ClassMapping c r] r = r).
  { unfold translate, class_dict_of. simpl. split.
    - rewrite lookup_insert_eq. reflexivity.
    - rewrite lookup_insert_ne by congruence. reflexivity. }
  split; [|exact Hlook].
  pose proof (obfuscate_identifier_ok_valid _ _ _ Hc Hr) as Hv.
  destruct (build_class_mapping_returns {[c; r]} method {[r]} Hv) as [ms Hms].
  rewrite Hms. f_equal.
  destruct (build_class_mapping_ok _ _ _ _ Hms) as (_ & Hdis & Hndo & Hmem).
  assert (Ho : map original ms = [c]).
  { apply singleton_list; [assumption|]. intros x.
    rewrite Hmem, kept_spec. split.
    - intros (Hx & _ & Hex). apply elem_of_union in Hx as [Hx|Hx].
      + apply elem_of_singleton in Hx. exact Hx.
      + contradiction.
    - intros ->. split; [apply elem_of_union_l, elem_of_singleton; reflexivity|].
      split; [assumption|]. rewrite elem_of_singleton. congruence. }
  destruct ms as [|m [|m' ms]]; try discriminate.
  injection Ho as Ho. f_equal.
  destruct (Hdis m) as (raw & j & Hraw & Hj & Hbefore); [left|].
  rewrite Ho, Hr in Hraw. injection Hraw as <-.
  destruct m as [o b]. simpl in *. subst o. f_equal.
  destruct j as [|j]; [exact Hj|].
  exfalso. specialize (Hbefore 0%nat ltac:(lia)).
  apply list_elem_of_singleton in Hbefore. rewrite Hj in Hbefore.
  apply (candidate_inj r) in Hbefore. discriminate.
Qed.

Lemma build_class_mapping_meets_excluded_witness :
  build_class_mapping {["btn"; "ewq"]} "shift" {["ewq"]}
  = Ok [Build_ClassMapping "btn" "ewq"]
  ∧ translate [Build_ClassMapping "btn" "ewq"] "btn" = "ewq"
  ∧ translate [Build_ClassMapping "btn" "ewq"] "ewq" = "ewq".
Proof.
  apply (build_class_mapping_meets_excluded "btn" "shift" "ewq");
    [discriminate | reflexivity | discriminate].
Defined.

(** ** The names of the hash and hex methods *)

Lemma all_chars_app P a b :
  Py.all_chars P (a +:+ b) = Py.all_chars P a && Py.all_chars P b.
Proof.
  induction a as [|c a IH]; [reflexivity|].
  change (String c a +:+ b) with (String c (a +:+ b)). simpl.
  rewrite IH, andb_assoc. reflexivity.
Qed.

Lemma all_chars_take P n s :
  Py.all_chars P s = true → Py.all_chars P (Py.take n s) = true.
Proof.
  revert s. induction n as [|n IH]; intros [|c s]; simpl; try reflexivity.
  rewrite !andb_true_iff. intros [-> Hs]. auto.
Qed.

Lemma all_chars_impl (P Q : ascii → bool) s :
  (∀ c, P c = true → Q c = true) →
  Py.all_chars P s = true → Py.all_chars Q s = true.
Proof.
  intros H. induction s as [|c s IH]; simpl; [reflexivity|].
  rewrite !andb_true_iff. intros [Hc Hs]. auto.
Qed.

Lemma hex_digit_name_char x : 0 ≤ x < 16 → name_char (hex_digit x) = true.
Proof.
  intros H.
  assert (x = 0 ∨ x = 1 ∨ x = 2 ∨ x = 3 ∨ x = 4 ∨ x = 5 ∨ x = 6 ∨ x = 7 ∨ x = 8
          ∨ x = 9 ∨ x = 10 ∨ x = 11 ∨ x = 12 ∨ x = 13 ∨ x = 14 ∨ x = 15) as Hx by lia.
  repeat (destruct Hx as [->|Hx]; [reflexivity|]). subst x. reflexivity.
Qed.

Lemma bytes_hex_name_chars bs :
  Forall (λ b, 0 ≤ b < 256) bs → Py.all_chars name_char (bytes_hex bs) = true.
Proof.
  induction 1 as [|b bs Hb _ IH]; [reflexivity|].
  cbn [bytes_hex Py.all_chars]. rewrite IH.
  rewrite Z.shiftr_div_pow2 by lia. change 15 with (Z.ones 4).
  rewrite Z.land_ones by lia. change (2 ^ 4) with 16.
  rewrite !hex_digit_name_char; [reflexivity| |].
  - apply Z.mod_pos_bound. lia.
  - split; [apply Z.div_pos; lia | apply Z.div_lt_upper_bound; lia].
Qed.

Lemma digest_bytes msg : Forall (λ b, 0 ≤ b < 256) (Md5.digest msg).
Proof.
  unfold Md5.digest, Md5.bytes_of_word.
  repeat (apply Forall_app; split);
    repeat (constructor; [apply Z.mod_pos_bound; lia|]); constructor.
Qed.

Lemma pretty_N_go_name_chars x s :
  Py.all_chars name_char s = true → Py.all_chars name_char (pretty_N_go x s) = true.
Proof.
  revert s. induction (N.lt_wf_0 x) as [x _ IH]; intros s Hs.
  assert (x = 0 ∨ 0 < x)%N as [->|Hx] by lia.
  - rewrite pretty_N_go_0. exact Hs.
  - rewrite pretty_N_go_step by assumption. apply IH.
    + apply N.div_lt; [assumption|reflexivity].
    + simpl. rewrite Hs, andb_true_r.
      unfold pretty_N_char. repeat case_match; reflexivity.
Qed.

Lemma str_of_nat_name_chars n : Py.all_chars name_char (Py.str_of_nat n) = true.
Proof.
  unfold Py.str_of_nat, pretty, pretty_nat, pretty, pretty_N.
  case_decide; [reflexivity|]. apply pretty_N_go_name_chars. reflexivity.
Qed.

Lemma candidate_name_chars raw k :
  Py.all_chars name_char raw = true → Py.all_chars name_char (candidate raw k) = true.
Proof.
  intros H. destruct k as [|k]; [exact H|].
  unfold candidate. rewrite !all_chars_app, H, str_of_nat_name_chars. reflexivity.
Qed.

Lemma candidate_head c t k : ∃ t', candidate (String c t) k = String c t'.
Proof. destruct k as [|k]; simpl; eauto. Qed.

Lemma name_char_no_backslash s :
  Py.all_chars name_char s = true → no_backslash s = true.
Proof.
  apply all_chars_impl. intros c Hc.
  destruct (decide (c = "\"%char)) as [->|Hn]; [discriminate Hc|].
  rewrite bool_decide_eq_false_2 by assumption. reflexivity.
Qed.

Lemma obfuscate_hash_eq s :
  s ≠ "" →
  obfuscate_identifier s "hash"
  = Ok (String "c" (Py.take 8 (Md5.hexdigest (encode_utf8 s)))).
Proof.
  intros Hs. unfold obfuscate_identifier. rewrite decide_False by assumption.
  reflexivity.
Qed.

Lemma obfuscate_hash_hex_name s method r :
  method = "hash" ∨ method = "hex" → s ≠ "" →
  obfuscate_identifier s method = Ok r →
  ∃ t, r = String "c" t ∧ Py.all_chars name_char t = true.
Proof.
  intros [-> | ->] Hs.
  - rewrite obfuscate_hash_eq by assumption. intros H.
    exists (Py.take 8 (Md5.hexdigest (encode_utf8 s))). split; [congruence|].
    apply all_chars_take, bytes_hex_name_chars, digest_bytes.
  - rewrite obfuscate_hex_eq, decide_False by assumption. intros H.
    exists (bytes_hex (encode_utf8 s)). split; [congruence|].
    apply bytes_hex_name_chars, encode_utf8_bytes.
Qed.

(** X8.  The hash and hex methods only give plain names: every obfuscated
    name of the list built is the letter [c] followed by digits, letters
    a-z and underscores (the numbered suffix of a collision included), and
    with such a list [process_css_content] returns a text for every
    content: the replacement never holds a backslash that [re.sub] would
    read as an escape. *)
Theorem hash_hex_names_plain (all_classes : gset string) (method : string)
    (exclude : gset string) (content : string) :
  method = "hash" ∨ method = "hex" →
  ∃ ms, build_class_mapping all_classes method exclude = Ok ms
      ∧ (∀ m, m ∈ ms →
           ∃ t, obfuscated m = String "c" t ∧ Py.all_chars name_char t = true)
      ∧ ∃ out, process_css_content content ms = Ok out.
Proof.
  intros Hm.
  assert (Hv : valid_method method) by (unfold valid_method; tauto).
  destruct (build_class_mapping_returns all_classes method exclude Hv) as [ms Hms].
  exists ms. split; [assumption|].
  destruct (build_class_mapping_ok _ _ _ _ Hms) as (_ & Hdis & _ & Hmem).
  assert (Hnames : ∀ m, m ∈ ms →
            ∃ t, obfuscated m = String "c" t ∧ Py.all_chars name_char t = true).
  { intros m Hin. destruct (Hdis m Hin) as (raw & j & Hraw & Hj & _).
    assert (Hne : original m ≠ "").
    { assert (original m ∈ map original ms) as Ho
        by (apply list_elem_of_fmap; eauto).
      apply Hmem in Ho as [_ Hk]. apply kept_spec in Hk. tauto. }
    destruct (obfuscate_hash_hex_name _ _ _ Hm Hne Hraw) as (t & -> & Ht).
    destruct (candidate_head "c" t j) as [t' Ht'].
    exists t'. split; [congruence|].
    assert (Py.all_chars name_char (candidate (String "c" t) j) = true) as Hall.
    { apply candidate_name_chars. simpl. rewrite Ht. reflexivity. }
    rewrite Ht' in Hall. simpl in Hall. exact Hall. }
  split; [exact Hnames|].
  apply process_css_content_returns. apply Forall_forall. intros m Hin.
  destruct (Hnames m Hin) as (t & -> & Ht).
  apply name_char_no_backslash. simpl. rewrite Ht. reflexivity.
Qed.

Lemma hash_hex_names_plain_witness :
  ∃ ms, build_class_mapping {["btn"]} "hash" ∅ = Ok ms
      ∧ (∀ m, m ∈ ms →
           ∃ t, obfuscated m = String "c" t ∧ Py.all_chars name_char t = true)
      ∧ ∃ out, process_css_content ".btn{}" ms = Ok out.
Proof.
  apply (hash_hex_names_plain {["btn"]} "hash" ∅ ".btn{}"). left. reflexivity.
Defined.

(** ** The CSS rewriter *)

Lemma expand_trailing_backslash matched t :
  no_backslash t = true →
  Re.expand matched None (t +:+ "\")
  = Raise (ReError "bad escape (end of pattern)").
Proof.
  unfold no_backslash. induction t as [|c t IH]; [reflexivity|].
  simpl. rewrite andb_true_iff, negb_true_iff, bool_decide_eq_false.
  intros [Hc Ht].
  change (String c t +:+ "\") with (String c (t +:+ "\")).
  cbn [Re.expand]. rewrite decide_False by assumption.
  rewrite (IH Ht). reflexivity.
Qed.

Lemma sub_class_returns original repl content :
  no_backslash repl = true →
  Re.sub_class original ("." +:+ repl) content
  = Ok (Re.sub_scan ("." +:+ original) ("." +:+ repl) 0 content).
Proof.
  intros H. unfold Re.sub_class.
  rewrite expand_no_backslash; [reflexivity|].
  unfold no_backslash in *. change ("." +:+ repl) with (String "." repl).
  simpl. exact H.
Qed.

(** X9.  A name that ends with a backslash stops the CSS rewriter: when the
    mappings before it return and its obfuscated name is a text without
    backslash followed by one backslash, [process_css_content] raises the
    error of [re.sub] for a replacement that ends inside an escape, for
    every content, with or without an occurrence of the class. *)
Theorem process_css_content_trailing_backslash (content : string)
    (before : list ClassMapping) (m : ClassMapping) (after : list ClassMapping)
    (t : string) :
  Forall (λ m, no_backslash (obfuscated m) = true) before →
  obfuscated m = t +:+ "\" → no_backslash t = true →
  process_css_content content (before ++ m :: after)
  = Raise (ReError "bad escape (end of pattern)").
Proof.
  intros Hb Hm Ht. revert content.
  induction Hb as [|m0 before Hm0 _ IH]; intros content.
  - cbn [app process_css_content]. unfold Re.sub_class. rewrite Hm.
    change ("." +:+ (t +:+ "\")) with (String "." t +:+ "\").
    rewrite expand_trailing_backslash; [reflexivity|].
    unfold no_backslash in *. simpl. exact Ht.
  - cbn [app process_css_content]. rewrite sub_class_returns by assumption.
    cbn [rbind]. apply IH.
Qed.

Lemma process_css_content_trailing_backslash_witness :
  build_class_mapping {["a\"]} "shift" ∅ = Ok [Build_ClassMapping "a\" "c\"]
  ∧ process_css_content ".b{}" [Build_ClassMapping "a\" "c\"]
    = Raise (ReError "bad escape (end of pattern)").
Proof.
  split; [vm_compute; reflexivity|].
  apply (process_css_content_trailing_backslash ".b{}" []
           (Build_ClassMapping "a\" "c\") [] "c"); [constructor|reflexivity..].
Defined.

Lemma startswith_occurs lit s : Py.startswith lit s = true → occurs_in lit s = true.
Proof. intros H. destruct s; simpl; rewrite H; reflexivity. Qed.

Lemma sub_scan_no_occurrence lit repl s :
  occurs_in lit s = false → Re.sub_scan lit repl 0 s = s.
Proof.
  induction s as [|c s IH]; [reflexivity|].
  cbn [occurs_in Re.sub_scan]. rewrite orb_false_iff. intros [Hs Ho].
  unfold Re.match_here. rewrite Hs. cbn [andb]. rewrite (IH Ho). reflexivity.
Qed.

(** X10.  The CSS rewriter leaves alone a text in which no class of the
    list occurs after a dot: when no obfuscated name holds a backslash and
    the text [.original] occurs nowhere in the content for any mapping, the
    content is returned as it is.  A content without dots is such a
    text. *)
Theorem process_css_content_no_occurrence (content : string)
    (mappings : list ClassMapping) :
  Forall (λ m, no_backslash (obfuscated m) = true
               ∧ occurs_in ("." +:+ original m) content = false) mappings →
  process_css_content content mappings = Ok content.
Proof.
  induction 1 as [|m mappings [Hb Ho] _ IH]; [reflexivity|].
  cbn [process_css_content]. rewrite sub_class_returns by assumption.
  cbn [rbind]. rewrite (sub_scan_no_occurrence _ _ _ Ho). exact IH.
Qed.

Lemma process_css_content_no_occurrence_witness :
  process_css_content ".btn-x{color:red}" [Build_ClassMapping "nav" "qdy"]
  = Ok ".btn-x{color:red}".
Proof.
  apply (process_css_content_no_occurrence ".btn-x{color:red}"
           [Build_ClassMapping "nav" "qdy"]).
  constructor; [split; reflexivity | constructor].
Defined.

Lemma startswith_app lit rest : Py.startswith lit (lit +:+ rest) = true.
Proof.
  induction lit as [|c lit IH]; [destruct rest; reflexivity|].
  change (String c lit +:+ rest) with (String c (lit +:+ rest)). simpl.
  rewrite decide_True by reflexivity. exact IH.
Qed.

Lemma drop_app lit rest : Py.drop (String.length lit) (lit +:+ rest) = rest.
Proof.
  induction lit as [|c lit IH]; [destruct rest; reflexivity|]. exact IH.
Qed.

Lemma sub_scan_skip lit repl x rest :
  Re.sub_scan lit repl (String.length x) (x +:+ rest) = Re.sub_scan lit repl 0 rest.
Proof. induction x as [|c x IH]; [reflexivity|]. exact IH. Qed.

Lemma last_dot a : a ≠ "" → Re.last (String "." a) = Re.last a.
Proof. destruct a; [congruence|reflexivity]. Qed.

Lemma ends_with_word_nonempty a : ends_with_word a = true → a ≠ "".
Proof. intros H ->. discriminate H. Qed.

(** One run of [re.sub] on a text that starts with the class: the
    occurrence at the start is replaced, and what follows is scanned. *)
Lemma sub_scan_at_start a repl rest :
  ends_with_word a = true → Re.is_word_opt (Re.head rest) = false →
  Re.sub_scan (String "." a) repl 0 (String "." a +:+ rest)
  = repl +:+ Re.sub_scan (String "." a) repl 0 rest.
Proof.
  intros Ha Hr.
  change (String "." a +:+ rest) with (String "." (a +:+ rest)).
  cbn [Re.sub_scan].
  change (String "." (a +:+ rest)) with (String "." a +:+ rest).
  unfold Re.match_here.
  rewrite startswith_app, drop_app, (last_dot a (ends_with_word_nonempty a Ha)).
  unfold Re.word_boundary. unfold ends_with_word in Ha. rewrite Ha, Hr.
  cbn [andb xorb].
  replace (String.length (String "." a) - 1)%nat with (String.length a)
    by (simpl; lia).
  rewrite sub_scan_skip. reflexivity.
Qed.

(** X11.  The CSS rewriter applies the mappings one after the other to the
    text that the mappings before have already rewritten, while the HTML
    rewriter looks every class up once.  When the name given to a class
    [a] is itself a class [b] of the list that comes later, a selector
    [.a] ends as the name of [b], not as the name of [a] that the HTML
    gets. *)
Theorem process_css_content_chain (a b c rest : string) :
  ends_with_word a = true → ends_with_word b = true →
  no_backslash b = true → no_backslash c = true →
  Re.is_word_opt (Re.head rest) = false →
  occurs_in ("." +:+ a) rest = false → occurs_in ("." +:+ b) rest = false →
  a ≠ b →
  process_css_content ("." +:+ a +:+ rest)
    [Build_ClassMapping a b; Build_ClassMapping b c]
  = Ok ("." +:+ c +:+ rest)
  ∧ translate [Build_ClassMapping a b; Build_ClassMapping b c] a = b.
Proof.
  intros Ha Hb Hnb Hnc Hr Hoa Hob Hne. split.
  - cbn [process_css_content original obfuscated].
    rewrite sub_class_returns by assumption. cbn [rbind].
    rewrite sub_class_returns by assumption. cbn [rbind].
    change ("." +:+ a) with (String "." a) in *.
    change ("." +:+ b) with (String "." b) in *.
    change ("." +:+ c) with (String "." c) in *.
    change (String "." (a +:+ rest)) with (String "." a +:+ rest).
    rewrite (sub_scan_at_start a _ rest Ha Hr).
    rewrite (sub_scan_no_occurrence _ _ _ Hoa).
    rewrite (sub_scan_at_start b _ rest Hb Hr).
    rewrite (sub_scan_no_occurrence _ _ _ Hob). reflexivity.
  - unfold translate, class_dict_of. simpl.
    rewrite lookup_insert_ne by congruence. rewrite lookup_insert_eq. reflexivity.
Qed.

Lemma process_css_content_chain_witness :
  build_class_mapping {["btn"; "ewq"]} "shift" ∅
  = Ok [Build_ClassMapping "btn" "ewq"; Build_ClassMapping "ewq" "hzt"]
  ∧ process_css_content ".btn{color:red}"
      [Build_ClassMapping "btn" "ewq"; Build_ClassMapping "ewq" "hzt"]
    = Ok ".hzt{color:red}"
  ∧ translate [Build_ClassMapping "btn" "ewq"; Build_ClassMapping "ewq" "hzt"] "btn"
    = "ewq".
Proof.
  split; [vm_compute; reflexivity|].
  apply (process_css_content_chain "btn" "ewq" "hzt" "{color:red}");
    (reflexivity || discriminate).
Defined.

(** ** The class extractors *)

Lemma elem_of_classes_after c prev rest :
  c ∈ classes_after prev rest ↔
  ∃ i dot tok, (prev :: rest) !! i = Some dot ∧ (prev :: rest) !! S i = Some tok
             ∧ tok_type dot = "literal" ∧ tok_value dot = "."
             ∧ tok_type tok = "ident" ∧ tok_value tok = c.
Proof.
  revert prev. induction rest as [|token rest IH]; intros prev.
  - simpl. split; [intros H; apply not_elem_of_empty in H; contradiction|].
    intros (i & dot & tok & _ & H & _). destruct i; discriminate H.
  - cbn [classes_after]. rewrite elem_of_union, IH. split.
    + intros [H|(i & dot & tok & H)].
      * destruct (bool_decide (tok_type token = "ident")
                  && bool_decide (tok_type prev = "literal")
                  && bool_decide (tok_value prev = ".")) eqn:Hc;
          [|apply not_elem_of_empty in H; contradiction].
        apply elem_of_singleton in H.
        rewrite !andb_true_iff, !bool_decide_eq_true in Hc.
        exists 0%nat, prev, token. simpl. intuition congruence.
      * exists (S i), dot, tok. exact H.
    + intros (i & dot & tok & Hd & Ht & H1 & H2 & H3 & H4).
      destruct i as [|i].
      * left. simpl in Hd, Ht. injection Hd as <-. injection Ht as <-.
        rewrite !bool_decide_eq_true_2 by assumption. simpl.
        apply elem_of_singleton. congruence.
      * right. exists i, dot, tok. auto 10.
Qed.

Lemma elem_of_classes_of_rule c rule :
  c ∈ classes_of_rule rule ↔
  rule_type rule = "qualified-rule"
  ∧ ∃ i dot tok, prelude rule !! i = Some dot ∧ prelude rule !! S i = Some tok
               ∧ tok_type dot = "literal" ∧ tok_value dot = "."
               ∧ tok_type tok = "ident" ∧ tok_value tok = c.
Proof.
  unfold classes_of_rule. case_decide as Hq.
  - destruct (prelude rule) as [|first rest].
    + split; [intros H; apply not_elem_of_empty in H; contradiction|].
      intros (_ & i & dot & tok & H & _). destruct i; discriminate H.
    + rewrite elem_of_classes_after. tauto.
  - split; [intros H; apply not_elem_of_empty in H; contradiction|tauto].
Qed.

Lemma elem_of_extract_css parse_stylesheet css_content c :
  c ∈ extract_classes_from_css parse_stylesheet css_content ↔
  ∃ rule, rule ∈ parse_stylesheet css_content ∧ c ∈ classes_of_rule rule.
Proof.
  unfold extract_classes_from_css. rewrite elem_of_union_list. split.
  - intros (X & HX & Hc). apply list_elem_of_fmap in HX as (rule & -> & Hr). eauto.
  - intros (rule & Hr & Hc). exists (classes_of_rule rule).
    split; [apply list_elem_of_fmap; eauto | assumption].
Qed.

(** X12.  What [extract_classes_from_css] collects: a name is in the set
    exactly when some qualified rule of the parsed stylesheet has, in its
    prelude, an ident token with that value that stands right after a
    literal token [.]; rules of another type and idents after anything else
    give nothing. *)
Theorem extract_classes_from_css_spec (parse_stylesheet : string → list css_rule)
    (css_content c : string) :
  c ∈ extract_classes_from_css parse_stylesheet css_content ↔
  ∃ rule i dot tok,
    rule ∈ parse_stylesheet css_content
    ∧ rule_type rule = "qualified-rule"
    ∧ prelude rule !! i = Some dot ∧ prelude rule !! S i = Some tok
    ∧ tok_type dot = "literal" ∧ tok_value dot = "."
    ∧ tok_type tok = "ident" ∧ tok_value tok = c.
Proof.
  rewrite elem_of_extract_css. split.
  - intros (rule & Hr & Hc). apply elem_of_classes_of_rule in Hc
      as (Hq & i & dot & tok & H). exists rule, i, dot, tok. tauto.
  - intros (rule & i & dot & tok & Hr & Hq & H). exists rule.
    split; [assumption|]. apply elem_of_classes_of_rule.
    split; [assumption|]. exists i, dot, tok. exact H.
Qed.

Lemma own_at_Tag q soup n a :
  own_at q soup = Some (Some (n, a)) ↔ ∃ cs, get_at q soup = Some (Tag n a cs).
Proof.
  unfold own_at. destruct (get_at q soup) as [[n' a' cs|s]|]; simpl.
  - split; [intros [= -> ->]; eauto | intros (cs' & [= -> -> _]); reflexivity].
  - split; [discriminate | intros (cs' & H); discriminate H].
  - split; [discriminate | intros (cs' & H); discriminate H].
Qed.

Lemma elem_of_classes_of_tag soup q c :
  c ∈ classes_of_tag soup q ↔
  ∃ n a v, own_at q soup = Some (Some (n, a)) ∧ attr_get "class" a = Some v
         ∧ c ∈ class_tokens v.
Proof.
  unfold classes_of_tag, own_at.
  destruct (get_at q soup) as [[n a cs|s]|]; simpl.
  - destruct (attr_get "class" a) as [[s|l]|] eqn:Hcl.
    + rewrite elem_of_singleton. split.
      * intros ->. exists n, a, (AStr s). simpl.
        repeat split; [assumption|left].
      * intros (n' & a' & v & [= <- <-] & Hv & Hc). rewrite Hcl in Hv.
        injection Hv as <-. simpl in Hc. apply list_elem_of_singleton in Hc.
        exact Hc.
    + rewrite elem_of_list_to_set. split.
      * intros Hc. exists n, a, (AList l). auto.
      * intros (n' & a' & v & [= <- <-] & Hv & Hc). rewrite Hcl in Hv.
        injection Hv as <-. exact Hc.
    + split; [intros H; apply not_elem_of_empty in H; contradiction|].
      intros (n' & a' & v & [= <- <-] & Hv & _). congruence.
  - split; [intros H; apply not_elem_of_empty in H; contradiction|].
    intros (n' & a' & v & H & _). discriminate H.
  - split; [intros H; apply not_elem_of_empty in H; contradiction|].
    intros (n' & a' & v & H & _). discriminate H.
Qed.

Lemma elem_of_classes_of_style parse_stylesheet soup q c :
  c ∈ classes_of_style parse_stylesheet soup q ↔
  ∃ t s, get_at q soup = Some t ∧ tag_string t = Some s ∧ s ≠ ""
       ∧ c ∈ extract_classes_from_css parse_stylesheet s.
Proof.
  unfold classes_of_style. destruct (get_at q soup) as [t|].
  - destruct (tag_string t) as [s|] eqn:Hts.
    + case_decide as Hs.
      * split; [intros H; apply not_elem_of_empty in H; contradiction|].
        intros (t' & s' & [= <-] & Hs' & Hn & _). congruence.
      * split; [intros Hc; exists t, s; auto|].
        intros (t' & s' & [= <-] & Hs' & _ & Hc). congruence.
    + split; [intros H; apply not_elem_of_empty in H; contradiction|].
      intros (t' & s' & [= <-] & H & _). congruence.
  - split; [intros H; apply not_elem_of_empty in H; contradiction|].
    intros (t' & s' & H & _). discriminate H.
Qed.

Lemma elem_of_extract_html parse_stylesheet parse_html html_content c :
  c ∈ extract_classes_from_html parse_stylesheet parse_html html_content ↔
  (∃ q n a v, q ≠ [] ∧ own_at q (parse_html html_content) = Some (Some (n, a))
            ∧ attr_get "class" a = Some v ∧ c ∈ class_tokens v)
  ∨ (∃ q a cs s, q ≠ []
        ∧ get_at q (parse_html html_content) = Some (Tag "style" a cs)
        ∧ tag_string (Tag "style" a cs) = Some s ∧ s ≠ ""
        ∧ c ∈ extract_classes_from_css parse_stylesheet s).
Proof.
  unfold extract_classes_from_html. cbv zeta.
  rewrite elem_of_union, !elem_of_union_list. split.
  - intros [(X & HX & Hc)|(X & HX & Hc)];
      apply list_elem_of_fmap in HX as (q & -> & Hq);
      apply elem_of_find_all in Hq as (Hne & n & a & Hown & HP).
    + left. apply elem_of_classes_of_tag in Hc as (n' & a' & v & Hown' & Hv & Hc).
      exists q, n', a', v. auto.
    + right. apply elem_of_classes_of_style in Hc as (t & s & Ht & Hs & Hn & Hc).
      apply own_at_Tag in Hown as (cs & Hget).
      unfold is_style in HP. apply bool_decide_eq_true in HP. subst n.
      rewrite Hget in Ht. injection Ht as <-.
      exists q, a, cs, s. auto.
  - intros [(q & n & a & v & Hne & Hown & Hv & Hc)
           |(q & a & cs & s & Hne & Hget & Hs & Hn & Hc)].
    + left. exists (classes_of_tag (parse_html html_content) q). split.
      * apply list_elem_of_fmap. exists q. split; [reflexivity|].
        apply elem_of_find_all. split; [assumption|].
        exists n, a. split; [assumption|].
        unfold has_class. rewrite Hv. apply bool_decide_eq_true_2. eauto.
      * apply elem_of_classes_of_tag. exists n, a, v. auto.
    + right. exists (classes_of_style parse_stylesheet (parse_html html_content) q).
      split.
      * apply list_elem_of_fmap. exists q. split; [reflexivity|].
        apply elem_of_find_all. split; [assumption|].
        exists "style", a. split; [apply own_at_Tag; eauto | reflexivity].
      * apply elem_of_classes_of_style. exists (Tag "style" a cs), s. auto.
Qed.

(** X13.  What [extract_classes_from_html] collects: a name is in the set
    exactly when it is a token of the [class] attribute of some tag below
    the root of the parsed document, or is collected by
    [extract_classes_from_css] from the non-empty [.string] of some
    [style] tag below the root. *)
Theorem extract_classes_from_html_spec (parse_stylesheet : string → list css_rule)
    (parse_html : string → node) (html_content c : string) :
  c ∈ extract_classes_from_html parse_stylesheet parse_html html_content ↔
  (∃ q n a v, q ≠ [] ∧ own_at q (parse_html html_content) = Some (Some (n, a))
            ∧ attr_get "class" a = Some v ∧ c ∈ class_tokens v)
  ∨ (∃ q a cs s, q ≠ []
        ∧ get_at q (parse_html html_content) = Some (Tag "style" a cs)
        ∧ tag_string (Tag "style" a cs) = Some s ∧ s ≠ ""
        ∧ c ∈ extract_classes_from_css parse_stylesheet s).
Proof. apply elem_of_extract_html. Qed.

Lemma translate_kept all_classes method exclude ms c :
  build_class_mapping all_classes method exclude = Ok ms →
  c ∈ all_classes → kept exclude c = true →
  ∃ m, m ∈ ms ∧ original m = c ∧ translate ms c = obfuscated m.
Proof.
  intros Hms Hc Hk.
  destruct (build_class_mapping_ok _ _ _ _ Hms) as (_ & _ & _ & Hmem).
  destruct (translate_spec ms c) as (_ & Hin & _). apply Hin, Hmem. auto.
Qed.

Lemma translate_not_kept all_classes method exclude ms c :
  build_class_mapping all_classes method exclude = Ok ms →
  kept exclude c = false → translate ms c = c.
Proof.
  intros Hms Hk.
  destruct (build_class_mapping_ok _ _ _ _ Hms) as (_ & _ & _ & Hmem).
  destruct (translate_spec ms c) as (Hout & _ & _). apply Hout.
  rewrite Hmem, Hk. intros [_ H]. discriminate H.
Qed.

(** X14.  Scan, builder and HTML rewriter fit together: when the classes
    that the scan collects from a page are among the classes the mappings
    were built from, the rewriter misses no token of that page.  In every
    [class] attribute of a tag below the root, a token that is not empty
    and not excluded is replaced by the obfuscated name of its own mapping,
    and an empty or excluded token is kept; the tokens keep their number
    and order. *)
Theorem extract_build_rewrite (parse_stylesheet : string → list css_rule)
    (parse_html : string → node) (content : string)
    (all_classes : gset string) (method : string) (exclude : gset string)
    (ms : list ClassMapping) (css_files : list string) (output_suffix : string)
    (soup' : node) :
  extract_classes_from_html parse_stylesheet parse_html content ⊆ all_classes →
  build_class_mapping all_classes method exclude = Ok ms →
  rewrite_soup (parse_html content) ms css_files output_suffix = Ok soup' →
  ∀ q n a v,
    q ≠ [] → own_at q (parse_html content) = Some (Some (n, a)) →
    attr_get "class" a = Some v →
    ∃ a' l', own_at q soup' = Some (Some (n, a'))
      ∧ attr_get "class" a' = Some (AList l')
      ∧ length l' = length (class_tokens v)
      ∧ ∀ i c, class_tokens v !! i = Some c →
          if kept exclude c
          then ∃ m, m ∈ ms ∧ original m = c ∧ l' !! i = Some (obfuscated m)
          else l' !! i = Some c.
Proof.
  intros Hsub Hms Hrw q n a v Hne Hown Hv.
  destruct (rewrite_soup_classes _ _ _ _ _ Hrw q n a v Hne Hown Hv)
    as (a' & Hown' & Hcl).
  exists a', (map (translate ms) (class_tokens v)).
  split; [assumption|]. split; [assumption|].
  split; [apply length_map|].
  intros i c Hi.
  assert (Hl : map (translate ms) (class_tokens v) !! i = Some (translate ms c)).
  { change (map (translate ms) (class_tokens v))
      with (translate ms <$> class_tokens v).
    rewrite list_lookup_fmap, Hi. reflexivity. }
  rewrite Hl. destruct (kept exclude c) eqn:Hk.
  - assert (Hc : c ∈ all_classes).
    { apply Hsub, elem_of_extract_html. left. exists q, n, a, v.
      repeat split; try assumption. eapply list_elem_of_lookup_2. exact Hi. }
    destruct (translate_kept _ _ _ _ _ Hms Hc Hk) as (m & Hm & Ho & Ht).
    exists m. rewrite Ht. auto.
  - rewrite (translate_not_kept _ _ _ _ _ Hms Hk). reflexivity.
Qed.

Lemma extract_build_rewrite_witness :
  ∃ a' l',
    own_at [0%nat] (Tag "[document]" [] [Tag "div" [("class", AList ["era"; "x"])] []])
    = Some (Some ("div", a'))
    ∧ attr_get "class" a' = Some (AList l')
    ∧ length l' = length (class_tokens (AList ["box"; "x"]))
    ∧ ∀ i c, class_tokens (AList ["box"; "x"]) !! i = Some c →
        if kept {["x"]} c
        then ∃ m, m ∈ [Build_ClassMapping "box" "era"] ∧ original m = c
                ∧ l' !! i = Some (obfuscated m)
        else l' !! i = Some c.
Proof.
  refine (extract_build_rewrite
            (λ _, [])
            (λ _, Tag "[document]" [] [Tag "div" [("class", AList ["box"; "x"])] []])
            "<div class='box x'></div>"
            {["box"; "x"]} "shift" {["x"]} [Build_ClassMapping "box" "era"]
            [] "_obfuscated"
            (Tag "[document]" [] [Tag "div" [("class", AList ["era"; "x"])] []])
            _ _ _ [0%nat] "div" [("class", AList ["box"; "x"])] (AList ["box"; "x"])
            _ _ _).
  - apply (bool_decide_unpack _). vm_compute. exact I.
  - vm_compute. reflexivity.
  - vm_compute. reflexivity.
  - discriminate.
  - reflexivity.
  - reflexivity.
Defined.

(** ** The stylesheet links *)

Lemma css_file_mapping_fold css_files output_suffix (d : gmap string string) base :
  fold_left
    (λ d css_file,
       let base := Path.name (Path.parse css_file) in
       <[base := Path.stem (Path.parse base) +:+ output_suffix
                   +:+ Path.suffix (Path.parse base)]> d)
    css_files d !! base
  = if decide (base ∈ map (λ f, Path.name (Path.parse f)) css_files)
    then Some (obfuscated_name base output_suffix)
    else d !! base.
Proof.
  revert d. induction css_files as [|f css_files IH]; intros d; cbn [fold_left map].
  - destruct (decide (base ∈ [])) as [H|]; [inversion H | reflexivity].
  - rewrite IH.
    destruct (decide (base ∈ map (λ f, Path.name (Path.parse f)) css_files))
      as [Hin|Hout].
    + rewrite decide_True by (right; assumption). reflexivity.
    + destruct (decide (Path.name (Path.parse f) = base)) as [<-|Hne].
      * rewrite decide_True by left. rewrite lookup_insert_eq. reflexivity.
      * rewrite lookup_insert_ne by assumption.
        rewrite decide_False; [reflexivity|].
        intros H. apply elem_of_cons in H as [H|H]; [congruence|contradiction].
Qed.

(** The dictionary of the stylesheet names: the base name of every CSS
    file of the project, with the name it gets. *)
Lemma css_file_mapping_lookup css_files output_suffix base :
  css_file_mapping_of css_files output_suffix !! base
  = if decide (base ∈ map (λ f, Path.name (Path.parse f)) css_files)
    then Some (obfuscated_name base output_suffix)
    else None.
Proof.
  unfold css_file_mapping_of. rewrite css_file_mapping_fold.
  rewrite lookup_empty. reflexivity.
Qed.

Lemma link_attrs_href css_files output_suffix a a' href :
  link_attrs (css_file_mapping_of css_files output_suffix) a = Ok a' →
  attr_get "href" a = Some (AStr href) →
  attr_get "href" a' = Some (AStr (new_href css_files output_suffix href)).
Proof.
  unfold link_attrs, new_href. intros H Hh. rewrite Hh in H. cbv zeta.
  destruct href as [|c href].
  - injection H as <-. rewrite bool_decide_eq_false_2 by tauto. assumption.
  - rewrite css_file_mapping_lookup in H.
    destruct (decide (Path.name (Path.parse (String c href))
                      ∈ map (λ f, Path.name (Path.parse f)) css_files))
      as [Hin|Hout].
    + injection H as <-. rewrite attr_get_set_eq.
      rewrite bool_decide_eq_true_2 by (split; [discriminate|assumption]).
      reflexivity.
    + injection H as <-. rewrite bool_decide_eq_false_2 by tauto. assumption.
Qed.

Lemma class_attrs_other d key a :
  key ≠ "class" → attr_get key (class_attrs d a) = attr_get key a.
Proof.
  intros Hk. unfold class_attrs.
  destruct (map _ _); [reflexivity|].
  apply attr_get_set_ne. congruence.
Qed.

(** X15.  The loop over the stylesheet links.  In a document that
    [rewrite_soup] returns, a [link] tag with [rel=stylesheet] below the
    root whose [href] is a string keeps a string [href]: when the last
    component of the [href] is the base name of a CSS file of the project
    (and the [href] is not empty), every occurrence of that name in the
    [href] is replaced by stem + suffix + extension; otherwise the [href]
    is as before. *)
Theorem rewrite_soup_links (soup : node) (mappings : list ClassMapping)
    (css_files : list string) (output_suffix : string) (soup' : node) :
  rewrite_soup soup mappings css_files output_suffix = Ok soup' →
  ∀ q n a href,
    q ≠ [] → own_at q soup = Some (Some (n, a)) →
    is_stylesheet_link n a = true → attr_get "href" a = Some (AStr href) →
    ∃ a', own_at q soup' = Some (Some (n, a'))
        ∧ attr_get "href" a'
          = Some (AStr (new_href css_files output_suffix href)).
Proof.
  intros Hrw q n a href Hne Hown Hlink Hhref.
  destruct (rewrite_soup_steps _ _ _ _ _ Hrw) as (s1 & s2 & H1 & H2 & H3).
  unfold update_link in H1.
  pose proof (for_each_on_attrs _ _ _ _ (NoDup_find_all _ _) H1 q) as Hq.
  rewrite decide_True in Hq
    by (apply elem_of_find_all; split; [assumption|eauto]).
  rewrite Hown in Hq. destruct Hq as (a1 & Ha1 & Hown1).
  pose proof (style_loop_same _ _ _ _ H2 q) as Hown2. rewrite Hown1 in Hown2.
  pose proof (class_loop_effect _ _ _ H3 q) as Hown3. rewrite Hown2 in Hown3.
  eexists. split; [exact Hown3|].
  pose proof (link_attrs_href _ _ _ _ _ Ha1 Hhref) as Hh.
  match goal with |- context [if ?b then _ else _] => destruct b end;
    [|exact Hh].
  rewrite class_attrs_other by discriminate. exact Hh.
Qed.

Lemma rewrite_soup_links_witness :
  ∃ a', own_at [0%nat; 0%nat; 0%nat] Example.page_rewritten = Some (Some ("link", a'))
      ∧ attr_get "href" a' = Some (AStr "css/style_obfuscated.css").
Proof.
  refine (rewrite_soup_links Example.page Example.page_mappings
            ["site/css/style.css"] "_obfuscated" Example.page_rewritten _
            [0%nat; 0%nat; 0%nat] "link"
            [("rel", AList ["stylesheet"]); ("href", AStr "css/style.css")]
            "css/style.css" _ _ _ _).
  - vm_compute. reflexivity.
  - discriminate.
  - reflexivity.
  - reflexivity.
  - reflexivity.
Defined.

(** ** Paths *)

Lemma split_no_slash x : no_slash x = true → Path.split "/" x = [x].
Proof.
  unfold no_slash. induction x as [|c x IH]; [reflexivity|].
  cbn [Py.all_chars Path.split].
  rewrite andb_true_iff, negb_true_iff, bool_decide_eq_false.
  intros [Hc Hx]. rewrite decide_False by assumption. rewrite (IH Hx). reflexivity.
Qed.

Lemma split_app_slash x rest :
  no_slash x = true →
  Path.split "/" (x +:+ String "/" rest) = x :: Path.split "/" rest.
Proof.
  unfold no_slash. induction x as [|c x IH].
  - intros _. change ("" +:+ String "/" rest) with (String "/" rest).
    cbn [Path.split]. rewrite decide_True by reflexivity. reflexivity.
  - cbn [Py.all_chars]. rewrite andb_true_iff, negb_true_iff, bool_decide_eq_false.
    intros [Hc Hx].
    change (String c x +:+ String "/" rest) with (String c (x +:+ String "/" rest)).
    cbn [Path.split]. rewrite decide_False by assumption.
    rewrite (IH Hx). reflexivity.
Qed.

Lemma split_no_slash_parts s : Forall (λ x, no_slash x = true) (Path.split "/" s).
Proof.
  induction s as [|c s IH]; [repeat constructor|].
  cbn [Path.split]. case_decide as Hc.
  - constructor; [reflexivity | assumption].
  - destruct (Path.split "/" s) as [|w ws]; [repeat constructor|].
    + unfold no_slash. simpl. rewrite bool_decide_eq_false_2 by assumption.
      reflexivity.
    + apply Forall_cons in IH as [Hw Hws]. constructor; [|assumption].
      unfold no_slash in *. simpl. rewrite bool_decide_eq_false_2 by assumption.
      exact Hw.
Qed.

Lemma split_join ps :
  ps ≠ [] → Forall (λ x, no_slash x = true) ps →
  Path.split "/" (Py.join "/" ps) = ps.
Proof.
  induction ps as [|x ps IH]; [congruence|]. intros _ Hall.
  apply Forall_cons in Hall as [Hx Hps].
  destruct ps as [|y ps]; [apply split_no_slash; assumption|].
  change (Py.join "/" (x :: y :: ps)) with (x +:+ "/" +:+ Py.join "/" (y :: ps)).
  change ("/" +:+ Py.join "/" (y :: ps)) with (String "/" (Py.join "/" (y :: ps))).
  rewrite split_app_slash by assumption. rewrite IH; [reflexivity|discriminate|assumption].
Qed.

Lemma filter_plain ps :
  Forall plain_component ps → filter (λ x, x ≠ "" ∧ x ≠ ".") ps = ps.
Proof.
  induction 1 as [|x ps (Hx & Hd & _) _ IH]; [reflexivity|].
  rewrite filter_cons_True by tauto. rewrite IH. reflexivity.
Qed.

Lemma plain_no_slash ps :
  Forall plain_component ps → Forall (λ x, no_slash x = true) ps.
Proof.
  intros H. eapply Forall_impl; [exact H|]. intros x (_ & _ & Hx). exact Hx.
Qed.

Lemma root_of_cases s :
  Path.root_of s = "" ∨ Path.root_of s = "/" ∨ Path.root_of s = "//".
Proof.
  destruct s as [|a [|b [|c s]]]; simpl;
    repeat match goal with
      | |- context [match ?x with _ => _ end] => destruct x
      end; auto.
Qed.

Lemma parse_wf s : path_wf (Path.parse s).
Proof.
  split; [apply root_of_cases|]. simpl.
  pose proof (split_no_slash_parts s) as H.
  induction H as [|x l Hx _ IH]; [constructor|].
  destruct (decide (x ≠ "" ∧ x ≠ ".")) as [Hp|Hn].
  - rewrite filter_cons_True by assumption. constructor; [|exact IH].
    unfold plain_component. tauto.
  - rewrite filter_cons_False by assumption. exact IH.
Qed.

Lemma root_of_plain x rest : plain_component x → Path.root_of (x +:+ rest) = "".
Proof.
  intros (Hne & _ & Hs). destruct x as [|c x]; [congruence|].
  unfold no_slash in Hs. simpl in Hs.
  apply andb_true_iff in Hs as [Hc _].
  apply negb_true_iff, bool_decide_eq_false in Hc.
  change (String c x +:+ rest) with (String c (x +:+ rest)).
  unfold Path.root_of.
  destruct c as [[] [] [] [] [] [] [] []]; try reflexivity. congruence.
Qed.

Lemma join_cons x ps : ∃ rest, Py.join "/" (x :: ps) = x +:+ rest.
Proof.
  destruct ps as [|y ps].
  - exists "". simpl. induction x as [|c x IH]; [reflexivity|].
    change (String c x +:+ "") with (String c (x +:+ "")). congruence.
  - eexists. reflexivity.
Qed.

Lemma root_of_slash_plain x rest :
  plain_component x → Path.root_of (String "/" (x +:+ rest)) = "/".
Proof.
  intros (Hne & _ & Hs). destruct x as [|c x]; [congruence|].
  unfold no_slash in Hs. simpl in Hs.
  apply andb_true_iff in Hs as [Hc _].
  apply negb_true_iff, bool_decide_eq_false in Hc.
  change (String c x +:+ rest) with (String c (x +:+ rest)).
  unfold Path.root_of.
  destruct c as [[] [] [] [] [] [] [] []]; try reflexivity. congruence.
Qed.

Lemma root_of_slash2_plain x rest :
  plain_component x → Path.root_of (String "/" (String "/" (x +:+ rest))) = "//".
Proof.
  intros (Hne & _ & Hs). destruct x as [|c x]; [congruence|].
  unfold no_slash in Hs. simpl in Hs.
  apply andb_true_iff in Hs as [Hc _].
  apply negb_true_iff, bool_decide_eq_false in Hc.
  change (String c x +:+ rest) with (String c (x +:+ rest)).
  unfold Path.root_of.
  destruct c as [[] [] [] [] [] [] [] []]; try reflexivity. congruence.
Qed.

(** [Path(str(p)) == p] *)
Lemma parse_to_string p : path_wf p → Path.parse (Path.to_string p) = p.
Proof.
  destruct p as [r ps]. intros [Hr Hps]. simpl in Hr, Hps.
  destruct ps as [|x ps].
  - destruct Hr as [-> | [-> | ->]]; reflexivity.
  - pose proof (Forall_inv Hps) as Hx.
    destruct (join_cons x ps) as [rest Hrest].
    assert (Hsplit : Path.split "/" (Py.join "/" (x :: ps)) = x :: ps)
      by (apply split_join; [discriminate | apply plain_no_slash; assumption]).
    unfold Path.parse.
    destruct Hr as [-> | [-> | ->]]; unfold Path.to_string; simpl Path.root;
      simpl Path.parts; cbv iota.
    + change ("" +:+ Py.join "/" (x :: ps)) with (Py.join "/" (x :: ps)).
      rewrite Hsplit, (filter_plain _ Hps). f_equal.
      rewrite Hrest. apply root_of_plain. assumption.
    + change ("/" +:+ Py.join "/" (x :: ps)) with (String "/" (Py.join "/" (x :: ps))).
      cbn [Path.split]. rewrite decide_True by reflexivity.
      rewrite Hsplit. rewrite filter_cons_False by tauto.
      rewrite (filter_plain _ Hps). f_equal.
      rewrite Hrest. apply root_of_slash_plain. assumption.
    + change ("//" +:+ Py.join "/" (x :: ps))
        with (String "/" (String "/" (Py.join "/" (x :: ps)))).
      cbn [Path.split]. rewrite !decide_True by reflexivity.
      rewrite Hsplit. rewrite !filter_cons_False by tauto.
      rewrite (filter_plain _ Hps). f_equal.
      rewrite Hrest. apply root_of_slash2_plain. assumption.
Qed.

Lemma parse_canonical s :
  Path.parse (Path.to_string (Path.parse s)) = Path.parse s.
Proof. apply parse_to_string, parse_wf. Qed.

Lemma append_empty_r (s : string) : s +:+ "" = s.
Proof.
  induction s as [|c s IH]; [reflexivity|].
  change (String c s +:+ "") with (String c (s +:+ "")). congruence.
Qed.

Lemma take_drop_str i s : Py.take i s +:+ Py.drop i s = s.
Proof.
  revert s. induction i as [|i IH]; intros [|c s]; try reflexivity.
  cbn [Py.take Py.drop].
  change (String c (Py.take i s) +:+ Py.drop i s)
    with (String c (Py.take i s +:+ Py.drop i s)).
  rewrite IH. reflexivity.
Qed.

Lemma all_chars_drop P n s :
  Py.all_chars P s = true → Py.all_chars P (Py.drop n s) = true.
Proof.
  revert s. induction n as [|n IH]; intros [|c s]; simpl; try tauto.
  rewrite andb_true_iff. intros [_ Hs]. auto.
Qed.

Lemma stem_suffix p : Path.stem p +:+ Path.suffix p = Path.name p.
Proof.
  unfold Path.stem, Path.suffix. cbv zeta.
  destruct (Path.rfind_dot (Path.name p)) as [i|]; [|apply append_empty_r].
  destruct ((0 <? i)%nat && (i <? String.length (Path.name p) - 1)%nat);
    [apply take_drop_str | apply append_empty_r].
Qed.

Lemma stem_nonempty p : Path.name p ≠ "" → Path.stem p ≠ "".
Proof.
  unfold Path.stem. cbv zeta. intros Hn.
  destruct (Path.rfind_dot (Path.name p)) as [i|]; [|assumption].
  destruct ((0 <? i)%nat && (i <? String.length (Path.name p) - 1)%nat) eqn:Hi;
    [|assumption].
  apply andb_true_iff in Hi as [Hi _]. apply Nat.ltb_lt in Hi.
  destruct i as [|i]; [lia|].
  destruct (Path.name p); [congruence|discriminate].
Qed.

Lemma stem_no_slash p : no_slash (Path.name p) = true → no_slash (Path.stem p) = true.
Proof.
  unfold Path.stem, no_slash. cbv zeta. intros Hn.
  destruct (Path.rfind_dot (Path.name p)) as [i|]; [|assumption].
  destruct ((0 <? i)%nat && (i <? String.length (Path.name p) - 1)%nat);
    [apply all_chars_take|]; assumption.
Qed.

Lemma suffix_no_slash p :
  no_slash (Path.name p) = true → no_slash (Path.suffix p) = true.
Proof.
  unfold Path.suffix, no_slash. cbv zeta. intros Hn.
  destruct (Path.rfind_dot (Path.name p)) as [i|]; [|reflexivity].
  destruct ((0 <? i)%nat && (i <? String.length (Path.name p) - 1)%nat);
    [apply all_chars_drop; assumption | reflexivity].
Qed.

Lemma name_plain p :
  path_wf p → Path.parts p ≠ [] → plain_component (Path.name p).
Proof.
  intros [_ Hps] Hne. unfold Path.name.
  destruct (exists_last Hne) as (l & x & Hl). rewrite Hl in Hps |- *.
  rewrite last_last. apply Forall_app in Hps as [_ Hx].
  apply Forall_inv in Hx. exact Hx.
Qed.

(** The name that [generate_obfuscated_filename] builds is one component. *)
Lemma new_name_plain p sfx :
  plain_component (Path.name p) → no_slash sfx = true →
  plain_component (Path.stem p +:+ sfx +:+ Path.suffix p).
Proof.
  intros (Hne & Hdot & Hs) Hsfx.
  pose proof (stem_nonempty p Hne) as Hst.
  assert (Hlen : String.length (Path.stem p +:+ sfx +:+ Path.suffix p)
                 = (String.length (Path.stem p) + String.length sfx
                    + String.length (Path.suffix p))%nat)
    by (rewrite !str_length_app; lia).
  split; [|split].
  - intros H. rewrite H in Hlen. simpl in Hlen.
    destruct (Path.stem p); [congruence|simpl in Hlen; lia].
  - intros H. rewrite H in Hlen. simpl in Hlen.
    assert (Hsfx0 : sfx = "") by (destruct sfx; [reflexivity|];
      destruct (Path.stem p); [congruence|simpl in Hlen; lia]).
    assert (Hext : Path.suffix p = "") by (destruct (Path.suffix p); [reflexivity|];
      destruct (Path.stem p); [congruence|simpl in Hlen; lia]).
    rewrite Hsfx0, Hext in H.
    change ("" +:+ "") with "" in H. rewrite append_empty_r in H.
    apply Hdot. rewrite <- (stem_suffix p), Hext, append_empty_r. exact H.
  - unfold no_slash. rewrite !all_chars_app.
    fold (no_slash (Path.stem p)). fold (no_slash sfx).
    fold (no_slash (Path.suffix p)).
    rewrite stem_no_slash, Hsfx, suffix_no_slash by assumption. reflexivity.
Qed.

Lemma parse_plain x : plain_component x → Path.parse x = Path.Build "" [x].
Proof.
  intros Hx. unfold Path.parse.
  rewrite <- (append_empty_r x) at 1. rewrite (root_of_plain x "" Hx).
  destruct Hx as (Hne & Hdot & Hs).
  rewrite (split_no_slash x Hs). rewrite filter_cons_True by tauto.
  reflexivity.
Qed.

Lemma Forall_removelast {A} (P : A → Prop) l : Forall P l → Forall P (removelast l).
Proof.
  induction 1 as [|x l Hx Hl IH]; [constructor|].
  destruct l as [|y l]; [constructor|].
  change (removelast (x :: y :: l)) with (x :: removelast (y :: l)).
  constructor; assumption.
Qed.

Lemma generate_parse file_path sfx :
  no_slash sfx = true → Path.parts (Path.parse file_path) ≠ [] →
  Path.parse (generate_obfuscated_filename file_path sfx)
  = Path.Build (Path.root (Path.parse file_path))
      (removelast (Path.parts (Path.parse file_path))
       ++ [Path.stem (Path.parse file_path) +:+ sfx
           +:+ Path.suffix (Path.parse file_path)]).
Proof.
  intros Hsfx Hne. unfold generate_obfuscated_filename. cbv zeta.
  pose proof (parse_wf file_path) as Hwf.
  pose proof (new_name_plain _ sfx (name_plain _ Hwf Hne) Hsfx) as Hx.
  unfold Path.joinpath. rewrite (parse_plain _ Hx). cbn [Path.root Path.parts].
  rewrite decide_True by reflexivity.
  apply parse_to_string. destruct Hwf as [Hr Hps]. split; [exact Hr|].
  cbn [Path.parts Path.parent]. apply Forall_app. split.
  - apply Forall_removelast. assumption.
  - constructor; [assumption|constructor].
Qed.

Lemma stem_of_name p q : Path.name p = Path.name q → Path.stem p = Path.stem q.
Proof. unfold Path.stem. intros ->. reflexivity. Qed.

Lemma suffix_of_name p q : Path.name p = Path.name q → Path.suffix p = Path.suffix q.
Proof. unfold Path.suffix. intros ->. reflexivity. Qed.

Lemma obfuscated_name_of_path file_path sfx :
  Path.parts (Path.parse file_path) ≠ [] →
  obfuscated_name (Path.name (Path.parse file_path)) sfx
  = Path.stem (Path.parse file_path) +:+ sfx +:+ Path.suffix (Path.parse file_path).
Proof.
  intros Hne. unfold obfuscated_name.
  pose proof (name_plain _ (parse_wf file_path) Hne) as Hn.
  assert (Hname : Path.name (Path.parse (Path.name (Path.parse file_path)))
                  = Path.name (Path.parse file_path))
    by (rewrite (parse_plain _ Hn); reflexivity).
  rewrite (stem_of_name _ _ Hname), (suffix_of_name _ _ Hname). reflexivity.
Qed.

(** X18.  The output path of a file.  For a path with a file name and a
    suffix without [/], [generate_obfuscated_filename] gives a path in the
    same directory whose name is stem + suffix + extension of the original
    name, so it is longer by the suffix; the text returned is the path in
    canonical form; with a non-empty suffix it is never the path of the
    file itself; and it carries the very name that the HTML rewriter puts
    in the stylesheet links for that file. *)
Theorem generate_obfuscated_filename_spec (file_path suffix : string) :
  no_slash suffix = true → Path.parts (Path.parse file_path) ≠ [] →
  let out := generate_obfuscated_filename file_path suffix in
  Path.name (Path.parse out)
  = Path.stem (Path.parse file_path) +:+ suffix +:+ Path.suffix (Path.parse file_path)
  ∧ Path.parent (Path.parse out) = Path.parent (Path.parse file_path)
  ∧ Path.to_string (Path.parse out) = out
  ∧ String.length (Path.name (Path.parse out))
    = (String.length (Path.name (Path.parse file_path)) + String.length suffix)%nat
  ∧ (suffix ≠ "" → out ≠ file_path)
  ∧ ∀ css_files, file_path ∈ css_files →
      css_file_mapping_of css_files suffix !! Path.name (Path.parse file_path)
      = Some (Path.name (Path.parse out)).
Proof.
  intros Hsfx Hne out.
  pose proof (generate_parse file_path suffix Hsfx Hne) as Hp. fold out in Hp.
  assert (Hname : Path.name (Path.parse out)
                  = Path.stem (Path.parse file_path) +:+ suffix
                    +:+ Path.suffix (Path.parse file_path)).
  { rewrite Hp. unfold Path.name. cbn [Path.parts]. apply last_last. }
  assert (Hlen : String.length (Path.name (Path.parse out))
                 = (String.length (Path.name (Path.parse file_path))
                    + String.length suffix)%nat).
  { rewrite Hname, <- (stem_suffix (Path.parse file_path)), !str_length_app. lia. }
  split; [exact Hname|]. split; [|split; [|split; [exact Hlen|split]]].
  - rewrite Hp. unfold Path.parent. cbn [Path.root Path.parts].
    rewrite removelast_last. reflexivity.
  - unfold out at 2. unfold generate_obfuscated_filename. cbv zeta.
    fold (generate_obfuscated_filename file_path suffix). fold out.
    rewrite Hp. unfold generate_obfuscated_filename in out.
    unfold out. unfold Path.joinpath.
    pose proof (new_name_plain _ suffix
                  (name_plain _ (parse_wf file_path) Hne) Hsfx) as Hx.
    rewrite (parse_plain _ Hx). cbn [Path.root Path.parts].
    rewrite decide_True by reflexivity. reflexivity.
  - intros Hs He. rewrite He in Hlen.
    destruct suffix; [congruence|simpl in Hlen; lia].
  - intros css_files Hin. rewrite css_file_mapping_lookup.
    rewrite decide_True
      by (apply list_elem_of_fmap; exists file_path; split; [reflexivity|assumption]).
    rewrite obfuscated_name_of_path by assumption. rewrite Hname. reflexivity.
Qed.

Lemma generate_obfuscated_filename_spec_witness :
  Path.name (Path.parse (generate_obfuscated_filename "site/css/style.css" "_obfuscated"))
  = Path.stem (Path.parse "site/css/style.css") +:+ "_obfuscated"
    +:+ Path.suffix (Path.parse "site/css/style.css").
Proof.
  apply (generate_obfuscated_filename_spec "site/css/style.css" "_obfuscated");
    [reflexivity | discriminate].
Defined.

(** ** The inline styles *)

Lemma get_at_erase q s : get_at q (erase s) = erase <$> get_at q s.
Proof.
  revert s. induction q as [|i q IH]; intros s; [reflexivity|].
  destruct s as [n a cs|x]; [|reflexivity].
  cbn [erase get_at]. change (map erase cs) with (erase <$> cs).
  rewrite list_lookup_fmap. destruct (cs !! i) as [c|]; [apply IH | reflexivity].
Qed.

Lemma map_alter_same {A B} (φ : A → B) (g : A → A) i l c :
  l !! i = Some c → φ (g c) = φ c → map φ (alter g i l) = map φ l.
Proof.
  revert i. induction l as [|x l IH]; intros [|i] Hi Hg; try discriminate.
  - injection Hi as ->. simpl. rewrite Hg. reflexivity.
  - simpl. f_equal. apply IH; assumption.
Qed.

Lemma erase_update_at p t t' s :
  get_at p s = Some t → erase t' = erase t →
  erase (update_at p (λ _, t') s) = erase s.
Proof.
  revert s. induction p as [|i p IH]; intros s Hget He.
  - injection Hget as ->. exact He.
  - destruct s as [n a cs|x]; [|discriminate].
    cbn [get_at] in Hget. destruct (cs !! i) as [c|] eqn:Hc; [|discriminate].
    cbn [update_at erase]. f_equal.
    apply (map_alter_same erase _ i cs c Hc). apply IH; assumption.
Qed.

Lemma for_each_erase f ps s s' :
  (∀ t t', f t = Ok t' → erase t' = erase t) →
  for_each f ps s = Ok s' → erase s' = erase s.
Proof.
  intros Hf. revert s. induction ps as [|p ps IH]; intros s; cbn [for_each].
  - intros [= <-]. reflexivity.
  - destruct (get_at p s) as [t|] eqn:Hget; [|apply IH].
    destruct (f t) as [t'|e] eqn:Ht; cbn [rbind]; [|discriminate].
    intros H. rewrite (IH _ H). eapply erase_update_at; [exact Hget|].
    apply Hf, Ht.
Qed.

Lemma on_attrs_erase h t t' : on_attrs h t = Ok t' → erase t' = erase t.
Proof.
  destruct t as [n a cs|x]; simpl; [|intros [= <-]; reflexivity].
  destruct (h a); simpl; [|discriminate]. intros [= <-]. reflexivity.
Qed.

Lemma erase_text c x : erase c = NavigableString x → c = NavigableString x.
Proof. destruct c; [discriminate | exact id]. Qed.

Lemma map_erase_texts cs1 cs :
  map erase cs1 = map erase cs → Forall is_text cs → cs1 = cs.
Proof.
  revert cs1. induction cs as [|c cs IH]; intros [|c1 cs1] H Ht; try discriminate.
  - reflexivity.
  - apply Forall_cons in Ht as [[x ->] Ht]. injection H as Hc Hcs.
    f_equal; [apply erase_text, Hc | apply IH; assumption].
Qed.

(** Trees that differ by attributes only hold the same texts and, at a tag
    whose children are texts, the same tag with the same children. *)
Lemma erase_get_tag s1 s q n a cs :
  erase s1 = erase s → get_at q s = Some (Tag n a cs) →
  ∃ a1 cs1, get_at q s1 = Some (Tag n a1 cs1) ∧ map erase cs1 = map erase cs.
Proof.
  intros He Hq. pose proof (get_at_erase q s1) as H1.
  rewrite He, get_at_erase, Hq in H1. cbn in H1.
  destruct (get_at q s1) as [[n1 a1 cs1|x1]|]; try discriminate.
  injection H1 as <- H1. eauto.
Qed.

Lemma erase_get_text s1 s q x :
  erase s1 = erase s → get_at q s = Some (NavigableString x) →
  get_at q s1 = Some (NavigableString x).
Proof.
  intros He Hq. pose proof (get_at_erase q s1) as H1.
  rewrite He, get_at_erase, Hq in H1. cbn in H1.
  destruct (get_at q s1) as [[n1 a1 cs1|x1]|]; try discriminate.
  injection H1 as <-. reflexivity.
Qed.

Lemma erase_styles_hold_text s1 s :
  erase s1 = erase s → styles_hold_text s → styles_hold_text s1.
Proof.
  intros He Hs q a1 cs1 Hq.
  destruct (erase_get_tag s s1 q "style" a1 cs1 (eq_sym He) Hq)
    as (a & cs & Hq' & Hcs).
  pose proof (Hs q a cs Hq') as Ht.
  rewrite (map_erase_texts cs1 cs (eq_sym Hcs) Ht). exact Ht.
Qed.

Lemma get_at_update_at_apart p q g s :
  ¬ p `prefix_of` q → ¬ q `prefix_of` p →
  get_at q (update_at p g s) = get_at q s.
Proof.
  revert q s. induction p as [|i p IH]; intros q s Hpq Hqp.
  - exfalso. apply Hpq, prefix_nil.
  - destruct q as [|j q]; [exfalso; apply Hqp, prefix_nil|].
    destruct s as [n a cs|x]; [|reflexivity].
    cbn [update_at get_at]. destruct (decide (i = j)) as [->|Hij].
    + rewrite list_lookup_alter_eq. destruct (cs !! j) as [c|]; [|reflexivity].
      cbn. apply IH; intros H.
      * apply Hpq, prefix_cons, H.
      * apply Hqp, prefix_cons, H.
    + rewrite list_lookup_alter_ne by assumption. reflexivity.
Qed.

Lemma get_at_update_at_here p t t' s :
  get_at p s = Some t → get_at p (update_at p (λ _, t') s) = Some t'.
Proof.
  intros Hget. pose proof (get_at_update_at_prefix p [] (λ _, t') s) as H.
  rewrite app_nil_r, Hget in H. exact H.
Qed.

(** Below a tag whose children are texts there are these texts only. *)
Lemma below_texts p r s n a cs t :
  get_at p s = Some (Tag n a cs) → Forall is_text cs →
  get_at (p ++ r) s = Some t →
  r = [] ∨ ∃ i x, r = [i] ∧ t = NavigableString x.
Proof.
  intros Hp Ht Hr. rewrite get_at_app, Hp in Hr. cbn in Hr.
  destruct r as [|i r]; [left; reflexivity|]. right.
  cbn [get_at] in Hr. destruct (cs !! i) as [c|] eqn:Hc; [|discriminate].
  rewrite Forall_forall in Ht.
  destruct (Ht c (list_elem_of_lookup_2 _ _ _ Hc)) as [x ->].
  destruct r; [|discriminate]. injection Hr as <-. eauto.
Qed.

Lemma tags_apart p p' s n a cs n' a' cs' :
  get_at p s = Some (Tag n a cs) → Forall is_text cs →
  get_at p' s = Some (Tag n' a' cs') → p ≠ p' → ¬ p `prefix_of` p'.
Proof.
  intros Hp Ht Hp' Hne [r ->].
  destruct (below_texts p r s n a cs _ Hp Ht Hp') as [->|(i & x & _ & H)].
  - apply Hne. rewrite app_nil_r. reflexivity.
  - discriminate H.
Qed.

Lemma update_style_texts mappings n a cs t' :
  Forall is_text cs → update_style mappings (Tag n a cs) = Ok t' →
  ∃ cs', t' = Tag n a cs' ∧ Forall is_text cs'
       ∧ ∀ s, cs = [NavigableString s] →
           ∃ out, cs' = [NavigableString out]
                ∧ if decide (s = "") then out = ""
                  else process_css_content s mappings = Ok out.
Proof.
  intros Ht. unfold update_style.
  destruct cs as [|c [|c2 cs]].
  - cbn. intros [= <-]. exists []. split; [reflexivity|]. split; [constructor|].
    intros s H. discriminate H.
  - apply Forall_inv in Ht as [x ->]. cbn [tag_string].
    case_decide as Hx.
    + intros [= <-]. exists [NavigableString x].
      split; [reflexivity|]. split; [repeat constructor; exists x; reflexivity|].
      intros s [= <-]. exists x. split; [reflexivity|].
      rewrite decide_True by assumption. exact Hx.
    + destruct (process_css_content x mappings) as [out|e] eqn:Hout;
        cbn [rbind replace_string]; [|discriminate].
      intros [= <-]. exists [NavigableString out].
      split; [reflexivity|]. split; [repeat constructor; exists out; reflexivity|].
      intros s [= <-]. exists out. split; [reflexivity|].
      rewrite decide_False by assumption. exact Hout.
  - assert (Hnone : tag_string (Tag n a (c :: c2 :: cs)) = None)
      by (destruct c; reflexivity).
    rewrite Hnone. intros [= <-]. exists (c :: c2 :: cs).
    split; [reflexivity|]. split; [exact Ht|]. intros s H. discriminate H.
Qed.

(** The loop over tags whose children are texts: each tag visited gets
    what the loop body returns for it, and what is neither above nor below
    a tag visited stays. *)
Lemma style_loop_get mappings ps :
  NoDup ps →
  ∀ s s',
    (∀ p, p ∈ ps → ∃ n a cs, get_at p s = Some (Tag n a cs) ∧ Forall is_text cs) →
    for_each (update_style mappings) ps s = Ok s' →
    (∀ p, p ∈ ps → ∃ t t', get_at p s = Some t ∧ update_style mappings t = Ok t'
                          ∧ get_at p s' = Some t')
    ∧ (∀ q, (∀ p, p ∈ ps → ¬ p `prefix_of` q ∧ ¬ q `prefix_of` p) →
            get_at q s' = get_at q s).
Proof.
  induction 1 as [|p ps Hp Hnd IH]; intros s s' Htags; cbn [for_each].
  - intros [= <-]. split; [intros p Hp; inversion Hp | reflexivity].
  - destruct (Htags p (list_elem_of_here _ _)) as (n & a & cs & Hget & Htext).
    rewrite Hget.
    destruct (update_style mappings (Tag n a cs)) as [t'|e] eqn:Hup;
      cbn [rbind]; [|discriminate].
    intros Hloop.
    assert (Hapart : ∀ p', p' ∈ ps → ¬ p `prefix_of` p' ∧ ¬ p' `prefix_of` p).
    { intros p' Hp'.
      destruct (Htags p' (list_elem_of_further _ _ _ Hp'))
        as (n' & a' & cs' & Hget' & Htext').
      assert (p ≠ p') by (intros ->; contradiction).
      split; [eapply tags_apart | eapply tags_apart]; eauto. }
    assert (Hsame : ∀ p', p' ∈ ps →
              get_at p' (update_at p (λ _, t') s) = get_at p' s).
    { intros p' Hp'. destruct (Hapart p' Hp').
      apply get_at_update_at_apart; assumption. }
    destruct (IH (update_at p (λ _, t') s) s') as [IH1 IH2]; [|exact Hloop|].
    { intros p' Hp'. rewrite (Hsame p' Hp').
      apply Htags. right. exact Hp'. }
    split.
    + intros q Hq. apply elem_of_cons in Hq as [->|Hq].
      * exists (Tag n a cs), t'. split; [exact Hget|]. split; [exact Hup|].
        rewrite IH2.
        -- eapply get_at_update_at_here, Hget.
        -- intros p' Hp'. destruct (Hapart p' Hp'). tauto.
      * destruct (IH1 q Hq) as (t & t2 & Ht & Hu & Hs').
        exists t, t2. rewrite <- (Hsame q Hq). auto.
    + intros q Hq. rewrite IH2.
      * destruct (Hq p (list_elem_of_here _ _)).
        apply get_at_update_at_apart; assumption.
      * intros p' Hp'. apply Hq. right. exact Hp'.
Qed.

Lemma styles_ok_sound t : styles_ok t = true → styles_hold_text t.
Proof.
  intros Hok q. revert t Hok. induction q as [|i q IH]; intros t Hok a cs Hq.
  - injection Hq as ->. cbn [styles_ok] in Hok.
    rewrite decide_True in Hok by reflexivity.
    apply andb_true_iff in Hok as [Hok _].
    rewrite forallb_forall in Hok. apply Forall_forall. intros c Hc.
    apply list_elem_of_In, Hok in Hc. destruct c; [discriminate|].
    eexists. reflexivity.
  - destruct t as [n a0 cs0|x]; [|discriminate].
    cbn [get_at] in Hq. destruct (cs0 !! i) as [c|] eqn:Hc; [|discriminate].
    cbn [styles_ok] in Hok. apply andb_true_iff in Hok as [_ Hok].
    rewrite forallb_forall in Hok.
    refine (IH c _ a cs Hq).
    apply Hok, list_elem_of_In. eapply list_elem_of_lookup_2. exact Hc.
Qed.

Lemma style_positions s1 p :
  styles_hold_text s1 → p ∈ find_all is_style s1 →
  ∃ a cs, get_at p s1 = Some (Tag "style" a cs) ∧ Forall is_text cs.
Proof.
  intros Hs Hp. apply elem_of_find_all in Hp as (_ & n & a & Hown & Hn).
  unfold is_style in Hn. apply bool_decide_eq_true in Hn. subst n.
  apply own_at_Tag in Hown as [cs Hget].
  exists a, cs. split; [exact Hget|]. exact (Hs p a cs Hget).
Qed.

(** X25.  The loop over the inline styles.  In a document whose [style]
    tags hold texts only, and for which the rewriter returns: a [style] tag
    below the root that held one text holds, afterwards, the text that
    [process_css_content] returns for it with the same mappings (an empty
    text stays empty); and a text that is not the child of a [style] tag
    is left as it is. *)
Theorem rewrite_soup_styles (soup : node) (mappings : list ClassMapping)
    (css_files : list string) (output_suffix : string) (soup' : node) :
  styles_hold_text soup →
  rewrite_soup soup mappings css_files output_suffix = Ok soup' →
  (∀ q a s,
     q ≠ [] → get_at q soup = Some (Tag "style" a [NavigableString s]) →
     ∃ a' out,
       get_at q soup' = Some (Tag "style" a' [NavigableString out])
       ∧ if decide (s = "") then out = ""
         else process_css_content s mappings = Ok out)
  ∧ (∀ q x,
       get_at q soup = Some (NavigableString x) →
       (∀ p i a cs, q = p ++ [i] → get_at p soup ≠ Some (Tag "style" a cs)) →
       get_at q soup' = Some (NavigableString x)).
Proof.
  intros Hs Hrw.
  destruct (rewrite_soup_steps _ _ _ _ _ Hrw) as (s1 & s2 & H1 & H2 & H3).
  assert (E1 : erase s1 = erase soup)
    by (eapply for_each_erase; [|exact H1]; intros t t'; apply on_attrs_erase).
  assert (E3 : erase soup' = erase s2)
    by (eapply for_each_erase; [|exact H3]; intros t t'; apply on_attrs_erase).
  pose proof (erase_styles_hold_text s1 soup E1 Hs) as Hs1.
  destruct (style_loop_get mappings (find_all is_style s1) (NoDup_find_all _ _)
              s1 s2) as [Hvisited Hrest]; [|exact H2|].
  { intros p Hp. destruct (style_positions s1 p Hs1 Hp) as (a & cs & Hget & Ht).
    eauto. }
  split.
  - intros q a s Hne Hq.
    destruct (erase_get_tag s1 soup q "style" a _ E1 Hq) as (a1 & cs1 & Hq1 & Hcs1).
    assert (cs1 = [NavigableString s]) as ->.
    { apply map_erase_texts; [exact Hcs1|].
      constructor; [exists s; reflexivity | constructor]. }
    assert (Hin : q ∈ find_all is_style s1).
    { apply elem_of_find_all. split; [exact Hne|].
      exists "style", a1. split; [apply own_at_Tag; eauto | reflexivity]. }
    destruct (Hvisited q Hin) as (t & t' & Ht & Hup & Hq2).
    rewrite Hq1 in Ht. injection Ht as <-.
    destruct (update_style_texts mappings "style" a1 [NavigableString s] t')
      as (cs' & -> & _ & Hout); [|exact Hup|].
    { constructor; [exists s; reflexivity | constructor]. }
    destruct (Hout s eq_refl) as (out & -> & Hcond).
    destruct (erase_get_tag soup' s2 q "style" a1 _ E3 Hq2) as (a' & cs3 & Hq3 & Hcs3).
    assert (cs3 = [NavigableString out]) as ->.
    { apply map_erase_texts; [exact Hcs3|].
      constructor; [exists out; reflexivity | constructor]. }
    exists a', out. split; [exact Hq3 | exact Hcond].
  - intros q x Hq Hparent.
    pose proof (erase_get_text s1 soup q x E1 Hq) as Hq1.
    apply (erase_get_text soup' s2 q x E3).
    rewrite Hrest; [exact Hq1|].
    intros p Hp. destruct (style_positions s1 p Hs1 Hp) as (a1 & cs1 & Hp1 & Ht1).
    split.
    + intros [r ->].
      destruct (below_texts p r s1 "style" a1 cs1 _ Hp1 Ht1 Hq1)
        as [->|(i & y & -> & _)].
      * rewrite app_nil_r in Hq1. congruence.
      * destruct (erase_get_tag soup s1 p "style" a1 cs1 (eq_sym E1) Hp1)
          as (a & cs & Hp0 & _).
        exact (Hparent p i a cs eq_refl Hp0).
    + intros [r ->]. rewrite get_at_app, Hq1 in Hp1. cbn in Hp1.
      destruct r; discriminate Hp1.
Qed.

Lemma rewrite_soup_styles_witness :
  ∃ a' out,
    get_at [0%nat; 0%nat; 1%nat] Example.page_rewritten
    = Some (Tag "style" a' [NavigableString out])
    ∧ if decide (".btn{} .box{}" = "") then out = ""
      else process_css_content ".btn{} .box{}" Example.page_mappings = Ok out.
Proof.
  refine (proj1 (rewrite_soup_styles Example.page Example.page_mappings
                   ["site/css/style.css"] "_obfuscated" Example.page_rewritten _ _)
            [0%nat; 0%nat; 1%nat] [] ".btn{} .box{}" _ _).
  - apply styles_ok_sound. reflexivity.
  - vm_compute. reflexivity.
  - discriminate.
  - reflexivity.
Defined.

(** ** The scan of the folder and the backup *)

Lemma py_sorted_leb_sorted (l : list string) :
  StronglySorted String.le (py_sorted String.leb l).
Proof.
  apply (@py_sorted_StronglySorted string String.leb String.le _ (λ _ _, True)).
  - intros x y _ H. unfold String.le. rewrite H. exact I.
  - intros x y H. apply leb_false_lex_lt, lex_lt_iff in H. tauto.
  - induction l as [|x l IH]; constructor; [assumption|].
    apply Forall_forall. auto.
Qed.


Lemma copy2_eq src dst w st :
  copy2 src dst (w, st)
  = match files w !! src with
    | Some content =>
        (Ok (),
         (World (<[(if decide (dst ∈ dirs w)
                    then Path.to_string (Path.joinpath (Path.parse dst)
                                           (Path.name (Path.parse src)))
                    else dst) := content]> (files w))
            (dirs w) (log w ++ [Copy src dst]), st))
    | None =>
        (Raise (OSError ("[Errno 2] No such file or directory: '" +:+ src +:+ "'")),
         (World (files w) (dirs w) (log w ++ [Copy src dst]), st))
    end.
Proof.
  unfold copy2, bind, log_event. simpl. destruct (files w !! src); reflexivity.
Qed.

(** X17.  The module-level [create_backup] never raises and never changes
    the file it copies.  When the file exists it returns the path with
    [.backup] appended, and, that path being no directory, the file at
    that path then holds the content of the original, all other files
    being as before; when the file does not exist it returns [None] and
    no file changes.  In both cases one copy is logged. *)
Theorem create_backup_spec (file_path : string) (w : world) (st : stats) :
  let '(r, (w', st')) := create_backup file_path (w, st) in
  st' = st
  ∧ dirs w' = dirs w
  ∧ log w' = log w ++ [Copy file_path (file_path +:+ ".backup")]
  ∧ files w' !! file_path = files w !! file_path
  ∧ match files w !! file_path with
    | Some content =>
        r = Ok (Some (file_path +:+ ".backup"))
        ∧ (file_path +:+ ".backup" ∉ dirs w →
           files w' = <[file_path +:+ ".backup" := content]> (files w))
    | None => r = Ok None ∧ files w' = files w
    end.
Proof.
  unfold create_backup, try_except, bind. rewrite copy2_eq.
  destruct (files w !! file_path) as [content|] eqn:Hf; unfold ret; cbn [files dirs log].
  - repeat split; try reflexivity.
    + match goal with |- <[?t := _]> _ !! _ = _ =>
        destruct (decide (t = file_path)) as [He|Hne]
      end.
      * rewrite He, lookup_insert_eq. reflexivity.
      * rewrite lookup_insert_ne by assumption. exact Hf.
    + intros Hd. rewrite decide_False by assumption. reflexivity.
  - repeat split; try reflexivity. exact Hf.
Qed.

(** ** What a run may touch *)

Section Effect.
Variables R T : string → Prop.

Lemma effect_refl s : effect R T s s.
Proof.
  repeat split; try reflexivity; try tauto.
  exists []. rewrite app_nil_r. split; [reflexivity | constructor].
Qed.

Lemma effect_trans s1 s2 s3 : effect R T s1 s2 → effect R T s2 s3 → effect R T s1 s3.
Proof.
  intros (D1 & F1 & K1 & (l1 & L1 & A1) & B1 & C1)
         (D2 & F2 & K2 & (l2 & L2 & A2) & B2 & C2).
  split; [congruence|]. split; [|split; [|split; [|split]]].
  - intros p Hp. rewrite F2, F1 by assumption. reflexivity.
  - intros p Hp. apply K2, K1, Hp.
  - exists (l1 ++ l2). split; [rewrite L2, L1, app_assoc; reflexivity|].
    apply Forall_app. split; assumption.
  - congruence.
  - tauto.
Qed.

Lemma effect_ret {A} (a : A) : effect_m R T (ret a).
Proof. intros s. apply effect_refl. Qed.

Lemma effect_raise {A} e : effect_m R T (@raise state A e).
Proof. intros s. apply effect_refl. Qed.

Lemma effect_lift {A} (r : result A) : effect_m R T (lift r).
Proof. intros s. apply effect_refl. Qed.

Lemma effect_bind {A B} (m : M state A) (k : A → M state B) :
  effect_m R T m → (∀ a, effect_m R T (k a)) → effect_m R T (bind m k).
Proof.
  intros Hm Hk s. unfold bind. specialize (Hm s).
  destruct (m s) as [[a|e] s']; simpl in *; [|assumption].
  eapply effect_trans; [exact Hm | apply Hk].
Qed.

Lemma effect_try_except {A} (m : M state A) (h : exn → M state A) :
  effect_m R T m → (∀ e, effect_m R T (h e)) → effect_m R T (try_except m h).
Proof.
  intros Hm Hh s. unfold try_except. specialize (Hm s).
  destruct (m s) as [[a|e] s']; simpl in *; [assumption|].
  eapply effect_trans; [exact Hm | apply Hh].
Qed.

Lemma effect_for_loop {A X} (l : list X) (body : X → A → M state A) a :
  (∀ x a, x ∈ l → effect_m R T (body x a)) → effect_m R T (for_loop l body a).
Proof.
  revert a. induction l as [|x l IH]; intros a Hb; simpl.
  - apply effect_ret.
  - apply effect_bind; [apply Hb; left|].
    intros a'. apply IH. intros y b Hy. apply Hb. right. assumption.
Qed.

Lemma effect_read_text f : R f → effect_m R T (read_text f).
Proof.
  intros Hf [w st]. rewrite read_text_eq.
  repeat split; try reflexivity; try tauto.
  exists [Read f]. split; [reflexivity|].
  constructor; [|constructor]. left. eauto.
Qed.

Lemma effect_write_text p content : T p → effect_m R T (write_text p content).
Proof.
  intros Hp [w st]. unfold write_text, bind, log_event. simpl.
  case_decide; simpl.
  - repeat split; try reflexivity; try tauto.
    exists [Write p]. split; [reflexivity|].
    constructor; [|constructor]. right. eauto.
  - split; [reflexivity|]. split; [|split; [|split; [|split]]]; try tauto.
    + intros q Hq. apply lookup_insert_ne. intros ->. contradiction.
    + intros q Hq. apply lookup_insert_is_Some.
      destruct (decide (p = q)); [left|right]; auto.
    + exists [Write p]. split; [reflexivity|].
      constructor; [|constructor]. right. eauto.
Qed.

Lemma effect_add_error msg : effect_m R T (add_error msg).
Proof.
  intros [w st]. repeat split; try reflexivity; try tauto.
  exists []. simpl. rewrite app_nil_r. split; [reflexivity | constructor].
Qed.

Lemma effect_add_processed_css f o : effect_m R T (add_processed_css f o).
Proof.
  intros [w st]. repeat split; try reflexivity; try tauto.
  exists []. simpl. rewrite app_nil_r. split; [reflexivity | constructor].
Qed.

Lemma effect_add_processed_html f o : effect_m R T (add_processed_html f o).
Proof.
  intros [w st]. repeat split; try reflexivity; try tauto.
  exists []. simpl. rewrite app_nil_r. split; [reflexivity | constructor].
Qed.

Lemma effect_set_mappings ms : effect_m R T (set_mappings ms).
Proof.
  intros [w st]. repeat split; try reflexivity; try tauto.
  exists []. simpl. rewrite app_nil_r. split; [reflexivity | constructor].
Qed.

Lemma effect_scan_project_files folder extensions :
  effect_m R T (scan_project_files folder extensions).
Proof.
  intros [w st]. unfold scan_project_files.
  destruct (decide _); apply effect_refl.
Qed.

Lemma effect_scan_css parse_stylesheet f acc :
  R f → effect_m R T (scan_css parse_stylesheet f acc).
Proof.
  intros Hf. unfold scan_css. apply effect_try_except.
  - apply effect_bind; [apply effect_read_text; assumption|].
    intros content. apply effect_ret.
  - intros e. apply effect_bind; [apply effect_add_error|].
    intros _. apply effect_ret.
Qed.

Lemma effect_scan_html parse_stylesheet parse_html f acc :
  R f → effect_m R T (scan_html parse_stylesheet parse_html f acc).
Proof.
  intros Hf. unfold scan_html. apply effect_try_except.
  - apply effect_bind; [apply effect_read_text; assumption|].
    intros content. apply effect_ret.
  - intros e. apply effect_bind; [apply effect_add_error|].
    intros _. apply effect_ret.
Qed.

Lemma effect_bind_raise {A B} e (k : A → M state B) :
  effect_m R T (bind (raise e) k).
Proof. intros s. apply effect_refl. Qed.

Lemma effect_obfuscate_css mappings output_suffix create_backup f u :
  R f → T (generate_obfuscated_filename f output_suffix) →
  effect_m R T (obfuscate_css mappings output_suffix create_backup f u).
Proof.
  intros Hf Ho. unfold obfuscate_css. apply effect_try_except.
  - apply effect_bind.
    + destruct create_backup; [|apply effect_ret].
      unfold call_bool. apply effect_bind_raise.
    + intros _. apply effect_bind; [apply effect_read_text; assumption|].
      intros content. apply effect_bind; [apply effect_lift|].
      intros out. apply effect_bind; [apply effect_write_text; assumption|].
      intros _. apply effect_add_processed_css.
  - intros e. apply effect_add_error.
Qed.

Lemma effect_obfuscate_html parse_html soup_to_string mappings css_files
    output_suffix create_backup f u :
  R f → T (generate_obfuscated_filename f output_suffix) →
  effect_m R T (obfuscate_html parse_html soup_to_string mappings css_files
                  output_suffix create_backup f u).
Proof.
  intros Hf Ho. unfold obfuscate_html. apply effect_try_except.
  - apply effect_bind.
    + destruct create_backup; [|apply effect_ret].
      unfold call_bool. apply effect_bind_raise.
    + intros _. apply effect_bind; [apply effect_read_text; assumption|].
      intros content. apply effect_bind; [apply effect_lift|].
      intros out. apply effect_bind; [apply effect_write_text; assumption|].
      intros _. apply effect_add_processed_html.
  - intros e. apply effect_add_error.
Qed.

End Effect.

Lemma elem_of_filter_list {A} (P : A → Prop) `{∀ x, Decision (P x)} (l : list A) x :
  x ∈ filter P l → x ∈ l.
Proof. intros Hx. apply list_elem_of_filter in Hx. tauto. Qed.

Lemma effect_body parse_stylesheet parse_html soup_to_string
    folder_path output_suffix extensions method exclude_classes create_backup w st :
  effect (λ f, f ∈ project_files w folder_path extensions)
    (λ p, ∃ f, f ∈ project_files w folder_path extensions
             ∧ p = generate_obfuscated_filename f output_suffix)
    (w, st)
    (snd (obfuscate_website_body parse_stylesheet parse_html soup_to_string
            folder_path output_suffix extensions method exclude_classes
            create_backup (w, st))).
Proof.
  unfold obfuscate_website_body. unfold bind at 1.
  destruct (decide (Path.to_string (Path.parse folder_path) ∈ dirs w)) as [Hd|Hd].
  - rewrite scan_project_files_ok by assumption.
    set (R := λ f, f ∈ project_files w folder_path extensions).
    set (T := λ p, ∃ f, f ∈ project_files w folder_path extensions
                      ∧ p = generate_obfuscated_filename f output_suffix).
    assert (HR : ∀ (P : string → Prop) `{∀ x, Decision (P x)} f,
              f ∈ filter P (project_files w folder_path extensions) → R f)
      by (intros P ? f Hf; eapply elem_of_filter_list; exact Hf).
    assert (HT : ∀ (P : string → Prop) `{∀ x, Decision (P x)} f,
              f ∈ filter P (project_files w folder_path extensions) →
              T (generate_obfuscated_filename f output_suffix))
      by (intros P ? f Hf; exists f; split; [eapply elem_of_filter_list; exact Hf
                                            | reflexivity]).
    cut (effect_m R T
      (do all_classes <- for_loop
           (filter (λ f, Py.endswith ".css" f) (project_files w folder_path extensions))
           (scan_css parse_stylesheet) ∅;
       do all_classes <- for_loop
           (filter (λ f, Py.endswith ".html" f) (project_files w folder_path extensions))
           (scan_html parse_stylesheet parse_html) all_classes;
       if decide (all_classes = ∅) then ret ()
       else
         do mappings <- lift (build_class_mapping all_classes method
                                (list_to_set exclude_classes));
         exec set_mappings mappings;
         exec for_loop
           (filter (λ f, Py.endswith ".css" f) (project_files w folder_path extensions))
           (obfuscate_css mappings output_suffix create_backup) ();
         for_loop
           (filter (λ f, Py.endswith ".html" f) (project_files w folder_path extensions))
           (obfuscate_html parse_html soup_to_string mappings
              (filter (λ f, Py.endswith ".css" f)
                 (project_files w folder_path extensions))
              output_suffix create_backup) ())); [intros H; exact (H (w, st))|].
    apply effect_bind.
    { apply effect_for_loop. intros f a Hf. apply effect_scan_css. eapply HR, Hf. }
    intros acc1. apply effect_bind.
    { apply effect_for_loop. intros f a Hf. apply effect_scan_html. eapply HR, Hf. }
    intros acc2. destruct (decide (acc2 = ∅)); [apply effect_ret|].
    apply effect_bind; [apply effect_lift|]. intros mappings.
    apply effect_bind; [apply effect_set_mappings|]. intros _.
    apply effect_bind.
    { apply effect_for_loop. intros f a Hf.
      apply effect_obfuscate_css; [eapply HR, Hf | eapply HT, Hf]. }
    intros _. apply effect_for_loop. intros f a Hf.
    apply effect_obfuscate_html; [eapply HR, Hf | eapply HT, Hf].
  - rewrite scan_project_files_raises by assumption. apply effect_refl.
Qed.

(** X19.  What a run of [obfuscate_website] may touch, whatever its
    arguments.  It returns its statistics; the directories are as before;
    no file disappears; a file changes only at the output path of a file
    that the scan found; the files read are files that the scan found and
    the files written are their output paths; nothing is ever copied,
    and the list of backups of the statistics is empty; the count of
    classes is the length of the list of mappings. *)
Theorem obfuscate_website_frame
    (parse_stylesheet : string → list css_rule) (parse_html : string → node)
    (soup_to_string : node → string) (folder_path output_suffix : string)
    (extensions : option (list string)) (method : string)
    (exclude_classes : list string) (create_backup : bool) (w : world) :
  ∃ st w',
    obfuscate_website parse_stylesheet parse_html soup_to_string folder_path
      output_suffix extensions method exclude_classes create_backup w = (Ok st, w')
    ∧ dirs w' = dirs w
    ∧ (∀ p, is_Some (files w !! p) → is_Some (files w' !! p))
    ∧ (∀ p, (∀ f, f ∈ project_files w folder_path extensions →
                  p ≠ generate_obfuscated_filename f output_suffix) →
            files w' !! p = files w !! p)
    ∧ (∃ l, log w' = log w ++ l
          ∧ Forall (λ e, ∃ f, f ∈ project_files w folder_path extensions
                            ∧ (e = Read f
                               ∨ e = Write (generate_obfuscated_filename f
                                              output_suffix))) l)
    ∧ backups_created st = []
    ∧ total_classes st = length (class_mappings st).
Proof.
  pose proof (effect_body parse_stylesheet parse_html soup_to_string folder_path
                output_suffix extensions method exclude_classes create_backup
                w empty_stats) as He.
  unfold obfuscate_website, try_except.
  destruct (obfuscate_website_body _ _ _ _ _ _ _ _ _ _) as [[[]|e] [w1 st1]];
    simpl in He |- *.
  - exists st1, w1. split; [reflexivity|].
    destruct He as (D & F & K & (l & L & A) & B & C).
    split; [exact D|]. split; [exact K|]. split; [|split; [|split]].
    + intros p Hp. apply F. intros (f & Hf & ->). exact (Hp f Hf eq_refl).
    + exists l. split; [exact L|]. eapply Forall_impl; [exact A|].
      intros e [(f & -> & Hf)|(p & -> & f & Hf & ->)]; exists f; auto.
    + exact B.
    + apply C. reflexivity.
  - eexists _, w1. split; [reflexivity|].
    destruct He as (D & F & K & (l & L & A) & B & C).
    split; [exact D|]. split; [exact K|]. split; [|split; [|split]].
    + intros p Hp. apply F. intros (f & Hf & ->). exact (Hp f Hf eq_refl).
    + exists l. split; [exact L|]. eapply Forall_impl; [exact A|].
      intros e' [(f & -> & Hf)|(p & -> & f & Hf & ->)]; exists f; auto.
    + exact B.
    + simpl. apply C. reflexivity.
Qed.

(** ** The scan of the files *)

Lemma scanned_refl s : scanned s s.
Proof.
  repeat split; try reflexivity;
    exists []; rewrite app_nil_r; (split; [reflexivity | constructor]).
Qed.

Lemma scanned_trans s1 s2 s3 : scanned s1 s2 → scanned s2 s3 → scanned s1 s3.
Proof.
  intros (F1 & D1 & (l1 & L1 & R1) & C1 & H1 & T1 & M1 & B1 & (e1 & E1 & S1))
         (F2 & D2 & (l2 & L2 & R2) & C2 & H2 & T2 & M2 & B2 & (e2 & E2 & S2)).
  repeat split; try congruence.
  - exists (l1 ++ l2). split; [rewrite L2, L1, app_assoc; reflexivity|].
    apply Forall_app. split; assumption.
  - exists (e1 ++ e2). split; [rewrite E2, E1, app_assoc; reflexivity|].
    apply Forall_app. split; assumption.
Qed.

Lemma scan_css_eq parse_stylesheet f acc w st :
  scan_css parse_stylesheet f acc (w, st)
  = match files w !! f with
    | Some content =>
        (Ok (acc ∪ extract_classes_from_css parse_stylesheet content),
         (World (files w) (dirs w) (log w ++ [Read f]), st))
    | None =>
        (Ok acc,
         snd (add_error ("CSS scan error: " +:+ f +:+ " - "
                         +:+ "[Errno 2] No such file or directory: '" +:+ f +:+ "'")
                (World (files w) (dirs w) (log w ++ [Read f]), st)))
    end.
Proof.
  unfold scan_css, try_except, bind at 1. rewrite read_text_eq.
  destruct (files w !! f); reflexivity.
Qed.

Lemma scan_html_eq parse_stylesheet parse_html f acc w st :
  scan_html parse_stylesheet parse_html f acc (w, st)
  = match files w !! f with
    | Some content =>
        (Ok (acc ∪ extract_classes_from_html parse_stylesheet parse_html content),
         (World (files w) (dirs w) (log w ++ [Read f]), st))
    | None =>
        (Ok acc,
         snd (add_error ("HTML scan error: " +:+ f +:+ " - "
                         +:+ "[Errno 2] No such file or directory: '" +:+ f +:+ "'")
                (World (files w) (dirs w) (log w ++ [Read f]), st)))
    end.
Proof.
  unfold scan_html, try_except, bind at 1. rewrite read_text_eq.
  destruct (files w !! f); reflexivity.
Qed.

(** A loop of the scan: it returns the classes it had, joined with the
    classes of the files of the list that can be read. *)
Lemma scan_loop_spec (body : string → gset string → M state (gset string))
    (extract : string → gset string) (label : string) :
  (label = "CSS scan error: " ∨ label = "HTML scan error: ") →
  (∀ f acc w st,
     body f acc (w, st)
     = match files w !! f with
       | Some content =>
           (Ok (acc ∪ extract content),
            (World (files w) (dirs w) (log w ++ [Read f]), st))
       | None =>
           (Ok acc,
            snd (add_error (label +:+ f +:+ " - "
                            +:+ "[Errno 2] No such file or directory: '" +:+ f +:+ "'")
                   (World (files w) (dirs w) (log w ++ [Read f]), st)))
       end) →
  ∀ l acc s,
    ∃ acc' s', for_loop l body acc s = (Ok acc', s')
      ∧ scanned s s'
      ∧ ∀ c, c ∈ acc' ↔ c ∈ acc ∨ found_in extract (fst s) l c.
Proof.
  intros Hlabel Hbody l.
  induction l as [|f l IH]; intros acc [w st].
  - exists acc, (w, st). split; [reflexivity|]. split; [apply scanned_refl|].
    intros c. split; [auto|]. intros [H|(f & content & Hf & _)]; [exact H|].
    inversion Hf.
  - cbn [for_loop]. unfold bind. rewrite Hbody.
    destruct (files w !! f) as [content|] eqn:Hf.
    + destruct (IH (acc ∪ extract content)
                  (World (files w) (dirs w) (log w ++ [Read f]), st))
        as (acc' & s' & Hloop & Hsc & Hacc).
      exists acc', s'. split; [exact Hloop|]. split.
      * eapply scanned_trans; [|exact Hsc].
        repeat split; try reflexivity.
        -- exists [Read f]. split; [reflexivity|].
           constructor; [exists f; reflexivity | constructor].
        -- exists []. rewrite app_nil_r. split; [reflexivity | constructor].
      * intros c. rewrite Hacc, elem_of_union. simpl. split.
        -- intros [[H|H]|(g & cg & Hg & Hcg & Hc)].
           ++ left. exact H.
           ++ right. exists f, content. split; [left|]. auto.
           ++ right. exists g, cg. split; [right; exact Hg|]. auto.
        -- intros [H|(g & cg & Hg & Hcg & Hc)]; [auto|].
           apply elem_of_cons in Hg as [->|Hg].
           ++ left. right. congruence.
           ++ right. exists g, cg. auto.
    + unfold add_error, update_stats. cbn [snd].
      match goal with |- context [for_loop l body acc ?s0] =>
        destruct (IH acc s0) as (acc' & s' & Hloop & Hsc & Hacc)
      end.
      exists acc', s'. split; [exact Hloop|]. split.
      * eapply scanned_trans; [|exact Hsc].
        repeat split; try reflexivity.
        -- exists [Read f]. split; [reflexivity|].
           constructor; [exists f; reflexivity | constructor].
        -- eexists [_]. split; [reflexivity|].
           constructor; [|constructor].
           destruct Hlabel as [-> | ->]; eexists f, _; [left|right]; reflexivity.
      * intros c. rewrite Hacc. simpl. split.
        -- intros [H|(g & cg & Hg & Hcg & Hc)]; [auto|].
           right. exists g, cg. split; [right; exact Hg|]. auto.
        -- intros [H|(g & cg & Hg & Hcg & Hc)]; [auto|].
           apply elem_of_cons in Hg as [->|Hg]; [congruence|].
           right. exists g, cg. auto.
Qed.

(** ** The work on the files *)

Lemma obfuscate_css_eq mappings output_suffix f u w st :
  obfuscate_css mappings output_suffix false f u (w, st)
  = (Ok (),
     let w1 := World (files w) (dirs w) (log w ++ [Read f]) in
     let o := generate_obfuscated_filename f output_suffix in
     let w2 := World (files w) (dirs w) ((log w ++ [Read f]) ++ [Write o]) in
     let failed e w' :=
       snd (add_error ("CSS process error: " +:+ f +:+ " - " +:+ exn_str e) (w', st)) in
     match files w !! f with
     | None =>
         failed (OSError ("[Errno 2] No such file or directory: '" +:+ f +:+ "'")) w1
     | Some content =>
         match process_css_content content mappings with
         | Raise e => failed e w1
         | Ok out =>
             if decide (o ∈ dirs w)
             then failed (OSError ("[Errno 21] Is a directory: '" +:+ o +:+ "'")) w2
             else snd (add_processed_css f o
                         (World (<[o := out]> (files w)) (dirs w)
                            ((log w ++ [Read f]) ++ [Write o]), st))
         end
     end).
Proof.
  unfold obfuscate_css, try_except. unfold bind at 1. unfold ret at 1.
  unfold bind at 1. rewrite read_text_eq. cbv zeta.
  destruct (files w !! f) as [content|]; [|reflexivity].
  unfold bind at 1. unfold lift at 1.
  destruct (process_css_content content mappings) as [out|e]; [|reflexivity].
  unfold bind at 1. unfold write_text. unfold bind at 1. unfold log_event.
  cbn [files dirs log]. case_decide; reflexivity.
Qed.

Lemma obfuscate_html_eq parse_html soup_to_string mappings css_files
    output_suffix f u w st :
  obfuscate_html parse_html soup_to_string mappings css_files output_suffix
    false f u (w, st)
  = (Ok (),
     let w1 := World (files w) (dirs w) (log w ++ [Read f]) in
     let o := generate_obfuscated_filename f output_suffix in
     let w2 := World (files w) (dirs w) ((log w ++ [Read f]) ++ [Write o]) in
     let failed e w' :=
       snd (add_error ("HTML process error: " +:+ f +:+ " - " +:+ exn_str e) (w', st)) in
     match files w !! f with
     | None =>
         failed (OSError ("[Errno 2] No such file or directory: '" +:+ f +:+ "'")) w1
     | Some content =>
         match process_html_content parse_html soup_to_string content mappings
                 css_files output_suffix with
         | Raise e => failed e w1
         | Ok out =>
             if decide (o ∈ dirs w)
             then failed (OSError ("[Errno 21] Is a directory: '" +:+ o +:+ "'")) w2
             else snd (add_processed_html f o
                         (World (<[o := out]> (files w)) (dirs w)
                            ((log w ++ [Read f]) ++ [Write o]), st))
         end
     end).
Proof.
  unfold obfuscate_html, try_except. unfold bind at 1. unfold ret at 1.
  unfold bind at 1. rewrite read_text_eq. cbv zeta.
  destruct (files w !! f) as [content|]; [|reflexivity].
  unfold bind at 1. unfold lift at 1.
  destruct (process_html_content _ _ _ _ _ _) as [out|e]; [|reflexivity].
  unfold bind at 1. unfold write_text. unfold bind at 1. unfold log_event.
  cbn [files dirs log]. case_decide; reflexivity.
Qed.

Lemma loop_outcome_nil css output_suffix s : loop_outcome css output_suffix [] s s.
Proof.
  repeat split; try reflexivity; auto.
  intros f Hf. inversion Hf.
Qed.

Lemma loop_outcome_app css output_suffix l1 l2 s1 s2 s3 :
  loop_outcome css output_suffix l1 s1 s2 →
  loop_outcome css output_suffix l2 s2 s3 →
  loop_outcome css output_suffix (l1 ++ l2) s1 s3.
Proof.
  intros (M1 & T1 & B1 & N1 & D1 & K1 & L1 & E1 & P1 & A1 & W1)
         (M2 & T2 & B2 & N2 & D2 & K2 & L2 & E2 & P2 & A2 & W2).
  repeat split; try congruence; auto.
  - intros f Hf. apply elem_of_app in Hf as [Hf|Hf].
    + destruct (A1 f Hf) as [H|[msg H]]; [left; auto | right; eauto].
    + apply A2, Hf.
  - intros x Hx. destruct (W2 x Hx) as [H|(f & Hf & -> & Hs & Hw)].
    + destruct (W1 x H) as [H1|(f & Hf & -> & Hs & Hw)]; [left; exact H1|].
      right. exists f. rewrite elem_of_app. auto 6.
    + right. exists f. rewrite elem_of_app. auto 6.
Qed.

Lemma outcome_failed css output_suffix f w st w' msg :
  files w' = files w → dirs w' = dirs w → (∀ e, e ∈ log w → e ∈ log w') →
  loop_outcome css output_suffix [f] (w, st)
    (snd (add_error (process_label css +:+ f +:+ " - " +:+ msg) (w', st))).
Proof.
  intros Hf Hd Hl. unfold loop_outcome, add_error, update_stats.
  cbn beta iota delta [fst snd class_mappings total_classes backups_created
                       errors processed_css_files processed_html_files].
  split; [reflexivity|]. split; [reflexivity|]. split; [reflexivity|].
  split; [destruct css; reflexivity|]. split; [exact Hd|].
  split; [intros p Hp; rewrite Hf; exact Hp|]. split; [exact Hl|].
  split; [intros m Hm; cbn [errors]; apply elem_of_app; left; exact Hm|].
  split; [intros x Hx; destruct css; exact Hx|]. split.
  - intros g Hg. apply list_elem_of_singleton in Hg. subst g.
    right. exists msg. cbn [errors]. apply elem_of_app. right. left.
  - intros x Hx. left. destruct css; exact Hx.
Qed.

Lemma outcome_done css output_suffix f w st out l :
  loop_outcome css output_suffix [f] (w, st)
    (snd ((if css then add_processed_css else add_processed_html) f
            (generate_obfuscated_filename f output_suffix)
            (World (<[generate_obfuscated_filename f output_suffix := out]> (files w))
               (dirs w)
               ((log w ++ l) ++ [Write (generate_obfuscated_filename f output_suffix)]),
             st))).
Proof.
  set (o := generate_obfuscated_filename f output_suffix).
  destruct css;
    unfold loop_outcome, add_processed_css, add_processed_html, update_stats;
    cbn beta iota delta
      [fst snd files dirs log processed_of negb class_mappings total_classes
       backups_created errors processed_css_files processed_html_files];
    (split; [reflexivity|]; split; [reflexivity|]; split; [reflexivity|];
     split; [reflexivity|]; split; [reflexivity|];
     split; [intros p Hp; apply lookup_insert_is_Some;
             destruct (decide (o = p)); [left|right]; auto|];
     split; [intros e He; rewrite !elem_of_app; auto|];
     split; [auto|];
     split; [intros x Hx; apply elem_of_app; left; exact Hx|];
     split;
     [ intros g Hg; apply list_elem_of_singleton in Hg; subst g;
       left; apply elem_of_app; right; left
     | intros x Hx; apply elem_of_app in Hx as [Hx|Hx]; [left; exact Hx|];
       apply list_elem_of_singleton in Hx; subst x;
       right; exists f; split; [left|]; split; [reflexivity|];
       split; [rewrite lookup_insert_eq; eauto|];
       apply elem_of_app; right; left ]).
Qed.

Lemma obfuscate_css_outcome mappings output_suffix create_backup f u s :
  ∃ s', obfuscate_css mappings output_suffix create_backup f u s = (Ok (), s')
      ∧ loop_outcome true output_suffix [f] s s'.
Proof.
  destruct s as [w st]. destruct create_backup.
  - destruct u. rewrite obfuscate_css_backup.
    eexists. split; [reflexivity|].
    apply (outcome_failed true); auto.
  - rewrite obfuscate_css_eq. eexists. split; [reflexivity|]. cbv zeta.
    assert (Hl1 : ∀ e, e ∈ log w → e ∈ log w ++ [Read f])
      by (intros e He; apply elem_of_app; left; exact He).
    assert (Hl2 : ∀ e o, e ∈ log w → e ∈ (log w ++ [Read f]) ++ [Write o])
      by (intros e o He; rewrite !elem_of_app; auto).
    destruct (files w !! f) as [content|].
    + destruct (process_css_content content mappings) as [out|e].
      * case_decide.
        -- apply (outcome_failed true);
             [reflexivity | reflexivity | intros e0 He0; apply Hl2, He0].
        -- apply (outcome_done true).
      * apply (outcome_failed true); auto.
    + apply (outcome_failed true); auto.
Qed.

Lemma obfuscate_html_outcome parse_html soup_to_string mappings css_files
    output_suffix create_backup f u s :
  ∃ s', obfuscate_html parse_html soup_to_string mappings css_files output_suffix
          create_backup f u s = (Ok (), s')
      ∧ loop_outcome false output_suffix [f] s s'.
Proof.
  destruct s as [w st]. destruct create_backup.
  - destruct u. rewrite obfuscate_html_backup.
    eexists. split; [reflexivity|].
    apply (outcome_failed false); auto.
  - rewrite obfuscate_html_eq. eexists. split; [reflexivity|]. cbv zeta.
    assert (Hl1 : ∀ e, e ∈ log w → e ∈ log w ++ [Read f])
      by (intros e He; apply elem_of_app; left; exact He).
    assert (Hl2 : ∀ e o, e ∈ log w → e ∈ (log w ++ [Read f]) ++ [Write o])
      by (intros e o He; rewrite !elem_of_app; auto).
    destruct (files w !! f) as [content|].
    + destruct (process_html_content _ _ _ _ _ _) as [out|e].
      * case_decide.
        -- apply (outcome_failed false);
             [reflexivity | reflexivity | intros e0 He0; apply Hl2, He0].
        -- apply (outcome_done false).
      * apply (outcome_failed false); auto.
    + apply (outcome_failed false); auto.
Qed.

Lemma for_loop_outcome css output_suffix (body : string → () → M state ()) l :
  (∀ f u s, ∃ s', body f u s = (Ok (), s')
                ∧ loop_outcome css output_suffix [f] s s') →
  ∀ u s, ∃ s', for_loop l body u s = (Ok (), s')
             ∧ loop_outcome css output_suffix l s s'.
Proof.
  intros Hbody. induction l as [|f l IH]; intros u s.
  - destruct u. exists s. split; [reflexivity | apply loop_outcome_nil].
  - cbn [for_loop]. unfold bind.
    destruct (Hbody f u s) as (s1 & -> & H1).
    destruct (IH () s1) as (s2 & -> & H2).
    exists s2. split; [reflexivity|].
    apply (loop_outcome_app css output_suffix [f] l s s1 s2); assumption.
Qed.

(** ** The run as a whole *)

Lemma found_in_files extract w w' l c :
  files w' = files w → found_in extract w' l c ↔ found_in extract w l c.
Proof. intros H. unfold found_in. rewrite H. reflexivity. Qed.

(** The run up to the end of the scan, in a folder that is a directory. *)
Lemma body_after_scan parse_stylesheet parse_html soup_to_string
    folder_path output_suffix extensions method exclude_classes create_backup w st :
  Path.to_string (Path.parse folder_path) ∈ dirs w →
  ∃ all_classes s2,
    scanned (w, st) s2
    ∧ (∀ c, c ∈ all_classes ↔
         found_in (extract_classes_from_css parse_stylesheet) w
           (css_files_of w folder_path extensions) c
         ∨ found_in (extract_classes_from_html parse_stylesheet parse_html) w
             (html_files_of w folder_path extensions) c)
    ∧ obfuscate_website_body parse_stylesheet parse_html soup_to_string
        folder_path output_suffix extensions method exclude_classes create_backup
        (w, st)
      = (if decide (all_classes = ∅) then ret ()
         else
           do mappings <- lift (build_class_mapping all_classes method
                                  (list_to_set exclude_classes));
           exec set_mappings mappings;
           exec for_loop (css_files_of w folder_path extensions)
                  (obfuscate_css mappings output_suffix create_backup) ();
           for_loop (html_files_of w folder_path extensions)
             (obfuscate_html parse_html soup_to_string mappings
                (css_files_of w folder_path extensions) output_suffix create_backup)
             ()) s2.
Proof.
  intros Hd. unfold obfuscate_website_body. unfold bind at 1.
  rewrite scan_project_files_ok by assumption. cbv zeta.
  fold (css_files_of w folder_path extensions).
  fold (html_files_of w folder_path extensions).
  destruct (scan_loop_spec (scan_css parse_stylesheet)
              (extract_classes_from_css parse_stylesheet) "CSS scan error: "
              (or_introl eq_refl) (scan_css_eq parse_stylesheet)
              (css_files_of w folder_path extensions) ∅ (w, st))
    as (acc1 & [w1 st1] & Hl1 & Hs1 & Ha1).
  unfold bind at 1. rewrite Hl1.
  destruct (scan_loop_spec (scan_html parse_stylesheet parse_html)
              (extract_classes_from_html parse_stylesheet parse_html)
              "HTML scan error: "
              (or_intror eq_refl) (scan_html_eq parse_stylesheet parse_html)
              (html_files_of w folder_path extensions) acc1 (w1, st1))
    as (acc2 & s2 & Hl2 & Hs2 & Ha2).
  unfold bind at 1. rewrite Hl2.
  exists acc2, s2. split; [eapply scanned_trans; eassumption|].
  split; [|reflexivity].
  intros c. rewrite Ha2, Ha1.
  destruct Hs1 as (Hf1 & _). cbn [fst] in Hf1 |- *.
  rewrite (found_in_files _ w w1 _ _ Hf1).
  rewrite elem_of_empty. tauto.
Qed.

(** The four ways a run can go. *)
Lemma run_cases parse_stylesheet parse_html soup_to_string
    folder_path output_suffix extensions method exclude_classes create_backup w :
  ((Path.to_string (Path.parse folder_path) ∉ dirs w)
   ∧ obfuscate_website parse_stylesheet parse_html soup_to_string folder_path
       output_suffix extensions method exclude_classes create_backup w
     = (Ok (Stats [] [] 0 [] [not_a_directory folder_path] []), w))
  ∨ (Path.to_string (Path.parse folder_path) ∈ dirs w
     ∧ ∃ all_classes w2 st2,
         scanned (w, empty_stats) (w2, st2)
         ∧ (∀ c, c ∈ all_classes ↔
              found_in (extract_classes_from_css parse_stylesheet) w
                (css_files_of w folder_path extensions) c
              ∨ found_in (extract_classes_from_html parse_stylesheet parse_html) w
                  (html_files_of w folder_path extensions) c)
         ∧ ((all_classes = ∅
             ∧ obfuscate_website parse_stylesheet parse_html soup_to_string
                 folder_path output_suffix extensions method exclude_classes
                 create_backup w = (Ok st2, w2))
            ∨ (all_classes ≠ ∅
               ∧ ∃ e, build_class_mapping all_classes method
                        (list_to_set exclude_classes) = Raise e
                    ∧ obfuscate_website parse_stylesheet parse_html soup_to_string
                        folder_path output_suffix extensions method exclude_classes
                        create_backup w
                      = (Ok (snd (snd (add_error (exn_str e) (w2, st2)))), w2))
            ∨ (all_classes ≠ ∅
               ∧ ∃ ms s3 w4 st4,
                   build_class_mapping all_classes method
                     (list_to_set exclude_classes) = Ok ms
                   ∧ loop_outcome true output_suffix
                       (css_files_of w folder_path extensions)
                       (snd (set_mappings ms (w2, st2))) s3
                   ∧ loop_outcome false output_suffix
                       (html_files_of w folder_path extensions) s3 (w4, st4)
                   ∧ obfuscate_website parse_stylesheet parse_html soup_to_string
                       folder_path output_suffix extensions method exclude_classes
                       create_backup w = (Ok st4, w4)
                   ∧ s3 = snd (for_loop (css_files_of w folder_path extensions)
                                 (obfuscate_css ms output_suffix create_backup) ()
                                 (snd (set_mappings ms (w2, st2))))
                   ∧ (w4, st4)
                     = snd (for_loop (html_files_of w folder_path extensions)
                              (obfuscate_html parse_html soup_to_string ms
                                 (css_files_of w folder_path extensions)
                                 output_suffix create_backup) () s3)))).
Proof.
  destruct (decide (Path.to_string (Path.parse folder_path) ∈ dirs w)) as [Hd|Hd].
  - right. split; [exact Hd|].
    destruct (body_after_scan parse_stylesheet parse_html soup_to_string folder_path
                output_suffix extensions method exclude_classes create_backup
                w empty_stats Hd) as (all_classes & [w2 st2] & Hsc & Hall & Hbody).
    exists all_classes, w2, st2. split; [exact Hsc|]. split; [exact Hall|].
    unfold obfuscate_website, try_except. rewrite Hbody.
    destruct (decide (all_classes = ∅)) as [He|Hne]; [left; split; [exact He|reflexivity]|].
    right.
    destruct (build_class_mapping all_classes method (list_to_set exclude_classes))
      as [ms|e] eqn:Hb.
    + right. split; [exact Hne|].
      unfold bind, lift, set_mappings, update_stats. cbv beta iota.
      match goal with |- context [for_loop (css_files_of _ _ _) _ () ?s] =>
        destruct (for_loop_outcome true output_suffix
                    (obfuscate_css ms output_suffix create_backup)
                    (css_files_of w folder_path extensions)
                    (obfuscate_css_outcome ms output_suffix create_backup) () s)
          as (s3 & Hl3 & Ho3)
      end.
      destruct (for_loop_outcome false output_suffix
                  (obfuscate_html parse_html soup_to_string ms
                     (css_files_of w folder_path extensions) output_suffix
                     create_backup)
                  (html_files_of w folder_path extensions)
                  (obfuscate_html_outcome parse_html soup_to_string ms
                     (css_files_of w folder_path extensions) output_suffix
                     create_backup) () s3)
        as ([w4 st4] & Hl4 & Ho4).
      rewrite Hl3. cbv beta iota. rewrite Hl4.
      exists ms, s3, w4, st4. split; [reflexivity|].
      split; [exact Ho3|]. split; [exact Ho4|]. split; [reflexivity|].
      cbn [snd]. split; [rewrite Hl3 | rewrite Hl4]; reflexivity.
    + left. split; [exact Hne|]. exists e. split; reflexivity.
  - left. split; [exact Hd|].
    unfold obfuscate_website, try_except, obfuscate_website_body. unfold bind at 1.
    rewrite scan_project_files_raises by assumption. reflexivity.
Qed.

Lemma scanned_empty w w2 st2 :
  scanned (w, empty_stats) (w2, st2) →
  files w2 = files w ∧ dirs w2 = dirs w
  ∧ processed_css_files st2 = [] ∧ processed_html_files st2 = []
  ∧ total_classes st2 = 0%nat ∧ class_mappings st2 = []
  ∧ backups_created st2 = [] ∧ Forall scan_error (errors st2).
Proof.
  intros (F & D & _ & C & H & T & M & B & (l & E & S)). simpl in *.
  repeat split; try assumption. rewrite E. exact S.
Qed.

(** X20.  A project without classes.  When the folder is a directory and
    no file that the scan can read holds a class, the run ends after the
    scan: no mapping is built, nothing is processed or written, and the
    only errors are those of files that could not be read.  The method
    name is not looked at: an unknown method gives no error here. *)
Theorem obfuscate_website_no_classes
    (parse_stylesheet : string → list css_rule) (parse_html : string → node)
    (soup_to_string : node → string) (folder_path output_suffix : string)
    (extensions : option (list string)) (method : string)
    (exclude_classes : list string) (create_backup : bool) (w : world) :
  Path.to_string (Path.parse folder_path) ∈ dirs w →
  (∀ c, ¬ found_in (extract_classes_from_css parse_stylesheet) w
            (css_files_of w folder_path extensions) c) →
  (∀ c, ¬ found_in (extract_classes_from_html parse_stylesheet parse_html) w
            (html_files_of w folder_path extensions) c) →
  ∃ st w',
    obfuscate_website parse_stylesheet parse_html soup_to_string folder_path
      output_suffix extensions method exclude_classes create_backup w = (Ok st, w')
    ∧ class_mappings st = [] ∧ total_classes st = 0%nat
    ∧ processed_css_files st = [] ∧ processed_html_files st = []
    ∧ backups_created st = []
    ∧ Forall scan_error (errors st)
    ∧ files w' = files w ∧ dirs w' = dirs w.
Proof.
  intros Hd Hcss Hhtml.
  destruct (run_cases parse_stylesheet parse_html soup_to_string folder_path
              output_suffix extensions method exclude_classes create_backup w)
    as [[Hn _]|(_ & all_classes & w2 & st2 & Hsc & Hall & Hrun)];
    [contradiction|].
  assert (He : all_classes = ∅).
  { apply elem_of_equiv_empty_L. intros c Hc. apply Hall in Hc as [Hc|Hc].
    - exact (Hcss c Hc).
    - exact (Hhtml c Hc). }
  destruct Hrun as [[_ Hrun]|[[Hne _]|[Hne _]]]; try contradiction.
  exists st2, w2. split; [exact Hrun|].
  destruct (scanned_empty _ _ _ Hsc) as (F & D & C & H & T & M & B & E).
  auto 10.
Qed.

Lemma obfuscate_website_no_classes_witness :
  ∃ st w',
    obfuscate_website (λ _, []) (λ _, NavigableString "") Example.render "site"
      "_obfuscated" None "rot13" [] false (World ∅ {["site"]} []) = (Ok st, w')
    ∧ class_mappings st = [] ∧ total_classes st = 0%nat
    ∧ processed_css_files st = [] ∧ processed_html_files st = []
    ∧ backups_created st = []
    ∧ Forall scan_error (errors st)
    ∧ files w' = files (World ∅ {["site"]} [])
    ∧ dirs w' = dirs (World ∅ {["site"]} []).
Proof.
  apply obfuscate_website_no_classes.
  - apply (bool_decide_unpack _). vm_compute. exact I.
  - intros c (f & content & Hf & _). vm_compute in Hf. inversion Hf.
  - intros c (f & content & Hf & _). vm_compute in Hf. inversion Hf.
Defined.

(** X21.  The mappings of a run.  With a method among shift, hash and hex
    and a folder that is a directory, the mappings of the statistics are
    those of the classes found: a class is the original of a mapping
    exactly when it is not empty, not excluded, and held by some CSS or
    HTML file of the project that could be read; no original and no
    obfuscated name occurs twice; and when a class was found at all the
    list is the one [build_class_mapping] returns for the classes
    found. *)
Theorem obfuscate_website_mappings
    (parse_stylesheet : string → list css_rule) (parse_html : string → node)
    (soup_to_string : node → string) (folder_path output_suffix : string)
    (extensions : option (list string)) (method : string)
    (exclude_classes : list string) (create_backup : bool) (w : world) :
  valid_method method →
  Path.to_string (Path.parse folder_path) ∈ dirs w →
  ∃ st w',
    obfuscate_website parse_stylesheet parse_html soup_to_string folder_path
      output_suffix extensions method exclude_classes create_backup w = (Ok st, w')
    ∧ (∀ c, c ∈ map original (class_mappings st) ↔
         (found_in (extract_classes_from_css parse_stylesheet) w
            (css_files_of w folder_path extensions) c
          ∨ found_in (extract_classes_from_html parse_stylesheet parse_html) w
              (html_files_of w folder_path extensions) c)
         ∧ c ≠ "" ∧ c ∉ exclude_classes)
    ∧ NoDup (map original (class_mappings st))
    ∧ NoDup (map obfuscated (class_mappings st))
    ∧ total_classes st = length (class_mappings st)
    ∧ ∃ all_classes : gset string,
        (∀ c, c ∈ all_classes ↔
           found_in (extract_classes_from_css parse_stylesheet) w
             (css_files_of w folder_path extensions) c
           ∨ found_in (extract_classes_from_html parse_stylesheet parse_html) w
               (html_files_of w folder_path extensions) c)
        ∧ (all_classes ≠ ∅ →
           build_class_mapping all_classes method (list_to_set exclude_classes)
           = Ok (class_mappings st)).
Proof.
  intros Hv Hd.
  destruct (run_cases parse_stylesheet parse_html soup_to_string folder_path
              output_suffix extensions method exclude_classes create_backup w)
    as [[Hn _]|(_ & all_classes & w2 & st2 & Hsc & Hall & Hrun)];
    [contradiction|].
  destruct (scanned_empty _ _ _ Hsc) as (_ & _ & _ & _ & T & M & _ & _).
  destruct Hrun as [[He Hrun]
                       |[(Hne & e & Hb & _)
                        |(Hne & ms & s3 & w4 & st4 & Hb & H3 & H4 & Hrun & _)]].
  - exists st2, w2. split; [exact Hrun|]. rewrite M, T.
    split; [|split; [constructor|split; [constructor|split; [reflexivity|]]]].
    + intros c. split; [intros Hc; inversion Hc|].
      intros (Hc & _). apply Hall in Hc. rewrite He in Hc.
      apply not_elem_of_empty in Hc. contradiction.
    + exists all_classes. split; [exact Hall|]. intros Hne. contradiction.
  - destruct (build_class_mapping_returns all_classes method
                (list_to_set exclude_classes) Hv) as [ms Hms]. congruence.
  - exists st4, w4. split; [exact Hrun|].
    destruct H3 as (M3 & T3 & _). destruct H4 as (M4 & T4 & _).
    unfold set_mappings, update_stats in M3, T3. simpl in M3, T3, M4, T4.
    assert (Hcm : class_mappings st4 = ms) by congruence.
    assert (Htc : total_classes st4 = length ms) by congruence.
    rewrite Hcm, Htc.
    destruct (build_class_mapping_ok _ _ _ _ Hb) as (Hnd & _ & Hndo & Hmem).
    split; [|split; [exact Hndo|split; [exact Hnd|split; [reflexivity|]]]].
    + intros c. rewrite Hmem, kept_spec, Hall, elem_of_list_to_set. tauto.
    + exists all_classes. split; [exact Hall|]. intros _. exact Hb.
Qed.

Lemma obfuscate_website_mappings_witness :
  ∃ st w',
    ExampleProject.run "site" "shift" false = (Ok st, w')
    ∧ (∀ c, c ∈ map original (class_mappings st) ↔
         (found_in (extract_classes_from_css ExampleProject.parse_stylesheet)
            ExampleProject.w0 (css_files_of ExampleProject.w0 "site" None) c
          ∨ found_in (extract_classes_from_html ExampleProject.parse_stylesheet
                        ExampleProject.parse_html)
              ExampleProject.w0 (html_files_of ExampleProject.w0 "site" None) c)
         ∧ c ≠ "" ∧ c ∉ [])
    ∧ NoDup (map original (class_mappings st))
    ∧ NoDup (map obfuscated (class_mappings st))
    ∧ total_classes st = length (class_mappings st)
    ∧ ∃ all_classes : gset string,
        (∀ c, c ∈ all_classes ↔
           found_in (extract_classes_from_css ExampleProject.parse_stylesheet)
             ExampleProject.w0 (css_files_of ExampleProject.w0 "site" None) c
           ∨ found_in (extract_classes_from_html ExampleProject.parse_stylesheet
                         ExampleProject.parse_html)
               ExampleProject.w0 (html_files_of ExampleProject.w0 "site" None) c)
        ∧ (all_classes ≠ ∅ →
           build_class_mapping all_classes "shift" (list_to_set [])
           = Ok (class_mappings st)).
Proof.
  apply (obfuscate_website_mappings ExampleProject.parse_stylesheet
           ExampleProject.parse_html Example.render "site" "_obfuscated" None
           "shift" [] false ExampleProject.w0).
  - left. reflexivity.
  - apply (bool_decide_unpack _). vm_compute. exact I.
Defined.

(** X22.  The account of a run, whatever its arguments.  A pair listed as
    processed always names a file that the scan found (a CSS file in the
    CSS list, an HTML file in the HTML list) with its generated output
    path, and that path was written and exists after the run.  When the
    rewriting is reached (the statistics hold a mapping, or the method is
    valid, the folder is a directory and some class was found), every CSS
    and every HTML file that the scan found is either listed as processed
    with its output path or has a process error that names it. *)
Theorem obfuscate_website_accounting
    (parse_stylesheet : string → list css_rule) (parse_html : string → node)
    (soup_to_string : node → string) (folder_path output_suffix : string)
    (extensions : option (list string)) (method : string)
    (exclude_classes : list string) (create_backup : bool) (w : world) :
  ∃ st w',
    obfuscate_website parse_stylesheet parse_html soup_to_string folder_path
      output_suffix extensions method exclude_classes create_backup w = (Ok st, w')
    ∧ (∀ f o, (f, o) ∈ processed_css_files st →
         f ∈ css_files_of w folder_path extensions
         ∧ o = generate_obfuscated_filename f output_suffix
         ∧ is_Some (files w' !! o) ∧ Write o ∈ log w')
    ∧ (∀ f o, (f, o) ∈ processed_html_files st →
         f ∈ html_files_of w folder_path extensions
         ∧ o = generate_obfuscated_filename f output_suffix
         ∧ is_Some (files w' !! o) ∧ Write o ∈ log w')
    ∧ (class_mappings st ≠ []
       ∨ (valid_method method
          ∧ Path.to_string (Path.parse folder_path) ∈ dirs w
          ∧ ∃ c, found_in (extract_classes_from_css parse_stylesheet) w
                   (css_files_of w folder_path extensions) c
                 ∨ found_in (extract_classes_from_html parse_stylesheet parse_html) w
                     (html_files_of w folder_path extensions) c) →
       (∀ f, f ∈ css_files_of w folder_path extensions →
          (f, generate_obfuscated_filename f output_suffix) ∈ processed_css_files st
          ∨ ∃ msg, "CSS process error: " +:+ f +:+ " - " +:+ msg ∈ errors st)
       ∧ (∀ f, f ∈ html_files_of w folder_path extensions →
            (f, generate_obfuscated_filename f output_suffix) ∈ processed_html_files st
            ∨ ∃ msg, "HTML process error: " +:+ f +:+ " - " +:+ msg ∈ errors st)).
Proof.
  destruct (run_cases parse_stylesheet parse_html soup_to_string folder_path
              output_suffix extensions method exclude_classes create_backup w)
    as [[Hn Hrun]|(Hd & all_classes & w2 & st2 & Hsc & Hall & Hrun)].
  - eexists _, _. split; [exact Hrun|]. cbn [processed_css_files processed_html_files
                                              class_mappings].
    split; [intros f o H; inversion H|]. split; [intros f o H; inversion H|].
    intros [H|(_ & Hd & _)]; [congruence|contradiction].
  - destruct (scanned_empty _ _ _ Hsc) as (_ & _ & C & H & _ & M & _ & _).
    destruct Hrun as [[He Hrun]
                       |[(Hne & e & Hb & Hrun)
                        |(Hne & ms & s3 & w4 & st4 & Hb & H3 & H4 & Hrun & _)]].
    + exists st2, w2. split; [exact Hrun|]. rewrite C, H, M.
      split; [intros f o H0; inversion H0|]. split; [intros f o H0; inversion H0|].
      intros [H0|(_ & _ & c & Hc)]; [congruence|].
      apply Hall in Hc. rewrite He in Hc. apply not_elem_of_empty in Hc. contradiction.
    + eexists _, w2. split; [exact Hrun|].
      unfold add_error, update_stats.
      cbn beta iota delta [snd processed_css_files processed_html_files class_mappings].
      rewrite C, H, M.
      split; [intros f o H0; inversion H0|]. split; [intros f o H0; inversion H0|].
      intros [H0|(Hv & _)]; [congruence|].
      destruct (build_class_mapping_returns all_classes method
                  (list_to_set exclude_classes) Hv) as [ms Hms]. congruence.
    + exists st4, w4. split; [exact Hrun|].
      destruct H3 as (_ & _ & _ & N3 & _ & _ & _ & _ & _ & A3 & W3).
      destruct H4 as (_ & _ & _ & N4 & _ & K4 & L4 & E4 & _ & A4 & W4).
      unfold set_mappings, update_stats in N3, W3.
      cbn beta iota delta [fst snd processed_of negb processed_css_files
                           processed_html_files] in N3, N4, A3, A4, W3, W4.
      rewrite C in W3. rewrite H in N3.
      split; [|split; [|intros _; split]].
      * intros f o Hfo. rewrite N4 in Hfo.
        destruct (W3 _ Hfo) as [H0|(g & Hg & [= -> ->] & Hs & Hw)]; [inversion H0|].
        split; [exact Hg|]. split; [reflexivity|]. split; [apply K4, Hs | apply L4, Hw].
      * intros f o Hfo.
        destruct (W4 _ Hfo) as [H0|(g & Hg & [= -> ->] & Hs & Hw)].
        -- rewrite N3 in H0. inversion H0.
        -- auto.
      * intros f Hf. destruct (A3 f Hf) as [H0|[msg H0]].
        -- left. rewrite N4. exact H0.
        -- right. exists msg. apply E4, H0.
      * exact A4.
Qed.

(** ** What is written *)

Lemma obfuscate_css_step mappings output_suffix f u s :
  obfuscate_css mappings output_suffix false f u s
  = (Ok (), file_step true (λ content, process_css_content content mappings)
              output_suffix f s).
Proof. destruct s as [w st]. rewrite obfuscate_css_eq. reflexivity. Qed.

Lemma obfuscate_html_step parse_html soup_to_string mappings css_files
    output_suffix f u s :
  obfuscate_html parse_html soup_to_string mappings css_files output_suffix
    false f u s
  = (Ok (), file_step false
              (λ content, process_html_content parse_html soup_to_string content
                            mappings css_files output_suffix)
              output_suffix f s).
Proof. destruct s as [w st]. rewrite obfuscate_html_eq. reflexivity. Qed.

(** One step leaves every path but its output path as it is, and the
    lists of the statistics only grow. *)
Lemma file_step_frame css transform output_suffix g s :
  dirs (fst (file_step css transform output_suffix g s)) = dirs (fst s)
  ∧ (∀ p, p ≠ generate_obfuscated_filename g output_suffix →
          files (fst (file_step css transform output_suffix g s)) !! p
          = files (fst s) !! p)
  ∧ (∀ b x, x ∈ processed_of b (snd s) →
            x ∈ processed_of b (snd (file_step css transform output_suffix g s))).
Proof.
  destruct s as [w st]. unfold file_step. cbv zeta. cbn [fst snd].
  destruct (files w !! g) as [content|].
  - destruct (transform content) as [out|e].
    + case_decide.
      * repeat split; auto.
      * destruct css; (split; [reflexivity|]; split;
          [intros p Hp; cbn; apply lookup_insert_ne; congruence|]);
          intros [] x Hx; cbn in *; rewrite ?elem_of_app; auto.
    + repeat split; auto.
  - repeat split; auto.
Qed.

(** A step whose file can be read and rewritten, and whose output path is
    no directory, writes the rewritten text and records the file. *)
Lemma file_step_done css transform output_suffix f s content out :
  files (fst s) !! f = Some content → transform content = Ok out →
  generate_obfuscated_filename f output_suffix ∉ dirs (fst s) →
  files (fst (file_step css transform output_suffix f s))
  = <[generate_obfuscated_filename f output_suffix := out]> (files (fst s))
  ∧ (f, generate_obfuscated_filename f output_suffix)
    ∈ processed_of css (snd (file_step css transform output_suffix f s)).
Proof.
  destruct s as [w st]. unfold file_step. cbv zeta. cbn [fst snd].
  intros -> -> Hd. rewrite decide_False by assumption.
  destruct css; (split; [reflexivity|]); cbn; apply elem_of_app; right; left.
Qed.

Section Written.
Variable css : bool.
Variable transform : string → result string.
Variable output_suffix : string.
Variable body : string → () → M state ().
Hypothesis body_step :
  ∀ g u s, body g u s = (Ok (), file_step css transform output_suffix g s).
Variables f content out : string.
Hypothesis rewritten : transform content = Ok out.
Hypothesis not_output :
  generate_obfuscated_filename f output_suffix ≠ f.

Lemma step_ready g s :
  generate_obfuscated_filename g output_suffix ≠ f →
  ready output_suffix f content s →
  ready output_suffix f content (file_step css transform output_suffix g s).
Proof.
  intros Hg [Hf Hd].
  destruct (file_step_frame css transform output_suffix g s) as (D & F & _).
  split; [rewrite F by congruence; exact Hf | rewrite D; exact Hd].
Qed.

Lemma step_target s :
  ready output_suffix f content s →
  written css output_suffix f content out
    (file_step css transform output_suffix f s).
Proof.
  intros [Hf Hd].
  destruct (file_step_done css transform output_suffix f s content out Hf
              rewritten Hd) as [Hfiles Hrec].
  destruct (file_step_frame css transform output_suffix f s) as (D & _ & _).
  split; [split|split].
  - rewrite Hfiles, lookup_insert_ne by exact not_output. exact Hf.
  - rewrite D. exact Hd.
  - rewrite Hfiles. apply lookup_insert_eq.
  - exact Hrec.
Qed.

Lemma step_written g s :
  generate_obfuscated_filename g output_suffix ≠ f →
  (generate_obfuscated_filename g output_suffix
   = generate_obfuscated_filename f output_suffix → g = f) →
  written css output_suffix f content out s →
  written css output_suffix f content out
    (file_step css transform output_suffix g s).
Proof.
  intros Hg Hinj (Hr & Ho & Hp).
  destruct (decide (g = f)) as [->|Hne]; [apply step_target, Hr|].
  destruct (file_step_frame css transform output_suffix g s) as (_ & F & P).
  split; [apply step_ready; assumption|]. split.
  - rewrite F; [exact Ho|]. intros H. apply Hne, Hinj. congruence.
  - apply P, Hp.
Qed.

Lemma loop_written l s :
  (∀ g, g ∈ l → generate_obfuscated_filename g output_suffix ≠ f) →
  (∀ g, g ∈ l → generate_obfuscated_filename g output_suffix
                = generate_obfuscated_filename f output_suffix → g = f) →
  written css output_suffix f content out s →
  written css output_suffix f content out (snd (for_loop l body () s)).
Proof.
  revert s. induction l as [|g l IH]; intros s H1 H2 Hw; [exact Hw|].
  cbn [for_loop]. unfold bind. rewrite body_step.
  apply IH.
  - intros g' Hg'. apply H1. right. exact Hg'.
  - intros g' Hg'. apply H2. right. exact Hg'.
  - apply step_written; [apply H1; left | apply H2; left | exact Hw].
Qed.

Lemma loop_reaches l s :
  f ∈ l →
  (∀ g, g ∈ l → generate_obfuscated_filename g output_suffix ≠ f) →
  (∀ g, g ∈ l → generate_obfuscated_filename g output_suffix
                = generate_obfuscated_filename f output_suffix → g = f) →
  ready output_suffix f content s →
  written css output_suffix f content out (snd (for_loop l body () s)).
Proof.
  revert s. induction l as [|g l IH]; intros s Hin H1 H2 Hr; [inversion Hin|].
  cbn [for_loop]. unfold bind. rewrite body_step.
  assert (H1' : ∀ g', g' ∈ l → generate_obfuscated_filename g' output_suffix ≠ f)
    by (intros g' Hg'; apply H1; right; exact Hg').
  assert (H2' : ∀ g', g' ∈ l →
            generate_obfuscated_filename g' output_suffix
            = generate_obfuscated_filename f output_suffix → g' = f)
    by (intros g' Hg'; apply H2; right; exact Hg').
  destruct (decide (g = f)) as [->|Hne].
  - apply loop_written; [exact H1' | exact H2' | apply step_target, Hr].
  - apply elem_of_cons in Hin as [Hin|Hin]; [congruence|].
    apply IH; [exact Hin | exact H1' | exact H2' |].
    apply step_ready; [apply H1; left | exact Hr].
Qed.

End Written.

(** A loop over other files keeps what [f] and its output path hold. *)
Lemma loop_keeps css transform output_suffix (body : string → () → M state ())
    css' f content out l :
  (∀ g u s, body g u s = (Ok (), file_step css transform output_suffix g s)) →
  (∀ g, g ∈ l → generate_obfuscated_filename g output_suffix ≠ f) →
  ∀ s,
    (ready output_suffix f content s →
     ready output_suffix f content (snd (for_loop l body () s)))
    ∧ ((∀ g, g ∈ l → generate_obfuscated_filename g output_suffix
                     ≠ generate_obfuscated_filename f output_suffix) →
       written css' output_suffix f content out s →
       written css' output_suffix f content out (snd (for_loop l body () s))).
Proof.
  intros Hstep. induction l as [|g l IH]; intros H1 s; [tauto|].
  cbn [for_loop]. unfold bind. rewrite Hstep.
  assert (H1' : ∀ g', g' ∈ l → generate_obfuscated_filename g' output_suffix ≠ f)
    by (intros g' Hg'; apply H1; right; exact Hg').
  specialize (IH H1' (file_step css transform output_suffix g s)) as [IHr IHw].
  destruct (file_step_frame css transform output_suffix g s) as (D & F & P).
  assert (Hr : ready output_suffix f content s →
               ready output_suffix f content
                 (file_step css transform output_suffix g s)).
  { intros [Hf Hd]. split; [|rewrite D; exact Hd].
    rewrite F; [exact Hf|]. intros H. apply (H1 g); [left|]. congruence. }
  split; [intros H; apply IHr, Hr, H|].
  intros H2 (Hrd & Ho & Hp). apply IHw.
  - intros g' Hg'. apply H2. right. exact Hg'.
  - split; [apply Hr, Hrd|]. split; [|apply P, Hp].
    rewrite F; [exact Ho|]. intros H. apply (H2 g); [left|]. congruence.
Qed.

Lemma drop_succ k s : Py.drop (S k) s = Py.drop 1 (Py.drop k s).
Proof.
  revert s. induction k as [|k IH]; intros [|c s]; try reflexivity.
  change (Py.drop (S (S k)) (String c s)) with (Py.drop (S k) s).
  change (Py.drop (S k) (String c s)) with (Py.drop k s).
  apply IH.
Qed.

(** No name ends with both [.css] and [.html]. *)
Lemma endswith_css_html f :
  Py.endswith ".css" f = true → Py.endswith ".html" f = true → False.
Proof.
  unfold Py.endswith. rewrite !bool_decide_eq_true.
  cbn [String.length]. intros [H1 L1] [H2 L2].
  replace (String.length f - 4)%nat with (S (String.length f - 5)) in H1 by lia.
  rewrite drop_succ, H2 in H1. discriminate H1.
Qed.

Lemma css_not_html w folder_path extensions f :
  f ∈ css_files_of w folder_path extensions →
  f ∈ html_files_of w folder_path extensions → False.
Proof.
  unfold css_files_of, html_files_of. rewrite !list_elem_of_filter.
  intros [H1 _] [H2 _]. apply Is_true_true in H1, H2.
  exact (endswith_css_html f H1 H2).
Qed.


